(** * RepRapFirmware: delta kinematics, move ring, expression parser

  A shallow embedding of the parts of [Move.cpp] (classes
  [DeltaParameters] and [Move]), [ExpressionParser.cpp] and
  [StringParser.cpp] that the specification talks about, followed by the
  properties proved about them.

  Layout: the arithmetic interface and its instance for the controller,
  then one module of definitions per source class, then the lemmas. *)

From Stdlib Require Import ZArith QArith Qabs List Bool Lia.
From Stdlib Require Import SpecFloat.
From Stdlib Require Import Ascii String.
From stdpp Require Import base list option.

Set Default Proof Using "Type".
Local Open Scope Z_scope.

(** ** Arithmetic of the C type [float]

  The firmware computes in IEEE-754 binary32.  The code below is written
  once, over the operations the C++ text uses, and is evaluated at the
  carrier [binary32] (what the controller computes, bit for bit); what
  holds in any arithmetic is proved over the interface.

  A literal such as [0.5] or [3.0] has type double in C++, which promotes
  the other operand.  For one operation whose result is stored back into a
  float the promotion is invisible (the double result rounds to the
  correctly rounded float), and such an expression is written with the
  operation on floats.  Where several operations are made in double before
  the result is stored ([SecondDegreeTransformZ], [l3] of
  [BarycentricCoordinates], [v[5] * (1.0/3.0)], [x + 2.0 * d]) they are
  written with the operations on doubles: [to_double] promotes a float and
  [to_float] is the conversion on the store. *)

Class FloatOps (F : Type) := {
fadd : F -> F -> F;
fsub : F -> F -> F;
fmul : F -> F -> F;
fdiv : F -> F -> F;
fopp : F -> F;
fabs : F -> F;
fsqrt : F -> F;
(** [a < b], [a <= b], [a == b] *)
fltb : F -> F -> bool;
fleb : F -> F -> bool;
feqb : F -> F -> bool;
(** conversion of an integer, [(float)n] *)
fofZ : Z -> F;
(** the decimal literal [n/d] *)
flit : Z -> positive -> F;
(** [(int32_t)roundf(x)]: nearest integer, halves away from zero *)
froundZ : F -> Z;
(** [(int32_t)x]: truncation towards zero *)
ftruncZ : F -> Z;
(** the C type [double], the promotion of a float to it, the conversion
    back, the operations on it and the decimal literal [n/d] *)
dbl : Type;
to_double : F -> dbl;
to_float : dbl -> F;
dadd : dbl -> dbl -> dbl;
dsub : dbl -> dbl -> dbl;
dmul : dbl -> dbl -> dbl;
ddiv : dbl -> dbl -> dbl;
dlit : Z -> positive -> dbl
}.

Declare Scope float_scope.
Delimit Scope float_scope with fl.
Infix "+" := fadd : float_scope.
Infix "-" := fsub : float_scope.
Infix "*" := fmul : float_scope.
Infix "/" := fdiv : float_scope.
Notation "- x" := (fopp x) : float_scope.
Infix "<?" := fltb : float_scope.
Infix "<=?" := fleb : float_scope.
Infix "=?" := feqb : float_scope.
Notation "x >? y" := (fltb y x) (only parsing) : float_scope.
Notation "x >=? y" := (fleb y x) (only parsing) : float_scope.

Definition fzero {F} `{FloatOps F} : F := fofZ 0.
Definition fone {F} `{FloatOps F} : F := fofZ 1.
Definition ftwo {F} `{FloatOps F} : F := fofZ 2.

(** [fsquare] of the firmware's headers: [inline float fsquare(float a) { return a*a; }] *)
Definition fsquare {F} `{FloatOps F} (a : F) : F := (a * a)%fl.

(** *** The carrier binary32 *)

Module B32.

Definition prec : Z := 24.
Definition emax : Z := 128.

Definition t : Type := spec_float.

Definition ofZ (z : Z) : t := binary_normalize prec emax z 0 false.

Definition lit (n : Z) (d : positive) : t :=
  SFdiv prec emax (ofZ n) (ofZ (Zpos d)).

(** Integer nearest to [m * 2^e], halves away from zero (e < 0). *)
Definition round_mag (m : positive) (e : Z) : Z :=
  match e with
  | Zneg p =>
      let d := Z.pow_pos 2 p in
      let q := Z.div (Zpos m) d in
      let r := Z.modulo (Zpos m) d in
      if Z.leb d (2 * r) then q + 1 else q
  | _ => Zpos m * 2 ^ e
  end.

Definition trunc_mag (m : positive) (e : Z) : Z :=
  match e with
  | Zneg p => Z.div (Zpos m) (Z.pow_pos 2 p)
  | _ => Zpos m * 2 ^ e
  end.

(** The conversion of a NaN or an infinity to an integer is undefined in
    C++; the model returns 0 there. *)
Definition roundZ (x : t) : Z :=
  match x with
  | S754_finite s m e => cond_Zopp s (round_mag m e)
  | _ => 0
  end.

Definition truncZ (x : t) : Z :=
  match x with
  | S754_finite s m e => cond_Zopp s (trunc_mag m e)
  | _ => 0
  end.

(** The type double: binary64.  A binary32 number is a binary64 number as
    it is; the conversion back rounds to nearest, ties to even. *)
Definition prec64 : Z := 53.
Definition emax64 : Z := 1024.

Definition lit64 (n : Z) (d : positive) : spec_float :=
  SFdiv prec64 emax64 (binary_normalize prec64 emax64 n 0 false)
                      (binary_normalize prec64 emax64 (Zpos d) 0 false).

Definition of_double (x : spec_float) : t :=
  match x with
  | S754_finite s m e => binary_normalize prec emax (cond_Zopp s (Zpos m)) e s
  | _ => x
  end.

#[global] Instance ops : FloatOps t := {
  fadd := SFadd prec emax;
  fsub := SFsub prec emax;
  fmul := SFmul prec emax;
  fdiv := SFdiv prec emax;
  fopp := SFopp;
  fabs := SFabs;
  fsqrt := SFsqrt prec emax;
  fltb := SFltb;
  fleb := SFleb;
  feqb := SFeqb;
  fofZ := ofZ;
  flit := lit;
  froundZ := roundZ;
  ftruncZ := truncZ;
  dbl := spec_float;
  to_double := fun x => x;
  to_float := of_double;
  dadd := SFadd prec64 emax64;
  dsub := SFsub prec64 emax64;
  dmul := SFmul prec64 emax64;
  ddiv := SFdiv prec64 emax64;
  dlit := lit64
}.


Definition is_finite (x : t) : bool :=
  match x with S754_finite _ _ _ | S754_zero _ => true | _ => false end.

(** The exact value of a finite float as a rational number (0 for the
    others), for stating tolerances without rounding. *)
Definition toQ (x : t) : Q :=
  match x with
  | S754_finite s m e =>
      match e with
      | Zneg p => Qmake (cond_Zopp s (Zpos m)) (Pos.pow 2 p)
      | _ => inject_Z (cond_Zopp s (Zpos m * 2 ^ e))
      end
  | _ => 0%Q
  end.

(** [|a - b| <= tol] on the exact values; false when either is not
    finite. *)
Definition within (tol : Q) (a b : t) : bool :=
  is_finite a && is_finite b && Qle_bool (Qabs (toQ a - toQ b)) tol.

End B32.


(** ** Arrays

  A C array [float a[N]] is a list; [a.[i]] reads it and [aset] writes it.
  A write past the end is undefined behaviour in C++; here it leaves the
  list as it is, and a read past the end gives 0. *)

Definition aget {F} `{FloatOps F} (a : list F) (i : nat) : F := nth i a fzero.
Definition aset {A} (a : list A) (i : nat) (v : A) : list A := <[i := v]> a.
Notation "a .[ i ]" := (aget a i) (at level 1, left associativity, format "a .[ i ]").

Definition X_AXIS : nat := 0.
Definition Y_AXIS : nat := 1.
Definition Z_AXIS : nat := 2.
Definition A_AXIS : nat := 0.
Definition B_AXIS : nat := 1.
Definition C_AXIS : nat := 2.
Definition AXES : nat := 3.

(** ** Class [DeltaParameters] *)

Module Delta.
Section WithFloat.
Context {F : Type} `{FloatOps F}.
Local Open Scope float_scope.

Record DeltaParameters := mkDelta {
  deltaMode : bool;
  diagonal : F;
  radius : F;
  printRadius : F;
  homedHeight : F;
  isEquilateral : bool;
  endstopAdjustments : list F;
  towerX : list F;
  towerY : list F;
  (* derived values, set by Recalc *)
  Xbc : F; Xca : F; Xab : F;
  Ybc : F; Yca : F; Yab : F;
  coreFa : F; coreFb : F; coreFc : F;
  Q : F; Q2 : F; D2 : F;
  homedCarriageHeight : F
}.

(** Constants of the configuration header, not part of the sources at
    hand. *)
Variable defaultPrintRadius : F.
Variable defaultDeltaHomedHeight : F.

Definition set_geometry (dp : DeltaParameters)
    (r : F) (eq : bool) (tx ty : list F) : DeltaParameters :=
  mkDelta (deltaMode dp) (diagonal dp) r (printRadius dp) (homedHeight dp) eq
          (endstopAdjustments dp) tx ty
          (Xbc dp) (Xca dp) (Xab dp) (Ybc dp) (Yca dp) (Yab dp)
          (coreFa dp) (coreFb dp) (coreFc dp) (Q dp) (Q2 dp) (D2 dp)
          (homedCarriageHeight dp).

Definition set_diagonal (dp : DeltaParameters) (d : F) : DeltaParameters :=
  mkDelta (deltaMode dp) d (radius dp) (printRadius dp) (homedHeight dp)
          (isEquilateral dp) (endstopAdjustments dp) (towerX dp) (towerY dp)
          (Xbc dp) (Xca dp) (Xab dp) (Ybc dp) (Yca dp) (Yab dp)
          (coreFa dp) (coreFb dp) (coreFc dp) (Q dp) (Q2 dp) (D2 dp)
          (homedCarriageHeight dp).

Definition set_endstops_heights (dp : DeltaParameters)
    (e : list F) (hh hch : F) : DeltaParameters :=
  mkDelta (deltaMode dp) (diagonal dp) (radius dp) (printRadius dp) hh
          (isEquilateral dp) e (towerX dp) (towerY dp)
          (Xbc dp) (Xca dp) (Xab dp) (Ybc dp) (Yca dp) (Yab dp)
          (coreFa dp) (coreFb dp) (coreFc dp) (Q dp) (Q2 dp) (D2 dp) hch.

Definition set_deltaMode (dp : DeltaParameters) (b : bool) : DeltaParameters :=
  mkDelta b (diagonal dp) (radius dp) (printRadius dp) (homedHeight dp)
          (isEquilateral dp) (endstopAdjustments dp) (towerX dp) (towerY dp)
          (Xbc dp) (Xca dp) (Xab dp) (Ybc dp) (Yca dp) (Yab dp)
          (coreFa dp) (coreFb dp) (coreFc dp) (Q dp) (Q2 dp) (D2 dp)
          (homedCarriageHeight dp).

(** [DeltaParameters::Init] *)
Definition Init (dp : DeltaParameters) : DeltaParameters :=
  mkDelta false fzero fzero defaultPrintRadius defaultDeltaHomedHeight true
          (replicate AXES fzero) (replicate AXES fzero) (replicate AXES fzero)
          (Xbc dp) (Xca dp) (Xab dp) (Ybc dp) (Yca dp) (Yab dp)
          (coreFa dp) (coreFb dp) (coreFc dp) (Q dp) (Q2 dp) (D2 dp)
          (homedCarriageHeight dp).

(** [DeltaParameters::InverseTransform]: carriage heights to the
    Cartesian position, written into [machinePos]. *)
Definition InverseTransform (dp : DeltaParameters) (Ha Hb Hc : F)
    (machinePos : list F) : list F :=
  let Fa := coreFa dp + fsquare Ha in
  let Fb := coreFb dp + fsquare Hb in
  let Fc := coreFc dp + fsquare Hc in
  let P := (Xbc dp * Fa) + (Xca dp * Fb) + (Xab dp * Fc) in
  let S := (Ybc dp * Fa) + (Yca dp * Fb) + (Yab dp * Fc) in
  let R := ftwo * ((Xbc dp * Ha) + (Xca dp * Hb) + (Xab dp * Hc)) in
  let U := ftwo * ((Ybc dp * Ha) + (Yca dp * Hb) + (Yab dp * Hc)) in
  let R2 := fsquare R in
  let U2 := fsquare U in
  let A := U2 + R2 + Q2 dp in
  let minusHalfB :=
    S * U + P * R + Ha * Q2 dp + (towerX dp).[A_AXIS] * U * Q dp
      - (towerY dp).[A_AXIS] * R * Q dp in
  let C := fsquare (S + (towerX dp).[A_AXIS] * Q dp)
           + fsquare (P - (towerY dp).[A_AXIS] * Q dp)
           + (fsquare Ha - D2 dp) * Q2 dp in
  let z := (minusHalfB - fsqrt (fsquare minusHalfB - A * C)) / A in
  let machinePos := aset machinePos X_AXIS ((U * z - S) / Q dp) in
  let machinePos := aset machinePos Y_AXIS ((P - R * z) / Q dp) in
  aset machinePos Z_AXIS z.

(** [DeltaParameters::Recalc].  The third carriage height handed to
    [InverseTransform] is built from [endstopAdjustments[X_AXIS]], as in
    the source text. *)
Definition Recalc (dp : DeltaParameters) : DeltaParameters :=
  let dm := (radius dp >? fzero) && (diagonal dp >? radius dp) in
  if dm then
    let tx := towerX dp in
    let ty := towerY dp in
    let xbc := tx.[C_AXIS] - tx.[B_AXIS] in
    let xca := tx.[A_AXIS] - tx.[C_AXIS] in
    let xab := tx.[B_AXIS] - tx.[A_AXIS] in
    let ybc := ty.[C_AXIS] - ty.[B_AXIS] in
    let yca := ty.[A_AXIS] - ty.[C_AXIS] in
    let yab := ty.[B_AXIS] - ty.[A_AXIS] in
    let cfa := fsquare tx.[A_AXIS] + fsquare ty.[A_AXIS] in
    let cfb := fsquare tx.[B_AXIS] + fsquare ty.[B_AXIS] in
    let cfc := fsquare tx.[C_AXIS] + fsquare ty.[C_AXIS] in
    let q := ftwo * (xca * yab - xab * yca) in
    let q2 := fsquare q in
    let d2 := fsquare (diagonal dp) in
    let dp1 :=
      mkDelta true (diagonal dp) (radius dp) (printRadius dp) (homedHeight dp)
              (isEquilateral dp) (endstopAdjustments dp) tx ty
              xbc xca xab ybc yca yab cfa cfb cfc q q2 d2
              (homedCarriageHeight dp) in
    let tempHeight := diagonal dp in
    let machinePos :=
      InverseTransform dp1
        (tempHeight + (endstopAdjustments dp).[X_AXIS])
        (tempHeight + (endstopAdjustments dp).[Y_AXIS])
        (tempHeight + (endstopAdjustments dp).[X_AXIS])
        (replicate AXES fzero) in
    set_endstops_heights dp1 (endstopAdjustments dp1) (homedHeight dp1)
      (homedHeight dp + tempHeight - machinePos.[Z_AXIS])
  else set_deltaMode dp false.

(** [DeltaParameters::SetRadius] *)
Definition SetRadius (dp : DeltaParameters) (r : F) : DeltaParameters :=
  let cos30 := fsqrt (flit 3 1) / flit 2 1 in
  let sin30 := flit 1 2 in
  let tx := replicate AXES fzero in
  let tx := aset tx A_AXIS (- (r * cos30)) in
  let tx := aset tx B_AXIS (r * cos30) in
  let tx := aset tx C_AXIS fzero in
  let ty := replicate AXES fzero in
  let ty := aset ty B_AXIS (- (r * sin30)) in
  let ty := aset ty A_AXIS ty.[B_AXIS] in
  let ty := aset ty C_AXIS r in
  Recalc (set_geometry dp r true tx ty).

(** [DeltaParameters::NormaliseEndstopAdjustments] *)
Definition NormaliseEndstopAdjustments (dp : DeltaParameters) : DeltaParameters :=
  let e := endstopAdjustments dp in
  let eav := (e.[A_AXIS] + e.[B_AXIS] + e.[C_AXIS]) / flit 3 1 in
  let e := aset e A_AXIS (e.[A_AXIS] - eav) in
  let e := aset e B_AXIS (e.[B_AXIS] - eav) in
  let e := aset e C_AXIS (e.[C_AXIS] - eav) in
  set_endstops_heights dp e (homedHeight dp + eav) (homedCarriageHeight dp + eav).

(** [DeltaParameters::Transform]: height of the carriage of tower [axis]
    for a Cartesian position. *)
Definition Transform (dp : DeltaParameters) (machinePos : list F) (axis : nat) : F :=
  machinePos.[Z_AXIS]
  + fsqrt (D2 dp - fsquare (machinePos.[X_AXIS] - (towerX dp).[axis])
                 - fsquare (machinePos.[Y_AXIS] - (towerY dp).[axis])).

(** Modelled from the spec: the accessor [GetHomedCarriageHeight] of the
    class declaration (header not at hand); the homed carriage height of a
    tower is the common height plus that tower's endstop adjustment. *)
Definition GetHomedCarriageHeight (dp : DeltaParameters) (axis : nat) : F :=
  homedCarriageHeight dp + (endstopAdjustments dp).[axis].

Definition set_towers (dp : DeltaParameters) (tx ty : list F) : DeltaParameters :=
  set_geometry dp (radius dp) (isEquilateral dp) tx ty.

(** [DeltaParameters::ComputeDerivative]: symmetric difference quotient of
    the height with respect to parameter [deriv] (0..2 endstops, 3..4 tower
    X of A and B, 5 tower Y of C, 6 diagonal) at fixed carriage heights. *)
Definition ComputeDerivative (dp : DeltaParameters) (deriv : nat) (ha hb hc : F) : F :=
  let perturb := flit 2 10 in
  let '(hiParams, loParams) :=
    match deriv with
    | 0%nat | 1%nat | 2%nat => (dp, dp)
    | 3%nat | 4%nat =>
        let i := (deriv - 3)%nat in
        (set_towers dp (aset (towerX dp) i ((towerX dp).[i] + perturb)) (towerY dp),
         set_towers dp (aset (towerX dp) i ((towerX dp).[i] - perturb)) (towerY dp))
    | 5%nat =>
        let yAdj := to_float (dmul (to_double perturb) (ddiv (dlit 1 1) (dlit 3 1))) in
        let hy := towerY dp in
        let hy := aset hy A_AXIS (hy.[A_AXIS] - yAdj) in
        let hy := aset hy B_AXIS (hy.[B_AXIS] - yAdj) in
        let hy := aset hy C_AXIS (hy.[C_AXIS] + (perturb - yAdj)) in
        let ly := towerY dp in
        let ly := aset ly A_AXIS (ly.[A_AXIS] + yAdj) in
        let ly := aset ly B_AXIS (ly.[B_AXIS] + yAdj) in
        let ly := aset ly C_AXIS (ly.[C_AXIS] - (perturb - yAdj)) in
        (set_towers dp (towerX dp) hy, set_towers dp (towerX dp) ly)
    | 6%nat =>
        (set_diagonal dp (diagonal dp + perturb),
         set_diagonal dp (diagonal dp - perturb))
    | _ => (dp, dp)
    end in
  let hiParams := Recalc hiParams in
  let loParams := Recalc loParams in
  let pick (d : nat) (h h' : F) := if Nat.eqb deriv d then h' else h in
  let newPos :=
    InverseTransform hiParams (pick 0%nat ha (ha + perturb)) (pick 1%nat hb (hb + perturb))
                     (pick 2%nat hc (hc + perturb)) (replicate AXES fzero) in
  let zHi := newPos.[Z_AXIS] in
  let newPos :=
    InverseTransform loParams (pick 0%nat ha (ha - perturb)) (pick 1%nat hb (hb - perturb))
                     (pick 2%nat hc (hc - perturb)) newPos in
  let zLo := newPos.[Z_AXIS] in
  (zHi - zLo) / (ftwo * perturb).

Definition add_endstops (dp : DeltaParameters) (v : list F) : DeltaParameters :=
  let e := endstopAdjustments dp in
  let e := aset e A_AXIS (e.[A_AXIS] + v.[0%nat]) in
  let e := aset e B_AXIS (e.[B_AXIS] + v.[1%nat]) in
  let e := aset e C_AXIS (e.[C_AXIS] + v.[2%nat]) in
  set_endstops_heights dp e (homedHeight dp) (homedCarriageHeight dp).

(** [DeltaParameters::AdjustFour]: endstops and delta radius. *)
Definition AdjustFour (dp : DeltaParameters) (v : list F) : DeltaParameters :=
  let dp := NormaliseEndstopAdjustments (add_endstops dp v) in
  SetRadius dp (radius dp + v.[3%nat]).

(** [DeltaParameters::AdjustSeven]: endstops, tower positions and
    diagonal. *)
Definition AdjustSeven (dp : DeltaParameters) (v : list F) : DeltaParameters :=
  let oldCarriageHeightA := GetHomedCarriageHeight dp A_AXIS in
  let dp := NormaliseEndstopAdjustments (add_endstops dp v) in
  let tx := towerX dp in
  let tx := aset tx A_AXIS (tx.[A_AXIS] + v.[3%nat]) in
  let tx := aset tx B_AXIS (tx.[B_AXIS] + v.[4%nat]) in
  let yAdj := to_float (dmul (to_double v.[5%nat]) (ddiv (dlit 1 1) (dlit 3 1))) in
  let ty := towerY dp in
  let ty := aset ty A_AXIS (ty.[A_AXIS] - yAdj) in
  let ty := aset ty B_AXIS (ty.[B_AXIS] - yAdj) in
  let ty := aset ty C_AXIS (ty.[C_AXIS] + (v.[5%nat] - yAdj)) in
  let dp := set_geometry dp (radius dp) false tx ty in
  let dp := set_diagonal dp (diagonal dp + v.[6%nat]) in
  let dp := Recalc dp in
  let heightError := GetHomedCarriageHeight dp A_AXIS - oldCarriageHeightA - v.[0%nat] in
  set_endstops_heights dp (endstopAdjustments dp)
    (homedHeight dp - heightError) (homedCarriageHeight dp - heightError).



End WithFloat.
Arguments DeltaParameters F : clear implicits.
End Delta.


(** ** Class [Move] *)

Module MoveM.

(** States of a move descriptor (class [DDA]). *)
Inductive DDAState := empty | provisional | frozen | executing | completed.

Definition DDAState_eqb (a b : DDAState) : bool :=
  match a, b with
  | empty, empty | provisional, provisional | frozen, frozen
  | executing, executing | completed, completed => true
  | _, _ => false
  end.

Inductive IdleState := idle | busy | timing.

Definition FilePosition : Type := Z.

(** What the firmware says to the outside: messages of the platform, the
    poll of the G-code front end, and commands to the drivers.  The
    output of [debugPrintf] is not modelled. *)
Inductive Event :=
| EvMessage (text : string)
| EvReadMove
| EvSetDriveIdle (drive : nat)
| EvClassReport.

Section WithFloat.
Context {F : Type} `{FloatOps F}.
Local Open Scope float_scope.

(** The platform, as far as [Move] asks it. *)
Record Platform := mkPlatform {
  DriveStepsPerUnit : list F;
  AxisMaximum : list F;
  AxisMinimum : list F;
  Time : F;
  InterruptClocks : Z;
  GCodesIsPaused : bool
}.

Record Compensation := mkComp {
  tanXY : F; tanYZ : F; tanXZ : F;
  xBedProbePoints : list F;
  yBedProbePoints : list F;
  zBedProbePoints : list F;
  probePointSet : list Z;
  baryXBedProbePoints : list F;
  baryYBedProbePoints : list F;
  baryZBedProbePoints : list F;
  aX : F; aY : F; aC : F;
  xRectangle : F; yRectangle : F;
  identityBedTransform : bool
}.

(** Constants of the headers, not part of the sources at hand. *)
Class Config := {
  MaxProbePoints : nat;
  xSet : Z; ySet : Z; zSet : Z;
  TRIANGLE_0 : F;
  DRIVES : nat;
  MaxDeltaCalibrationPoints : nat;
  noFilePosition : FilePosition;
  stepClockRate : Z
}.
Context `{Config}.

Definition AllProbeCoordinatesSet (c : Compensation) (index : nat) : bool :=
  Z.eqb (nth index (probePointSet c) 0%Z) (Z.lor (Z.lor xSet ySet) zSet).

(** [Move::NumberOfProbePoints]: index of the first probe point that is
    not completely set. *)
Fixpoint NumberOfProbePoints_from (c : Compensation) (i n : nat) : nat :=
  match n with
  | O => i
  | S n' => if AllProbeCoordinatesSet c i
            then NumberOfProbePoints_from c (S i) n' else i
  end.

Definition NumberOfProbePoints (c : Compensation) : nat :=
  NumberOfProbePoints_from c 0 MaxProbePoints.

(** [Move::SecondDegreeTransformZ].  The literal [1.0] makes the first three
    products and the sum double; the fourth product is one of floats. *)
Definition SecondDegreeTransformZ (c : Compensation) (x y : F) : F :=
  let x := (x - (xBedProbePoints c).[0%nat]) * xRectangle c in
  let y := (y - (yBedProbePoints c).[0%nat]) * yRectangle c in
  let z (i : nat) : dbl := to_double (zBedProbePoints c).[i] in
  let one : dbl := dlit 1 1 in
  let dx : dbl := to_double x in
  let dy : dbl := to_double y in
  to_float
    (dadd (dadd (dadd (dmul (dmul (dsub one dx) (dsub one dy)) (z 0%nat))
                      (dmul (dmul dx (dsub one dy)) (z 3%nat)))
                (dmul (dmul (dsub one dx) dy) (z 1%nat)))
          (to_double (x * y * (zBedProbePoints c).[2%nat]))).

(** [Move::BarycentricCoordinates], returning [(l1, l2, l3)]. *)
Definition BarycentricCoordinates (c : Compensation) (p1 p2 p3 : nat) (x y : F)
    : F * F * F :=
  let y23 := (baryYBedProbePoints c).[p2] - (baryYBedProbePoints c).[p3] in
  let x3 := x - (baryXBedProbePoints c).[p3] in
  let x32 := (baryXBedProbePoints c).[p3] - (baryXBedProbePoints c).[p2] in
  let y3 := y - (baryYBedProbePoints c).[p3] in
  let x13 := (baryXBedProbePoints c).[p1] - (baryXBedProbePoints c).[p3] in
  let y13 := (baryYBedProbePoints c).[p1] - (baryYBedProbePoints c).[p3] in
  let iDet := fone / (y23 * x13 + x32 * y13) in
  let l1 := (y23 * x3 + x32 * y3) * iDet in
  let l2 := (- y13 * x3 + x13 * y3) * iDet in
  let l3 := to_float (dsub (dsub (dlit 1 1) (to_double l1)) (to_double l2)) in
  (l1, l2, l3).

(** [Move::TriangleZ]: the loop over the four triangles, from triangle
    [i], [n] triangles left. *)
Fixpoint TriangleZ_from (c : Compensation) (x y : F) (i n : nat) : F * list Event :=
  match n with
  | O => (fzero, [EvMessage "Triangle interpolation: point outside all triangles!"])
  | S n' =>
      let j := ((i + 1) mod 4)%nat in
      let '(l1, l2, l3) := BarycentricCoordinates c i j 4 x y in
      if (l1 >? TRIANGLE_0) && (l2 >? TRIANGLE_0) && (l3 >? TRIANGLE_0)
      then (l1 * (baryZBedProbePoints c).[i] + l2 * (baryZBedProbePoints c).[j]
            + l3 * (baryZBedProbePoints c).[4%nat], [])
      else TriangleZ_from c x y (S i) n'
  end.

Definition TriangleZ (c : Compensation) (x y : F) : F * list Event :=
  TriangleZ_from c x y 0 4.

(** [Move::BedTransform]: bed compensation of a point, after the axis
    transform. *)
Definition BedTransform (c : Compensation) (xyzPoint : list F) : list F * list Event :=
  if negb (identityBedTransform c) then
    match NumberOfProbePoints c with
    | 0%nat => (xyzPoint, [])
    | 3%nat =>
        (aset xyzPoint Z_AXIS
           (xyzPoint.[Z_AXIS] + aX c * xyzPoint.[X_AXIS] + aY c * xyzPoint.[Y_AXIS] + aC c),
         [])
    | 4%nat =>
        (aset xyzPoint Z_AXIS
           (xyzPoint.[Z_AXIS] + SecondDegreeTransformZ c xyzPoint.[X_AXIS] xyzPoint.[Y_AXIS]),
         [])
    | 5%nat =>
        let '(tz, ev) := TriangleZ c xyzPoint.[X_AXIS] xyzPoint.[Y_AXIS] in
        (aset xyzPoint Z_AXIS (xyzPoint.[Z_AXIS] + tz), ev)
    | _ => (xyzPoint, [EvMessage "BedTransform: wrong number of sample points."])
    end
  else (xyzPoint, []).

(** [Move::InverseBedTransform]: before the inverse axis transform. *)
Definition InverseBedTransform (c : Compensation) (xyzPoint : list F)
    : list F * list Event :=
  if negb (identityBedTransform c) then
    match NumberOfProbePoints c with
    | 0%nat => (xyzPoint, [])
    | 3%nat =>
        (aset xyzPoint Z_AXIS
           (xyzPoint.[Z_AXIS]
            - (aX c * xyzPoint.[X_AXIS] + aY c * xyzPoint.[Y_AXIS] + aC c)),
         [])
    | 4%nat =>
        (aset xyzPoint Z_AXIS
           (xyzPoint.[Z_AXIS] - SecondDegreeTransformZ c xyzPoint.[X_AXIS] xyzPoint.[Y_AXIS]),
         [])
    | 5%nat =>
        let '(tz, ev) := TriangleZ c xyzPoint.[X_AXIS] xyzPoint.[Y_AXIS] in
        (aset xyzPoint Z_AXIS (xyzPoint.[Z_AXIS] - tz), ev)
    | _ => (xyzPoint, [EvMessage "InverseBedTransform: wrong number of sample points."])
    end
  else (xyzPoint, []).

(** [Move::AxisTransform] and [Move::InverseAxisTransform]: axis skew. *)
Definition AxisTransform (c : Compensation) (xyzPoint : list F) : list F :=
  let xyzPoint :=
    aset xyzPoint X_AXIS
      (xyzPoint.[X_AXIS] + tanXY c * xyzPoint.[Y_AXIS] + tanXZ c * xyzPoint.[Z_AXIS]) in
  aset xyzPoint Y_AXIS (xyzPoint.[Y_AXIS] + tanYZ c * xyzPoint.[Z_AXIS]).

Definition InverseAxisTransform (c : Compensation) (xyzPoint : list F) : list F :=
  let xyzPoint :=
    aset xyzPoint Y_AXIS (xyzPoint.[Y_AXIS] - tanYZ c * xyzPoint.[Z_AXIS]) in
  aset xyzPoint X_AXIS
    (xyzPoint.[X_AXIS] - (tanXY c * xyzPoint.[Y_AXIS] + tanXZ c * xyzPoint.[Z_AXIS])).

(** [Move::Transform] and [Move::InverseTransform] *)
Definition Transform (c : Compensation) (xyzPoint : list F) : list F * list Event :=
  BedTransform c (AxisTransform c xyzPoint).

Definition InverseTransform (c : Compensation) (xyzPoint : list F) : list F * list Event :=
  let '(p, ev) := InverseBedTransform c xyzPoint in
  (InverseAxisTransform c p, ev).

(** *** Probe points and the bed equation *)

Definition set_probe_x (c : Compensation) (xs : list F) (flags : list Z) : Compensation :=
  mkComp (tanXY c) (tanYZ c) (tanXZ c) xs (yBedProbePoints c) (zBedProbePoints c) flags
         (baryXBedProbePoints c) (baryYBedProbePoints c) (baryZBedProbePoints c)
         (aX c) (aY c) (aC c) (xRectangle c) (yRectangle c) (identityBedTransform c).
Definition set_probe_y (c : Compensation) (ys : list F) (flags : list Z) : Compensation :=
  mkComp (tanXY c) (tanYZ c) (tanXZ c) (xBedProbePoints c) ys (zBedProbePoints c) flags
         (baryXBedProbePoints c) (baryYBedProbePoints c) (baryZBedProbePoints c)
         (aX c) (aY c) (aC c) (xRectangle c) (yRectangle c) (identityBedTransform c).
Definition set_probe_z (c : Compensation) (zs : list F) (flags : list Z) : Compensation :=
  mkComp (tanXY c) (tanYZ c) (tanXZ c) (xBedProbePoints c) (yBedProbePoints c) zs flags
         (baryXBedProbePoints c) (baryYBedProbePoints c) (baryZBedProbePoints c)
         (aX c) (aY c) (aC c) (xRectangle c) (yRectangle c) (identityBedTransform c).

Definition probe_index_ok (index : Z) : bool :=
  negb ((index <? 0)%Z || (index >=? Z.of_nat MaxProbePoints)%Z).

Definition add_flag (flags : list Z) (i : nat) (flag : Z) : list Z :=
  aset flags i (Z.lor (nth i flags 0%Z) flag).

(** [Move::SetXBedProbePoint], [Move::SetYBedProbePoint] and
    [Move::SetZBedProbePoint] *)
Definition SetXBedProbePoint (c : Compensation) (index : Z) (x : F)
    : Compensation * list Event :=
  if probe_index_ok index then
    let i := Z.to_nat index in
    (set_probe_x c (aset (xBedProbePoints c) i x) (add_flag (probePointSet c) i xSet), [])
  else (c, [EvMessage "Z probe point X index out of range."]).

Definition SetYBedProbePoint (c : Compensation) (index : Z) (y : F)
    : Compensation * list Event :=
  if probe_index_ok index then
    let i := Z.to_nat index in
    (set_probe_y c (aset (yBedProbePoints c) i y) (add_flag (probePointSet c) i ySet), [])
  else (c, [EvMessage "Z probe point Y index out of range."]).

Definition SetZBedProbePoint (c : Compensation) (index : Z) (z : F)
    : Compensation * list Event :=
  if probe_index_ok index then
    let i := Z.to_nat index in
    (set_probe_z c (aset (zBedProbePoints c) i z) (add_flag (probePointSet c) i zSet), [])
  else (c, [EvMessage "Z probe point Z index out of range."]).

(** [Move::XYProbeCoordinatesSet] and [Move::NumberOfXYProbePoints] *)
Definition XYProbeCoordinatesSet (c : Compensation) (index : nat) : bool :=
  negb (Z.eqb (Z.land (nth index (probePointSet c) 0%Z) xSet) 0)
  && negb (Z.eqb (Z.land (nth index (probePointSet c) 0%Z) ySet) 0).

Fixpoint NumberOfXYProbePoints_from (c : Compensation) (i n : nat) : nat :=
  match n with
  | O => i
  | S n' => if XYProbeCoordinatesSet c i
            then NumberOfXYProbePoints_from c (S i) n' else i
  end.

Definition NumberOfXYProbePoints (c : Compensation) : nat :=
  NumberOfXYProbePoints_from c 0 MaxProbePoints.

(** [Move::SetProbedBedEquation].  The reply lists the probe points that
    the equation fits; it is not written when the number of points is not
    supported. *)
Definition SetProbedBedEquation (c : Compensation) (numPoints : nat)
    : Compensation * list Event * option (list (F * F * F)) :=
  let xs := xBedProbePoints c in
  let ys := yBedProbePoints c in
  let zs := zBedProbePoints c in
  let fitted (c : Compensation) :=
    (c, [],
     Some (map (fun i => ((xBedProbePoints c).[i], (yBedProbePoints c).[i],
                          (zBedProbePoints c).[i]))
               (seq 0 (NumberOfProbePoints c)))) in
  match numPoints with
  | 3%nat =>
      let x10 := xs.[1%nat] - xs.[0%nat] in
      let y10 := ys.[1%nat] - ys.[0%nat] in
      let z10 := zs.[1%nat] - zs.[0%nat] in
      let x20 := xs.[2%nat] - xs.[0%nat] in
      let y20 := ys.[2%nat] - ys.[0%nat] in
      let z20 := zs.[2%nat] - zs.[0%nat] in
      let a := y10 * z20 - z10 * y20 in
      let b := z10 * x20 - x10 * z20 in
      let cc := x10 * y20 - y10 * x20 in
      let d := - (xs.[1%nat] * a + ys.[1%nat] * b + zs.[1%nat] * cc) in
      fitted
        (mkComp (tanXY c) (tanYZ c) (tanXZ c) xs ys zs (probePointSet c)
                (baryXBedProbePoints c) (baryYBedProbePoints c) (baryZBedProbePoints c)
                (- a / cc) (- b / cc) (- d / cc) (xRectangle c) (yRectangle c) false)
  | 4%nat =>
      fitted
        (mkComp (tanXY c) (tanYZ c) (tanXZ c) xs ys zs (probePointSet c)
                (baryXBedProbePoints c) (baryYBedProbePoints c) (baryZBedProbePoints c)
                (aX c) (aY c) (aC c)
                (fone / (xs.[3%nat] - xs.[0%nat])) (fone / (ys.[1%nat] - ys.[0%nat])) false)
  | 5%nat =>
      let '(bx, by', bz) :=
        fold_left
          (fun (b : list F * list F * list F) (i : nat) =>
             let '(bx, by', bz) := b in
             let x10 := xs.[i] - xs.[4%nat] in
             let y10 := ys.[i] - ys.[4%nat] in
             let z10 := zs.[i] - zs.[4%nat] in
             let twice (p d : F) : F :=
               to_float (dadd (to_double p) (dmul (dlit 2 1) (to_double d))) in
             (aset bx i (twice xs.[4%nat] x10),
              aset by' i (twice ys.[4%nat] y10),
              aset bz i (twice zs.[4%nat] z10)))
          (seq 0 4)
          (baryXBedProbePoints c, baryYBedProbePoints c, baryZBedProbePoints c) in
      fitted
        (mkComp (tanXY c) (tanYZ c) (tanXZ c) xs ys zs (probePointSet c)
                (aset bx 4 xs.[4%nat]) (aset by' 4 ys.[4%nat]) (aset bz 4 zs.[4%nat])
                (aX c) (aY c) (aC c) (xRectangle c) (yRectangle c) false)
  | _ =>
      (c,
       [EvMessage "Bed calibration error: %d points provided but only 3, 4 and 5 supported"],
       None)
  end.

(** *** The ring of move descriptors

    Class [DDA] is declared elsewhere; a descriptor is a value of type [D]
    and the member functions of [DDA] that [Move] calls are the
    operations below.  The descriptors form a ring through their
    [next]/[previous] links, set up once by the constructor of [Move]; the
    ring is the list [slots], a pointer to a descriptor is its index, and
    the links are index arithmetic. *)
Class DDA (D : Type) := {
  GetState : D -> DDAState;
  CalcTime : D -> F;
  CanPause : D -> bool;
  GetFilePosition : D -> FilePosition;
  GetEndCoordinate : D -> nat -> bool -> F;
  GetRequestedSpeed : D -> F;
  Release : D -> D;
  GetTimeLeft : D -> Z;
  DriveCoordinates : D -> list Z;
  SetDriveCoordinate : D -> Z -> nat -> D;
  Start : D -> Z -> bool * D;
  FetchEndPosition : D -> list Z -> list F -> bool * list Z * list F;
  (** [DDA::Init] and [DDA::Prepare] look at and adjust the neighbours of
      the descriptor (look-ahead), so they act on the ring. *)
  DDA_Init : list D -> nat -> list F -> Z -> bool -> FilePosition -> bool * list D;
  Prepare : list D -> nat -> list D
}.
Context {D : Type} `{Inhabited D} `{DDA D}.

Record Ring := mkRing {
  slots : list D;
  ddaRingAddPointer : nat;
  ddaRingGetPointer : nat;
  currentDda : option nat;
  addNoMoreMoves : bool
}.

Definition GetNext (r : Ring) (i : nat) : nat := ((i + 1) mod length (slots r))%nat.
Definition GetPrevious (r : Ring) (i : nat) : nat :=
  ((i + (length (slots r) - 1)) mod length (slots r))%nat.
Definition dda (r : Ring) (i : nat) : D := slots r !!! i.

Definition set_slots (r : Ring) (l : list D) : Ring :=
  mkRing l (ddaRingAddPointer r) (ddaRingGetPointer r) (currentDda r) (addNoMoreMoves r).
Definition set_addPointer (r : Ring) (i : nat) : Ring :=
  mkRing (slots r) i (ddaRingGetPointer r) (currentDda r) (addNoMoreMoves r).
Definition set_getPointer (r : Ring) (i : nat) : Ring :=
  mkRing (slots r) (ddaRingAddPointer r) i (currentDda r) (addNoMoreMoves r).
Definition set_currentDda (r : Ring) (c : option nat) : Ring :=
  mkRing (slots r) (ddaRingAddPointer r) (ddaRingGetPointer r) c (addNoMoreMoves r).
Definition update_dda (r : Ring) (i : nat) (f : D -> D) : Ring :=
  set_slots r (<[i := f (dda r i)]> (slots r)).

Definition DDARingEmpty (r : Ring) : bool :=
  Nat.eqb (ddaRingGetPointer r) (ddaRingAddPointer r).

Record Live := mkLive {
  liveCoordinates : list F;
  liveEndPoints : list Z;
  liveCoordinatesValid : bool
}.

Record Idle := mkIdle {
  idleCount : Z;
  iState : IdleState;
  idleTimeout : F;
  lastMoveTime : F
}.

(** The data members of [Move], grouped: the ring, the bed and skew
    compensation, the live position and the idle timer. *)
Record Move := mkMove {
  active : bool;
  ring : Ring;
  deltaParams : Delta.DeltaParameters F;
  coreXYMode : Z;
  comp : Compensation;
  live : Live;
  idleS : Idle;
  currentFeedrate : F;
  simulating : bool;
  simulationTime : F;
  longWait : F
}.

Definition set_ring (m : Move) (r : Ring) : Move :=
  mkMove (active m) r (deltaParams m) (coreXYMode m) (comp m) (live m) (idleS m)
         (currentFeedrate m) (simulating m) (simulationTime m) (longWait m).
Definition set_deltaParams (m : Move) (dp : Delta.DeltaParameters F) : Move :=
  mkMove (active m) (ring m) dp (coreXYMode m) (comp m) (live m) (idleS m)
         (currentFeedrate m) (simulating m) (simulationTime m) (longWait m).
Definition set_live (m : Move) (l : Live) : Move :=
  mkMove (active m) (ring m) (deltaParams m) (coreXYMode m) (comp m) l (idleS m)
         (currentFeedrate m) (simulating m) (simulationTime m) (longWait m).
Definition set_idle (m : Move) (i : Idle) : Move :=
  mkMove (active m) (ring m) (deltaParams m) (coreXYMode m) (comp m) (live m) i
         (currentFeedrate m) (simulating m) (simulationTime m) (longWait m).
Definition set_currentFeedrate (m : Move) (f : F) : Move :=
  mkMove (active m) (ring m) (deltaParams m) (coreXYMode m) (comp m) (live m) (idleS m)
         f (simulating m) (simulationTime m) (longWait m).
Definition set_simulationTime (m : Move) (t : F) : Move :=
  mkMove (active m) (ring m) (deltaParams m) (coreXYMode m) (comp m) (live m) (idleS m)
         (currentFeedrate m) (simulating m) t (longWait m).
Definition set_longWait (m : Move) (t : F) : Move :=
  mkMove (active m) (ring m) (deltaParams m) (coreXYMode m) (comp m) (live m) (idleS m)
         (currentFeedrate m) (simulating m) (simulationTime m) t.

Definition IsDeltaMode (m : Move) : bool := Delta.deltaMode (deltaParams m).

(** *** Kinematics: machine coordinates and motor steps *)

(** [Move::MotorEndPointToMachine]: steps from millimetres for a drive.
    The conversion to [int32_t] of a value outside its range is undefined
    in C++; the model keeps the integer as it is. *)
Definition MotorEndPointToMachine (pf : Platform) (drive : nat) (coord : F) : Z :=
  froundZ (coord * (DriveStepsPerUnit pf).[drive]).

Definition zget (a : list Z) (i : nat) : Z := nth i a 0%Z.

(** The loop over the extruder drives in [MachineToEndPoint]. *)
Definition convert_extruders (stepsPerUnit : list F) (motorPos : list Z)
    (machinePos : list F) (numDrives : nat) : list F :=
  fold_left
    (fun mp drive => aset mp drive (fofZ (zget motorPos drive) / stepsPerUnit.[drive]))
    (seq AXES (numDrives - AXES)) machinePos.

(** [Move::MachineToEndPoint]: motor coordinates to machine
    coordinates. *)
Definition MachineToEndPoint (pf : Platform) (m : Move) (motorPos : list Z)
    (machinePos : list F) (numDrives : nat) : list F :=
  let stepsPerUnit := DriveStepsPerUnit pf in
  let mp i := fofZ (zget motorPos i) in
  let machinePos :=
    if IsDeltaMode m then
      Delta.InverseTransform (deltaParams m)
        (mp A_AXIS / stepsPerUnit.[A_AXIS])
        (mp B_AXIS / stepsPerUnit.[B_AXIS])
        (mp C_AXIS / stepsPerUnit.[C_AXIS]) machinePos
    else
      match coreXYMode m with
      | 1%Z =>
          let machinePos := aset machinePos X_AXIS
            (((mp X_AXIS * stepsPerUnit.[Y_AXIS]) - (mp Y_AXIS * stepsPerUnit.[X_AXIS]))
             / (ftwo * stepsPerUnit.[X_AXIS] * stepsPerUnit.[Y_AXIS])) in
          let machinePos := aset machinePos Y_AXIS
            (((mp X_AXIS * stepsPerUnit.[Y_AXIS]) + (mp Y_AXIS * stepsPerUnit.[X_AXIS]))
             / (ftwo * stepsPerUnit.[X_AXIS] * stepsPerUnit.[Y_AXIS])) in
          aset machinePos Z_AXIS (mp Z_AXIS / stepsPerUnit.[Z_AXIS])
      | 2%Z =>
          let machinePos := aset machinePos X_AXIS
            (((mp X_AXIS * stepsPerUnit.[Z_AXIS]) - (mp Z_AXIS * stepsPerUnit.[X_AXIS]))
             / (ftwo * stepsPerUnit.[X_AXIS] * stepsPerUnit.[Z_AXIS])) in
          let machinePos := aset machinePos Y_AXIS (mp Y_AXIS / stepsPerUnit.[Y_AXIS]) in
          aset machinePos Z_AXIS
            (((mp X_AXIS * stepsPerUnit.[Z_AXIS]) + (mp Z_AXIS * stepsPerUnit.[X_AXIS]))
             / (ftwo * stepsPerUnit.[X_AXIS] * stepsPerUnit.[Z_AXIS]))
      | 3%Z =>
          let machinePos := aset machinePos X_AXIS (mp X_AXIS / stepsPerUnit.[X_AXIS]) in
          let machinePos := aset machinePos Y_AXIS
            (((mp Y_AXIS * stepsPerUnit.[Z_AXIS]) - (mp Z_AXIS * stepsPerUnit.[Y_AXIS]))
             / (ftwo * stepsPerUnit.[Y_AXIS] * stepsPerUnit.[Z_AXIS])) in
          aset machinePos Z_AXIS
            (((mp Y_AXIS * stepsPerUnit.[Z_AXIS]) + (mp Z_AXIS * stepsPerUnit.[Y_AXIS]))
             / (ftwo * stepsPerUnit.[Y_AXIS] * stepsPerUnit.[Z_AXIS]))
      | _ =>
          let machinePos := aset machinePos X_AXIS (mp X_AXIS / stepsPerUnit.[X_AXIS]) in
          let machinePos := aset machinePos Y_AXIS (mp Y_AXIS / stepsPerUnit.[Y_AXIS]) in
          aset machinePos Z_AXIS (mp Z_AXIS / stepsPerUnit.[Z_AXIS])
      end in
  convert_extruders stepsPerUnit motorPos machinePos numDrives.

(** [Move::MotorTransform]: Cartesian coordinates to motor steps of the
    three axes. *)
Definition MotorTransform (pf : Platform) (m : Move) (machinePos : list F)
    (motorPos : list Z) : list Z :=
  let steps := MotorEndPointToMachine pf in
  if IsDeltaMode m then
    fold_left
      (fun mp axis => aset mp axis (steps axis (Delta.Transform (deltaParams m) machinePos axis)))
      (seq 0 AXES) motorPos
  else
    match coreXYMode m with
    | 1%Z =>
        let motorPos := aset motorPos X_AXIS (steps X_AXIS (machinePos.[X_AXIS] + machinePos.[Y_AXIS])) in
        let motorPos := aset motorPos Y_AXIS (steps Y_AXIS (machinePos.[Y_AXIS] - machinePos.[X_AXIS])) in
        aset motorPos Z_AXIS (steps Z_AXIS machinePos.[Z_AXIS])
    | 2%Z =>
        let motorPos := aset motorPos X_AXIS (steps X_AXIS (machinePos.[X_AXIS] + machinePos.[Z_AXIS])) in
        let motorPos := aset motorPos Y_AXIS (steps Y_AXIS machinePos.[Y_AXIS]) in
        aset motorPos Z_AXIS (steps Z_AXIS (machinePos.[Z_AXIS] - machinePos.[X_AXIS]))
    | 3%Z =>
        let motorPos := aset motorPos X_AXIS (steps X_AXIS machinePos.[X_AXIS]) in
        let motorPos := aset motorPos Y_AXIS (steps Y_AXIS (machinePos.[Y_AXIS] + machinePos.[Z_AXIS])) in
        aset motorPos Z_AXIS (steps Z_AXIS (machinePos.[Z_AXIS] - machinePos.[Y_AXIS]))
    | _ =>
        let motorPos := aset motorPos X_AXIS (steps X_AXIS machinePos.[X_AXIS]) in
        let motorPos := aset motorPos Y_AXIS (steps Y_AXIS machinePos.[Y_AXIS]) in
        aset motorPos Z_AXIS (steps Z_AXIS machinePos.[Z_AXIS])
    end.

(** [Move::EndPointToMachine] *)
Definition EndPointToMachine (pf : Platform) (m : Move) (coords : list F)
    (ep : list Z) (numDrives : nat) : list Z :=
  fold_left
    (fun ep drive => aset ep drive (MotorEndPointToMachine pf drive coords.[drive]))
    (seq AXES (numDrives - AXES)) (MotorTransform pf m coords ep).

(** *** Current position *)

(** [Move::GetCurrentMachinePosition]: the untransformed machine
    coordinates, taken from the last queued move. *)
Definition GetCurrentMachinePosition (mv : Move) (m : list F)
    (disableMotorMapping : bool) : list F :=
  let lastQueuedMove := dda (ring mv) (GetPrevious (ring mv) (ddaRingAddPointer (ring mv))) in
  let m :=
    fold_left
      (fun m i =>
         if Nat.ltb i AXES
         then aset m i (GetEndCoordinate lastQueuedMove i disableMotorMapping)
         else aset m i fzero)
      (seq 0 DRIVES) m in
  aset m DRIVES (currentFeedrate mv).

(** [Move::GetCurrentUserPosition]: the transformed machine
    coordinates. *)
Definition GetCurrentUserPosition (mv : Move) (m : list F) (moveType : Z)
    : list F * list Event :=
  let m := GetCurrentMachinePosition mv m
             (Z.eqb moveType 2 || (Z.eqb moveType 1 && IsDeltaMode mv)) in
  if Z.eqb moveType 0 then InverseTransform (comp mv) m else (m, []).

(** *** [Move::PausePrint] *)

(** The search [while (dda != ddaRingAddPointer)] for a move after which
    the print can stop; gives the new add pointer and the final [dda]. *)
Fixpoint pause_search (fuel : nat) (r : Ring) (i : nat) : option (nat * nat) :=
  match fuel with
  | O => None
  | S fuel' =>
      if Nat.eqb i (ddaRingAddPointer r) then Some (ddaRingAddPointer r, i)
      else if CanPause (dda r i) then Some (GetNext r i, i)
      else pause_search fuel' r (GetNext r i)
  end.

(** The loop [do ... while (dda != savedDdaRingAddPointer)] that releases
    the moves that are skipped and picks up the file position. *)
Fixpoint release_skipped (fuel : nat) (r : Ring) (i saved : nat) (fPos : FilePosition)
    : option (Ring * FilePosition) :=
  match fuel with
  | O => None
  | S fuel' =>
      let fPos := if Z.eqb fPos noFilePosition then GetFilePosition (dda r i) else fPos in
      let r := update_dda r i Release in
      let i := GetNext r i in
      if Nat.eqb i saved then Some (r, fPos) else release_skipped fuel' r i saved fPos
  end.

(** [Move::PausePrint].  The result is the file position, the array
    [positions] and the new state; [None] stands for a run that the C++
    text leaves undefined (a member call through the null [dda]) or that
    does not come to an end. *)
Definition PausePrint (mv : Move) (positions : list F)
    : option (FilePosition * list F * Move * list Event) :=
  let r := ring mv in
  let savedDdaRingAddPointer := ddaRingAddPointer r in
  let found : option (Ring * option nat) :=
    match currentDda r with
    | Some cd =>
        if CanPause (dda r cd)
        then Some (set_addPointer r (GetNext r cd), Some cd)
        else
          match pause_search (length (slots r)) r (ddaRingGetPointer r) with
          | Some (add, i) => Some (set_addPointer r add, Some i)
          | None => None
          end
    | None => Some (set_addPointer r (ddaRingGetPointer r), None)
    end in
  match found with
  | None => None
  | Some (r, d) =>
      if negb (Nat.eqb (ddaRingAddPointer r) savedDdaRingAddPointer) then
        match d with
        | None => None
        | Some i =>
            let positions :=
              fold_left
                (fun ps axis => aset ps axis (GetEndCoordinate (dda r i) axis false))
                (seq 0 AXES) positions in
            let positions := aset positions DRIVES (GetRequestedSpeed (dda r i)) in
            match release_skipped (length (slots r)) r (ddaRingAddPointer r)
                    savedDdaRingAddPointer noFilePosition with
            | Some (r, fPos) => Some (fPos, positions, set_ring mv r, [])
            | None => None
            end
        end
      else
        let mv := set_ring mv r in
        let '(positions, ev) := GetCurrentUserPosition mv positions 0 in
        Some (noFilePosition, positions, mv, ev)
  end.

(** What the statements about [PausePrint] are written with: the slots from
    [from] up to, not including, [to] in the order of the ring (all the other
    slots when the two are equal), the file position of the first of some
    descriptors that has one, and the release of some slots one after the
    other. *)
Definition ring_span (r : Ring) (from to : nat) : list nat :=
  let n := length (slots r) in
  map (fun j => ((from + j) mod n)%nat) (seq 0 ((to + n - from) mod n)).

Fixpoint first_file_position (ds : list D) : FilePosition :=
  match ds with
  | [] => noFilePosition
  | d :: ds' =>
      if Z.eqb (GetFilePosition d) noFilePosition then first_file_position ds'
      else GetFilePosition d
  end.

Definition release_all (sl : list D) (idx : list nat) : list D :=
  fold_left (fun sl i => <[i := Release (sl !!! i)]> sl) idx sl.

(** The file position once the descriptors [ds] have been looked at,
    starting from [acc]. *)
Definition pick_position (acc : FilePosition) (ds : list D) : FilePosition :=
  if Z.eqb acc noFilePosition then first_file_position ds else acc.

(** *** [Move::Spin] *)

(** The G-code front end: [ReadMove] either has no move or hands over
    [(nextMove, endStopsToCheck, moveType, filePos)]. *)
Context {G : Type}.
Variable ReadMove : G -> option (list F * Z * Z * FilePosition) * G.
(** [DDA::Step], which calls back into [Move] when the move is complete,
    and [Platform::ClassReport], which updates the time handed to it. *)
Variable Step : Move -> bool * Move.
Variable ClassReport : Platform -> F -> F.

(** The loop [for(;;)] that walks back from the add pointer over the
    provisional moves: [unPreparedTime] and [prevMoveTime] when it
    leaves. *)
Fixpoint walk_unprepared (fuel : nat) (r : Ring) (i : nat)
    (unPreparedTime prevMoveTime : F) : option (F * F) :=
  match fuel with
  | O => None
  | S fuel' =>
      let i := GetPrevious r i in
      if negb (DDAState_eqb (GetState (dda r i)) provisional)
      then Some (unPreparedTime, prevMoveTime)
      else walk_unprepared fuel' r i (unPreparedTime + prevMoveTime) (CalcTime (dda r i))
  end.

Definition set_idleCount (mv : Move) (n : Z) : Move :=
  set_idle mv (mkIdle n (iState (idleS mv)) (idleTimeout (idleS mv)) (lastMoveTime (idleS mv))).
Definition set_iState (mv : Move) (st : IdleState) : Move :=
  set_idle mv (mkIdle (idleCount (idleS mv)) st (idleTimeout (idleS mv)) (lastMoveTime (idleS mv))).
Definition set_lastMoveTime (mv : Move) (t : F) : Move :=
  set_idle mv (mkIdle (idleCount (idleS mv)) (iState (idleS mv)) (idleTimeout (idleS mv)) t).

(** The block of [Spin] headed "See if we can add another move to the
    ring". *)
Definition Spin_addMove (mv : Move) (g : G) : option (Move * G * list Event) :=
  let r := ring mv in
  if negb (addNoMoreMoves r)
     && DDAState_eqb (GetState (dda r (ddaRingAddPointer r))) empty
  then
    match walk_unprepared (length (slots r)) r (ddaRingAddPointer r) fzero fzero with
    | None => None
    | Some (unPreparedTime, prevMoveTime) =>
        if (unPreparedTime <? flit 1 2) || (unPreparedTime + prevMoveTime <? flit 2 1)
        then
          match ReadMove g with
          | (Some (nextMove, endStopsToCheck, moveType, filePos), g) =>
              let mv := set_currentFeedrate mv nextMove.[DRIVES] in
              let doMotorMapping :=
                Z.eqb moveType 0 || (Z.eqb moveType 1 && negb (IsDeltaMode mv)) in
              let '(nextMove, ev) :=
                if doMotorMapping then Transform (comp mv) nextMove else (nextMove, []) in
              let '(ok, sl) :=
                DDA_Init (slots r) (ddaRingAddPointer r) nextMove endStopsToCheck
                         doMotorMapping filePos in
              let r := set_slots r sl in
              if ok
              then Some (set_idleCount
                           (set_ring mv (set_addPointer r (GetNext r (ddaRingAddPointer r)))) 0,
                         g, EvReadMove :: ev)
              else Some (set_ring mv r, g, EvReadMove :: ev)
          | (None, g) => Some (mv, g, [EvReadMove])
          end
        else Some (mv, g, [])
    end
  else Some (mv, g, []).

(** [Move::StartNextMove] *)
Definition StartNextMove (mv : Move) (startTime : Z) : bool * Move :=
  let r := ring mv in
  if DDAState_eqb (GetState (dda r (ddaRingGetPointer r))) frozen then
    let r := set_currentDda r (Some (ddaRingGetPointer r)) in
    let '(b, d) := Start (dda r (ddaRingGetPointer r)) startTime in
    (b, set_ring mv (set_slots r (<[ddaRingGetPointer r := d]> (slots r))))
  else (false, mv).

(** [Move::Interrupt] *)
Fixpoint Interrupt (fuel : nat) (mv : Move) : option Move :=
  match fuel with
  | O => None
  | S fuel' =>
      match currentDda (ring mv) with
      | None => Some mv
      | Some _ =>
          let '(again, mv) := Step mv in
          if again then Interrupt fuel' mv else Some mv
      end
  end.

(** What the statement about the acceptance of moves is written with: the
    slot [j] steps before the add pointer, the durations of the [k] moves
    before the add pointer (the newest first), and their sum, added up in
    that order. *)
Definition earlier (r : Ring) (j : nat) : nat :=
  Nat.iter j (GetPrevious r) (ddaRingAddPointer r).

Definition queued_times (r : Ring) (k : nat) : list F :=
  map (fun j => CalcTime (dda r (earlier r (S j)))) (seq 0 k).

Definition total_time (ts : list F) : F := fold_left fadd ts fzero.

(** [unPreparedTime] and [prevMoveTime] once the loop has walked over moves
    of the durations [ts], starting from [u] and [p]. *)
Fixpoint walked (u p : F) (ts : list F) : F * F :=
  match ts with
  | [] => (u, p)
  | t :: ts' => walked (u + p) t ts'
  end.

(** The two loops of [Spin] that prepare moves ahead of the one being
    executed. *)
Fixpoint sum_prepared (fuel : nat) (r : Ring) (cdda : nat) (preparedTime : Z)
    : option (nat * Z) :=
  match fuel with
  | O => None
  | S fuel' =>
      match GetState (dda r cdda) with
      | completed | executing | frozen =>
          sum_prepared fuel' r (GetNext r cdda) (preparedTime + GetTimeLeft (dda r cdda))
      | _ => Some (cdda, preparedTime)
      end
  end.

Fixpoint prepare_ahead (fuel : nat) (r : Ring) (cdda : nat) (preparedTime : Z)
    : option Ring :=
  match fuel with
  | O => None
  | S fuel' =>
      if DDAState_eqb (GetState (dda r cdda)) provisional
         && Z.ltb preparedTime (stepClockRate / 8)
      then
        let r := set_slots r (Prepare (slots r) cdda) in
        prepare_ahead fuel' r (GetNext r cdda) (preparedTime + GetTimeLeft (dda r cdda))
      else Some r
  end.

(** The rest of [Spin]: simulation, or start and preparation of moves. *)
Definition Spin_run (fuel : nat) (pf : Platform) (mv : Move) : option (Move * list Event) :=
  let r := ring mv in
  if simulating mv then
    if Z.ltb 10 (idleCount (idleS mv)) && negb (DDARingEmpty r) then
      let d := dda r (ddaRingGetPointer r) in
      let mv := set_simulationTime mv (simulationTime mv + CalcTime d) in
      let '(valid, ep, co) :=
        FetchEndPosition d (liveEndPoints (live mv)) (liveCoordinates (live mv)) in
      let mv := set_live mv (mkLive co ep valid) in
      let r := update_dda r (ddaRingGetPointer r) Release in
      Some (set_ring mv (set_getPointer r (GetNext r (ddaRingGetPointer r))), [])
    else Some (mv, [])
  else
    match currentDda r with
    | None =>
        if Z.ltb 10 (idleCount (idleS mv)) then
          let r :=
            if DDAState_eqb (GetState (dda r (ddaRingGetPointer r))) provisional
            then set_slots r (Prepare (slots r) (ddaRingGetPointer r)) else r in
          let mv := set_ring mv r in
          if DDAState_eqb (GetState (dda r (ddaRingGetPointer r))) frozen then
            let '(started, mv) := StartNextMove mv (InterruptClocks pf) in
            match (if started then Interrupt fuel mv else Some mv) with
            | Some mv => Some (set_iState mv busy, [])
            | None => None
            end
          else
            match iState (idleS mv) with
            | busy =>
                if negb (GCodesIsPaused pf) && (idleTimeout (idleS mv) >? fzero)
                then Some (set_iState (set_lastMoveTime mv (Time pf)) timing, [])
                else Some (mv, [])
            | timing =>
                if (Time pf - lastMoveTime (idleS mv)) >=? idleTimeout (idleS mv)
                then Some (set_iState mv idle, map EvSetDriveIdle (seq 0 DRIVES))
                else Some (mv, [])
            | idle => Some (mv, [])
            end
        else Some (mv, [])
    | Some cdda =>
        match sum_prepared fuel r cdda 0 with
        | None => None
        | Some (cdda, preparedTime) =>
            match prepare_ahead fuel r cdda preparedTime with
            | Some r => Some (set_ring mv r, [])
            | None => None
            end
        end
    end.

(** [Move::Spin].  [fuel] bounds the loops over the ring and the step
    interrupt. *)
Definition Spin (fuel : nat) (pf : Platform) (mv : Move) (g : G)
    : option (Move * G * list Event) :=
  if negb (active mv) then Some (mv, g, [])
  else
    let mv := if Z.ltb (idleCount (idleS mv)) 1000
              then set_idleCount mv (idleCount (idleS mv) + 1) else mv in
    match Spin_addMove mv g with
    | None => None
    | Some (mv, g, ev1) =>
        match Spin_run fuel pf mv with
        | None => None
        | Some (mv, ev2) =>
            Some (set_longWait mv (ClassReport pf (longWait mv)), g,
                  ev1 ++ ev2 ++ [EvClassReport])
        end
    end.

(** *** Delta calibration *)

(** [FixedMatrix::GaussJordan] of the matrix library (not part of the
    sources at hand): the solution of the first [numRows] equations. *)
Variable GaussJordan : list (list F) -> nat -> list F.

Definition set_liveEndPoints (mv : Move) (ep : list Z) (valid : bool) : Move :=
  set_live mv (mkLive (liveCoordinates (live mv)) ep valid).

(** [Move::AdjustDeltaParameters]: 4- or 7-factor adjustment, then the
    end points of the last queued move follow the homed carriage
    heights. *)
Definition AdjustDeltaParameters (pf : Platform) (mv : Move) (v : list F)
    (allSeven : bool) : Move :=
  let homedCarriageHeights :=
    map (Delta.GetHomedCarriageHeight (deltaParams mv)) (seq 0 AXES) in
  let mv :=
    set_deltaParams mv
      (if allSeven then Delta.AdjustSeven (deltaParams mv) v
       else Delta.AdjustFour (deltaParams mv) v) in
  let lastQueuedMove := GetPrevious (ring mv) (ddaRingAddPointer (ring mv)) in
  let driveStepsPerUnit := DriveStepsPerUnit pf in
  let mv :=
    fold_left
      (fun mv drive =>
         let heightAdjust :=
           Delta.GetHomedCarriageHeight (deltaParams mv) drive
           - homedCarriageHeights.[drive] in
         let ep :=
           Z.add (zget (DriveCoordinates (dda (ring mv) lastQueuedMove)) drive)
                 (ftruncZ (heightAdjust * driveStepsPerUnit.[drive])) in
         let mv :=
           set_ring mv
             (update_dda (ring mv) lastQueuedMove (fun d => SetDriveCoordinate d ep drive)) in
         set_liveEndPoints mv (aset (liveEndPoints (live mv)) drive ep)
                           (liveCoordinatesValid (live mv)))
      (seq 0 AXES) mv in
  set_liveEndPoints mv (liveEndPoints (live mv)) false.

Definition mat (m : list (list F)) (i j : nat) : F := (nth i m []).[j].

(** Sum over the probe points [k = 0 .. numPoints-1] of [f k], started at
    [f 0] as in the source. *)
Definition sum_points (numPoints : nat) (f : nat -> F) : F :=
  fold_left (fun temp k => temp + f k) (seq 1 (numPoints - 1)) (f 0%nat).

(** [Move::DoDeltaCalibration].  The reply is the parameter set that
    [PrintParameters] writes, or nothing when the reply is not touched. *)
Definition DoDeltaCalibration (pf : Platform) (mv : Move) (numPoints : nat)
    : Move * list Event * option (Delta.DeltaParameters F) :=
  if Nat.ltb numPoints 4 || Nat.ltb MaxDeltaCalibrationPoints numPoints then
    (mv,
     [EvMessage "Delta calibration error: %d probe points provided but must be between 4 and %d"],
     None)
  else
    let numFactors := if Nat.leb 7 numPoints then 7%nat else 4%nat in
    let c := comp mv in
    let derivativeMatrix :=
      map (fun i =>
             let machinePos :=
               [(xBedProbePoints c).[i]; (yBedProbePoints c).[i]; fzero] in
             let ha := Delta.Transform (deltaParams mv) machinePos A_AXIS in
             let hb := Delta.Transform (deltaParams mv) machinePos B_AXIS in
             let hc := Delta.Transform (deltaParams mv) machinePos C_AXIS in
             map (fun j => Delta.ComputeDerivative (deltaParams mv) j ha hb hc)
                 (seq 0 numFactors))
          (seq 0 numPoints) in
    let normalMatrix :=
      map (fun i =>
             map (fun j =>
                    sum_points numPoints
                      (fun k => mat derivativeMatrix k i * mat derivativeMatrix k j))
                 (seq 0 numFactors)
             ++ [sum_points numPoints
                   (fun k => mat derivativeMatrix k i * - (zBedProbePoints c).[k])])
          (seq 0 numFactors) in
    let solution := GaussJordan normalMatrix numFactors in
    let mv := AdjustDeltaParameters pf mv solution (Nat.eqb numFactors 7) in
    (mv, [], Some (deltaParams mv)).

End WithFloat.
End MoveM.

(** ** Conditional meta-commands of [StringParser] *)

Module Blocks.

Inductive BlockType := plain | ifTrue | ifFalseNoneTrue | ifFalseHadTrue | loop.

Definition BlockType_eqb (a b : BlockType) : bool :=
  match a, b with
  | plain, plain | ifTrue, ifTrue | ifFalseNoneTrue, ifFalseNoneTrue
  | ifFalseHadTrue, ifFalseHadTrue | loop, loop => true
  | _, _ => false
  end.

(** Modelled from the spec: class [BlockState] of the machine state
    (declared in a header that is not at hand): a block has a type, and a
    loop block remembers where it starts and how often it has run. *)
Record BlockState := mkBlock {
  blockType : BlockType;
  iterations : Z;
  fpos : Z;
  blockLine : Z
}.

#[global] Instance BlockState_inhabited : Inhabited BlockState :=
  populate (mkBlock plain 0 0 0).

Definition GetType (b : BlockState) : BlockType := blockType b.
Definition SetPlainBlock (b : BlockState) : BlockState :=
  mkBlock plain (iterations b) (fpos b) (blockLine b).
Definition SetIfTrueBlock (b : BlockState) : BlockState :=
  mkBlock ifTrue (iterations b) (fpos b) (blockLine b).
Definition SetIfFalseNoneTrueBlock (b : BlockState) : BlockState :=
  mkBlock ifFalseNoneTrue (iterations b) (fpos b) (blockLine b).
Definition SetIfFalseHadTrueBlock (b : BlockState) : BlockState :=
  mkBlock ifFalseHadTrue (iterations b) (fpos b) (blockLine b).
Definition SetLoopBlock (filePos lineNum : Z) (b : BlockState) : BlockState :=
  mkBlock loop 0 filePos lineNum.
Definition IncrementIterations (b : BlockState) : BlockState :=
  mkBlock (blockType b) (iterations b + 1) (fpos b) (blockLine b).

(** Modelled from the spec: class [GCodeMachineState], the stack of blocks
    of a job file with the current nesting depth [indentLevel]; the
    current block is the one at that depth, [EndBlock] leaves it and
    [CreateBlock] opens a plain one unless the stack is full. *)
Record GCodeMachineState := mkMachine {
  indentLevel : nat;
  blockStates : list BlockState;
  lineNumber : Z
}.

Definition CurrentBlockState (ms : GCodeMachineState) : BlockState :=
  blockStates ms !!! indentLevel ms.

Definition set_current (ms : GCodeMachineState) (f : BlockState -> BlockState)
    : GCodeMachineState :=
  mkMachine (indentLevel ms)
            (<[indentLevel ms := f (CurrentBlockState ms)]> (blockStates ms))
            (lineNumber ms).

Definition EndBlock (ms : GCodeMachineState) : GCodeMachineState :=
  match indentLevel ms with
  | O => ms
  | S l => mkMachine l (blockStates ms) (lineNumber ms)
  end.

Definition CreateBlock (ms : GCodeMachineState) : bool * GCodeMachineState :=
  if Nat.eqb (S (indentLevel ms)) (length (blockStates ms)) then (false, ms)
  else
    (true,
     set_current (mkMachine (S (indentLevel ms)) (blockStates ms) (lineNumber ms))
                 SetPlainBlock).

(** The part of [StringParser] that the meta-commands use. *)
Record StringParser := mkParser {
  machineState : GCodeMachineState;
  commandIndent : nat;
  indentToSkipTo : option nat        (* [None] is [NoIndentSkip] *)
}.

Inductive Outcome := Done | Throw (msg : string).

Definition on_machine (sp : StringParser) (f : GCodeMachineState -> GCodeMachineState)
    : StringParser :=
  mkParser (f (machineState sp)) (commandIndent sp) (indentToSkipTo sp).

Definition skip_to_current (sp : StringParser) : StringParser :=
  mkParser (machineState sp) (commandIndent sp) (Some (indentLevel (machineState sp))).

(** [StringParser::ProcessIfCommand]; [cond] is what [EvaluateCondition]
    returned. *)
Definition ProcessIfCommand (sp : StringParser) (cond : bool) : StringParser :=
  if cond then on_machine sp (fun ms => set_current ms SetIfTrueBlock)
  else skip_to_current (on_machine sp (fun ms => set_current ms SetIfFalseNoneTrueBlock)).

(** [StringParser::ProcessElseCommand] *)
Definition ProcessElseCommand (sp : StringParser) (previousBlockType : BlockType)
    : Outcome * StringParser :=
  let t := GetType (CurrentBlockState (machineState sp)) in
  if BlockType_eqb previousBlockType ifFalseNoneTrue then
    (Done, on_machine sp (fun ms => set_current ms SetPlainBlock))
  else if BlockType_eqb t ifTrue || BlockType_eqb t ifFalseHadTrue then
    (Done, on_machine (skip_to_current sp) (fun ms => set_current ms SetPlainBlock))
  else (Throw "'else' did not follow 'if'", sp).

(** [StringParser::ProcessElifCommand]; the condition is evaluated only
    in the first case. *)
Definition ProcessElifCommand (sp : StringParser) (previousBlockType : BlockType)
    (cond : bool) : Outcome * StringParser :=
  let t := GetType (CurrentBlockState (machineState sp)) in
  if BlockType_eqb previousBlockType ifFalseNoneTrue then
    if cond then (Done, on_machine sp (fun ms => set_current ms SetIfTrueBlock))
    else (Done, on_machine (skip_to_current sp)
                           (fun ms => set_current ms SetIfFalseNoneTrueBlock))
  else if BlockType_eqb t ifTrue || BlockType_eqb t ifFalseHadTrue then
    (Done, on_machine (skip_to_current sp) (fun ms => set_current ms SetIfFalseHadTrueBlock))
  else (Throw "'elif' did not follow 'if", sp).

(** [StringParser::ProcessWhileCommand]; [cond] maps the state in which
    the condition is evaluated (the block is already a loop) to its
    value. *)
Definition ProcessWhileCommand (sp : StringParser) (filePos : Z)
    (cond : StringParser -> bool) : StringParser :=
  let sp :=
    if BlockType_eqb (GetType (CurrentBlockState (machineState sp))) loop
    then on_machine sp (fun ms => set_current ms IncrementIterations)
    else on_machine sp (fun ms => set_current ms (SetLoopBlock filePos (lineNumber ms))) in
  if negb (cond sp)
  then skip_to_current (on_machine sp (fun ms => set_current ms SetPlainBlock))
  else sp.



(** [StringParser::EndBlocks]: true when a loop block is reached and the
    file is rewound to its start. *)
Fixpoint EndBlocks_loop (fuel : nat) (commandIndent : nat) (ms : GCodeMachineState)
    : option (bool * GCodeMachineState) :=
  match fuel with
  | O => None
  | S fuel' =>
      if Nat.ltb commandIndent (indentLevel ms) then
        let ms := EndBlock ms in
        if BlockType_eqb (GetType (CurrentBlockState ms)) loop
        then Some (true, mkMachine (indentLevel ms) (blockStates ms)
                                   (blockLine (CurrentBlockState ms)))
        else EndBlocks_loop fuel' commandIndent ms
      else Some (false, ms)
  end.

End Blocks.

(** ** Class [ExpressionParser] *)

Module Expr.

Local Open Scope string_scope.

(** *** Characters and strings of C *)

Definition NUL : ascii := Ascii.zero.
Definition DQUOTE : ascii := ascii_of_nat 34.
Definition TAB : ascii := ascii_of_nat 9.

Definition in_range (lo hi c : ascii) : bool :=
  (nat_of_ascii lo <=? nat_of_ascii c)%nat && (nat_of_ascii c <=? nat_of_ascii hi)%nat.

Definition isdigit (c : ascii) : bool := in_range "0" "9" c.
Definition isupper (c : ascii) : bool := in_range "A" "Z" c.
Definition islower (c : ascii) : bool := in_range "a" "z" c.
Definition isalpha (c : ascii) : bool := isupper c || islower c.
Definition tolower (c : ascii) : ascii :=
  if isupper c then ascii_of_nat (nat_of_ascii c + 32) else c.

(** [strchr(s, c)] as the index of the first [c] in [s]. *)
Fixpoint strchr (s : string) (c : ascii) : option nat :=
  match s with
  | EmptyString => None
  | String d s' => if Ascii.eqb c d then Some 0%nat else option_map S (strchr s' c)
  end.

Fixpoint drop_string (n : nat) (s : string) : string :=
  match n, s with
  | O, _ => s
  | S n', String _ s' => drop_string n' s'
  | S _, EmptyString => EmptyString
  end.

Definition StringStartsWith (s p : string) : bool := String.prefix p s.

(** [String<N>::cat(c)]: true when the character does not fit. *)
Definition string_cat (limit : nat) (s : string) (c : ascii) : bool * string :=
  if (limit <=? String.length s)%nat then (true, s)
  else (false, s ++ String c EmptyString).

Definition wrap32 (z : Z) : Z := ((z + 2 ^ 31) mod 2 ^ 32 - 2 ^ 31)%Z.
Definition wrapu32 (z : Z) : Z := (z mod 2 ^ 32)%Z.

(** *** Values *)

Inductive TypeCode :=
| TNone | TBool | TChar | TUint32 | TInt32 | TUint64 | TFloat
| TObjectModel | TCString | THeapString | TIPAddress | TDateTime
| TDriverId | TMacAddress | TPort | TUniqueId | TOther.

Definition TypeCode_eqb (a b : TypeCode) : bool :=
  match a, b with
  | TNone, TNone | TBool, TBool | TChar, TChar | TUint32, TUint32
  | TInt32, TInt32 | TUint64, TUint64 | TFloat, TFloat
  | TObjectModel, TObjectModel | TCString, TCString
  | THeapString, THeapString | TIPAddress, TIPAddress
  | TDateTime, TDateTime | TDriverId, TDriverId | TMacAddress, TMacAddress
  | TPort, TPort | TUniqueId, TUniqueId | TOther, TOther => true
  | _, _ => false
  end.

(** The kinds of value that the parser does not look into. *)
Inductive OpaqueType :=
| OChar | OObjectModel | OIPAddress | ODriverId | OMacAddress | OPort
| OUniqueId | OOther.

Definition opaque_code (o : OpaqueType) : TypeCode :=
  match o with
  | OChar => TChar | OObjectModel => TObjectModel | OIPAddress => TIPAddress
  | ODriverId => TDriverId | OMacAddress => TMacAddress | OPort => TPort
  | OUniqueId => TUniqueId | OOther => TOther
  end.

Record GCodeException := mkExc {
  excLine : Z;
  excColumn : Z;
  excMessage : string
}.

Inductive Res (A : Type) :=
| Ok (a : A)
| Exc (e : GCodeException)
| Unfinished.
Arguments Ok {A} a.
Arguments Exc {A} e.
Arguments Unfinished {A}.

Section WithFloat.
Context {F : Type} `{FloatOps F}.

(** Modelled from the spec: class [ExpressionValue] (declared in a header
    that is not at hand), a tagged union; the float carries the number of
    digits to display ([param]). *)
Inductive ExpressionValue :=
| EV_None
| EV_Bool (bVal : bool)
| EV_Int32 (iVal : Z)
| EV_Uint32 (uVal : Z)
| EV_Uint64 (v56 : Z)
| EV_Float (fVal : F) (param : Z)
| EV_CString (sVal : string)
| EV_HeapString (shVal : string)
| EV_DateTime (v56 : Z)
| EV_Opaque (t : OpaqueType) (raw : Z).

Definition GetType (v : ExpressionValue) : TypeCode :=
  match v with
  | EV_None => TNone
  | EV_Bool _ => TBool
  | EV_Int32 _ => TInt32
  | EV_Uint32 _ => TUint32
  | EV_Uint64 _ => TUint64
  | EV_Float _ _ => TFloat
  | EV_CString _ => TCString
  | EV_HeapString _ => THeapString
  | EV_DateTime _ => TDateTime
  | EV_Opaque t _ => opaque_code t
  end.

Definition IsStringType (v : ExpressionValue) : bool :=
  match v with EV_CString _ | EV_HeapString _ => true | _ => false end.

Definition string_of (v : ExpressionValue) : string :=
  match v with EV_CString s | EV_HeapString s => s | _ => EmptyString end.

(** *** The surroundings of the parser *)

Record ObjectExplorationContext := mkContext {
  wantLength : bool;
  wantExists : bool;
  indices : list Z
}.

(** The G-code buffer and the object model, as far as the parser asks
    them.  A variable is its value and its scope. *)
Record Env := mkEnv {
  GetLineNumber : Z;
  GetIterations : Z;
  (** 0 for [GCodeResult::ok], 1 and 2 for the two warnings *)
  GetLastResult : Z;
  LocalVariables : string -> option (ExpressionValue * Z);
  GlobalVariables : string -> option (ExpressionValue * Z);
  (** the value, or the message of the exception it throws, and whether an
      obsolete field was queried *)
  GetObjectValueUsingTableNumber :
    ObjectExplorationContext -> string -> (ExpressionValue + string) * bool;
  random : Z -> Z
}.

(** Functions and constants of the C library and of the firmware's
    headers. *)
Class Library := {
  sinf : F -> F; cosf : F -> F; tanf : F -> F;
  asinf : F -> F; acosf : F -> F; atanf : F -> F;
  floorf : F -> F;
  atan2f : F -> F -> F; fmodf : F -> F -> F;
  Pi : F; RadiansToDegrees : F; DegreesToRadians : F;
  AppendAsString : ExpressionValue -> string;
  ParseDateTime_lib : string -> option Z;
  (** [NumericConverter::Accumulate] on the rest of the text: the number
      read and how many characters it takes. *)
  NumericConverter : string -> ExpressionValue * nat;
  MaxFloatDigitsDisplayedAfterPoint : Z;
  MaxVariableNameLength : nat;
  MaxStringExpressionLength : nat
}.
Context `{Library}.

Variable env : Env.

(** *** State of the parser

    [lookups] is a ghost field: the names handed to the variable tables
    and to the object model so far. *)
Record Parser := mkP {
  text : string;
  currentp : nat;
  column : Z;
  obsoleteField : string;
  lookups : list string
}.

Definition M (A : Type) : Type := Parser -> Res A * Parser.

Definition ret {A} (a : A) : M A := fun p => (Ok a, p).
Definition bind {A B} (m : M A) (k : A -> M B) : M B :=
  fun p => match m p with
           | (Ok a, p') => k a p'
           | (Exc e, p') => (Exc e, p')
           | (Unfinished, p') => (Unfinished, p')
           end.
Definition unfinished {A} : M A := fun p => (Unfinished, p).

Notation "x <- m ;; k" := (bind m (fun x => k))
  (at level 100, m at next level, right associativity).
Notation "m ;;; k" := (bind m (fun _ => k))
  (at level 100, right associativity).

Definition CurrentCharacter (p : Parser) : ascii :=
  match String.get (currentp p) (text p) with
  | Some c => c
  | None => NUL
  end.

Definition current : M ascii := fun p => (Ok (CurrentCharacter p), p).

Definition AdvancePointer : M unit :=
  fun p => (Ok tt, mkP (text p) (S (currentp p)) (column p) (obsoleteField p) (lookups p)).

Definition GetColumn (p : Parser) : Z :=
  if (column p <? 0)%Z then column p else (Z.of_nat (currentp p) + column p)%Z.

Definition ThrowParseException {A} (str : string) : M A :=
  fun p => (Exc (mkExc (GetLineNumber env) (GetColumn p) str), p).

Definition log_lookup (name : string) : M unit :=
  fun p => (Ok tt, mkP (text p) (currentp p) (column p) (obsoleteField p)
                       (lookups p ++ [name])).

Definition note_obsolete (name : string) : M unit :=
  fun p => (Ok tt,
            if String.eqb (obsoleteField p) EmptyString
            then mkP (text p) (currentp p) (column p) name (lookups p) else p).

(** [ExpressionParser::SkipWhiteSpace] *)
Fixpoint count_white (s : string) : nat :=
  match s with
  | String c s' =>
      if Ascii.eqb c " " || Ascii.eqb c TAB then S (count_white s') else O
  | EmptyString => O
  end.

Definition SkipWhiteSpace : M unit :=
  fun p => (Ok tt,
            mkP (text p) (currentp p + count_white (drop_string (currentp p) (text p)))
                (column p) (obsoleteField p) (lookups p)).

Definition expect (c : ascii) (msg : string) : M unit :=
  d <- current ;;
  if Ascii.eqb d c then AdvancePointer else ThrowParseException msg.

(** *** Conversions and type balancing *)

(** Reads of a member of the union; a read of a member other than the one
    stored is given the value 0 here. *)
Definition bVal_of (v : ExpressionValue) : bool :=
  match v with EV_Bool b => b | _ => false end.
Definition iVal_of (v : ExpressionValue) : Z :=
  match v with EV_Int32 i => i | _ => 0%Z end.
Definition uVal_of (v : ExpressionValue) : Z :=
  match v with EV_Uint32 u => u | _ => 0%Z end.
Definition fVal_of (v : ExpressionValue) : F :=
  match v with EV_Float f _ => f | _ => fzero end.
Definition param_of (v : ExpressionValue) : Z :=
  match v with EV_Float _ p => p | _ => 0%Z end.
Definition Get56BitValue (v : ExpressionValue) : Z :=
  match v with EV_DateTime x | EV_Uint64 x => x | _ => 0%Z end.
Definition wrap56 (z : Z) : Z := (z mod 2 ^ 56)%Z.

(** [ExpressionParser::ConvertToFloat] *)
Definition ConvertToFloat (val : ExpressionValue) (evaluate : bool) : M ExpressionValue :=
  match val with
  | EV_Uint32 u => ret (EV_Float (fofZ u) 1)
  | EV_Uint64 v => ret (EV_Float (fofZ v) 1)
  | EV_Int32 i => ret (EV_Float (fofZ i) 1)
  | EV_Float _ _ => ret val
  | _ => if evaluate then ThrowParseException "expected numeric operand"
         else ret (EV_Float fzero 1)
  end.

(** [ExpressionParser::ConvertToBool] *)
Definition ConvertToBool (val : ExpressionValue) (evaluate : bool) : M ExpressionValue :=
  match val with
  | EV_Bool _ => ret val
  | _ => if evaluate then ThrowParseException "expected Boolean operand"
         else ret (EV_Bool false)
  end.

(** [ExpressionParser::ConvertToString] *)
Definition ConvertToString (val : ExpressionValue) (evaluate : bool) : ExpressionValue :=
  if IsStringType val then val
  else if evaluate then EV_HeapString (AppendAsString val)
  else EV_CString EmptyString.

Definition is_uint (v : ExpressionValue) : bool :=
  match v with EV_Uint64 _ | EV_Uint32 _ => true | _ => false end.
Definition is_float (v : ExpressionValue) : bool :=
  match v with EV_Float _ _ => true | _ => false end.
Definition is_int32 (v : ExpressionValue) : bool :=
  match v with EV_Int32 _ => true | _ => false end.

(** [ExpressionParser::BalanceNumericTypes] *)
Definition BalanceNumericTypes (val1 val2 : ExpressionValue) (evaluate : bool)
    : M (ExpressionValue * ExpressionValue) :=
  val1 <- (if is_uint val1 then ConvertToFloat val1 evaluate else ret val1) ;;
  val2 <- (if is_uint val2 then ConvertToFloat val2 evaluate else ret val2) ;;
  if is_float val1 then
    val2 <- ConvertToFloat val2 evaluate ;; ret (val1, val2)
  else if is_float val2 then
    val1 <- ConvertToFloat val1 evaluate ;; ret (val1, val2)
  else if negb (is_int32 val1) || negb (is_int32 val2) then
    if evaluate then ThrowParseException "expected numeric operands"
    else ret (EV_Int32 0, EV_Int32 0)
  else ret (val1, val2).

(** [ExpressionParser::TypeHasNoLiterals] *)
Definition TypeHasNoLiterals (t : TypeCode) : bool :=
  match t with
  | TChar | TDateTime | TIPAddress | TMacAddress | TDriverId => true
  | _ => false
  end.

Definition is_port_or_id (v : ExpressionValue) : bool :=
  match GetType v with TPort | TUniqueId => true | _ => false end.

(** [ExpressionParser::BalanceTypes] *)
Definition BalanceTypes (val1 val2 : ExpressionValue) (evaluate : bool)
    : M (ExpressionValue * ExpressionValue) :=
  val1 <- (if is_uint val1 then ConvertToFloat val1 evaluate else ret val1) ;;
  val2 <- (if is_uint val2 then ConvertToFloat val2 evaluate else ret val2) ;;
  let val1 := if is_port_or_id val1 then ConvertToString val1 evaluate else val1 in
  let val2 := if is_port_or_id val2 then ConvertToString val2 evaluate else val2 in
  if TypeCode_eqb (GetType val1) (GetType val2)
     || (IsStringType val1 && IsStringType val2)
  then ret (val1, val2)
  else if is_float val1 then
    val2 <- ConvertToFloat val2 evaluate ;; ret (val1, val2)
  else if is_float val2 then
    val1 <- ConvertToFloat val1 evaluate ;; ret (val1, val2)
  else if IsStringType val2 && TypeHasNoLiterals (GetType val1) then
    ret (ConvertToString val1 evaluate, val2)
  else if IsStringType val1 && TypeHasNoLiterals (GetType val2) then
    ret (val1, ConvertToString val2 evaluate)
  else if evaluate then ThrowParseException "cannot convert operands to same type"
  else ret (EV_Int32 0, EV_Int32 0).

(** [ExpressionParser::StringConcat]; the buffer keeps at most
    [MaxStringExpressionLength] characters. *)
Definition StringConcat (val val2 : ExpressionValue) : ExpressionValue :=
  EV_HeapString
    (String.substring 0 MaxStringExpressionLength
       (AppendAsString val ++ AppendAsString val2)).

(** [ExpressionParser::GetVariableValue] *)
Definition GetVariableValue (vars : string -> option (ExpressionValue * Z))
    (name : string) (parameter wantExists : bool) : M ExpressionValue :=
  log_lookup name ;;;
  let var := vars name in
  if wantExists then ret (EV_Bool (match var with Some _ => true | None => false end))
  else
    match var with
    | Some (value, scope) =>
        if negb parameter || (scope <? 0)%Z then ret value
        else ThrowParseException "unknown parameter '%s'"
    | None =>
        ThrowParseException
          (if parameter then "unknown parameter '%s'" else "unknown variable '%s'")
    end.

(** [ExpressionParser::ParseNumber] *)
Definition ParseNumber : M ExpressionValue :=
  fun p =>
    let '(v, n) := NumericConverter (drop_string (currentp p) (text p)) in
    (Ok v, mkP (text p) (currentp p + n) (column p) (obsoleteField p) (lookups p)).

Definition remaining (p : Parser) : nat :=
  S (String.length (text p) - currentp p).

(** [ExpressionParser::ParseQuotedString]: the loop, with the string read
    so far. *)
Fixpoint quoted_loop (n : nat) (str : string) : M ExpressionValue :=
  match n with
  | O => unfinished
  | S n' =>
      c <- current ;;
      AdvancePointer ;;;
      if (nat_of_ascii c <? 32)%nat then ThrowParseException "control character in string"
      else
        d <- current ;;
        let add (c : ascii) : M ExpressionValue :=
          let '(full, str) := string_cat MaxStringExpressionLength str c in
          if full then ThrowParseException "string too long" else quoted_loop n' str in
        if Ascii.eqb c DQUOTE then
          if negb (Ascii.eqb d c) then ret (EV_HeapString str)
          else AdvancePointer ;;; add c
        else if Ascii.eqb c "'" then
          if isalpha d then AdvancePointer ;;; add (tolower d)
          else if Ascii.eqb d c then AdvancePointer ;;; add c
          else add c
        else add c
  end.

Definition ParseQuotedString : M ExpressionValue :=
  AdvancePointer ;;;
  fun p => quoted_loop (remaining p) EmptyString p.

(** *** Named constants and functions *)

Inductive NamedConstant :=
| NC_false | NC_iterations | NC_line | NC_null | NC_pi | NC_result | NC_true.

Definition NamedConstant_of (id : string) : option NamedConstant :=
  if String.eqb id "false" then Some NC_false
  else if String.eqb id "iterations" then Some NC_iterations
  else if String.eqb id "line" then Some NC_line
  else if String.eqb id "null" then Some NC_null
  else if String.eqb id "pi" then Some NC_pi
  else if String.eqb id "result" then Some NC_result
  else if String.eqb id "true" then Some NC_true
  else None.

Inductive Function :=
| Fn_abs | Fn_acos | Fn_asin | Fn_atan | Fn_atan2 | Fn_cos | Fn_datetime
| Fn_degrees | Fn_exists | Fn_floor | Fn_isnan | Fn_max | Fn_min | Fn_mod
| Fn_radians | Fn_random | Fn_sin | Fn_sqrt | Fn_tan.

Definition Function_table : list (string * Function) :=
  [("abs", Fn_abs); ("acos", Fn_acos); ("asin", Fn_asin); ("atan", Fn_atan);
   ("atan2", Fn_atan2); ("cos", Fn_cos); ("datetime", Fn_datetime);
   ("degrees", Fn_degrees); ("exists", Fn_exists); ("floor", Fn_floor);
   ("isnan", Fn_isnan); ("max", Fn_max); ("min", Fn_min); ("mod", Fn_mod);
   ("radians", Fn_radians); ("random", Fn_random); ("sin", Fn_sin);
   ("sqrt", Fn_sqrt); ("tan", Fn_tan)].

Definition Function_of (id : string) : option Function :=
  option_map snd (List.find (fun e => String.eqb id (fst e)) Function_table).

Definition fmax (a b : F) : F := if (a >? b)%fl then a else b.
Definition fmin (a b : F) : F := if (a <? b)%fl then a else b.
Definition fisnan (a : F) : bool := negb (a =? a)%fl.
Definition INT32_MAX : Z := (2 ^ 31 - 1)%Z.
Definition INT32_MIN : Z := (- 2 ^ 31)%Z.

(** The named constants of [ParseIdentifierExpression]. *)
Definition constant_value (c : NamedConstant) : M ExpressionValue :=
  match c with
  | NC_true => ret (EV_Bool true)
  | NC_false => ret (EV_Bool false)
  | NC_null => ret EV_None
  | NC_pi => ret (EV_Float Pi MaxFloatDigitsDisplayedAfterPoint)
  | NC_iterations =>
      let v := GetIterations env in
      if (v <? 0)%Z then ThrowParseException "'iterations' used when not inside a loop"
      else ret (EV_Int32 v)
  | NC_result =>
      ret (EV_Int32 (match GetLastResult env with
                     | 0%Z => 0%Z
                     | 1%Z | 2%Z => 1%Z
                     | _ => 2%Z
                     end))
  | NC_line => ret (EV_Int32 (wrap32 (GetLineNumber env)))
  end.

Definition float_fn (f : F -> F) (rslt : ExpressionValue) (evaluate : bool)
    : M ExpressionValue :=
  rslt <- ConvertToFloat rslt evaluate ;;
  ret (EV_Float (f (fVal_of rslt)) MaxFloatDigitsDisplayedAfterPoint).

(** The next operand of a function of several arguments: a comma, then
    an expression. *)
Definition next_operand (PI : bool -> Z -> M ExpressionValue) (evaluate : bool)
    : M ExpressionValue :=
  SkipWhiteSpace ;;;
  expect "," "expected ','" ;;;
  SkipWhiteSpace ;;;
  PI evaluate 0%Z.

(** The loops of [max] and [min]. *)
Fixpoint minmax_loop (PI : bool -> Z -> M ExpressionValue) (evaluate : bool)
    (isMax : bool) (n : nat) (rslt : ExpressionValue) : M ExpressionValue :=
  match n with
  | O => unfinished
  | S n' =>
      SkipWhiteSpace ;;;
      c <- current ;;
      if negb (Ascii.eqb c ",") then ret rslt
      else
        AdvancePointer ;;;
        SkipWhiteSpace ;;;
        nextOperand <- PI evaluate 0%Z ;;
        bal <- BalanceNumericTypes rslt nextOperand evaluate ;;
        let '(rslt, nextOperand) := bal in
        let rslt :=
          match rslt with
          | EV_Float f prm =>
              EV_Float ((if isMax then fmax else fmin) f (fVal_of nextOperand))
                       (Z.max prm (param_of nextOperand))
          | _ =>
              EV_Int32 ((if isMax then Z.max else Z.min) (iVal_of rslt) (iVal_of nextOperand))
          end in
        minmax_loop PI evaluate isMax n' rslt
  end.

(** The [switch (func.RawValue())] of [ParseIdentifierExpression], after
    the first operand [rslt] has been parsed. *)
Definition apply_function (PI : bool -> Z -> M ExpressionValue) (func : Function)
    (rslt : ExpressionValue) (evaluate : bool) : M ExpressionValue :=
  match func with
  | Fn_abs =>
      match rslt with
      | EV_Int32 i => ret (EV_Int32 (wrap32 (Z.abs i)))
      | EV_Float f prm => ret (EV_Float (fabs f) prm)
      | _ => if evaluate then ThrowParseException "expected numeric operand"
             else ret (EV_Int32 0)
      end
  | Fn_sin => float_fn sinf rslt evaluate
  | Fn_cos => float_fn cosf rslt evaluate
  | Fn_tan => float_fn tanf rslt evaluate
  | Fn_asin => float_fn asinf rslt evaluate
  | Fn_acos => float_fn acosf rslt evaluate
  | Fn_atan => float_fn atanf rslt evaluate
  | Fn_atan2 =>
      rslt <- ConvertToFloat rslt evaluate ;;
      nextOperand <- next_operand PI evaluate ;;
      nextOperand <- ConvertToFloat nextOperand evaluate ;;
      ret (EV_Float (atan2f (fVal_of rslt) (fVal_of nextOperand))
                    MaxFloatDigitsDisplayedAfterPoint)
  | Fn_degrees => float_fn (fun x => (x * RadiansToDegrees)%fl) rslt evaluate
  | Fn_radians => float_fn (fun x => (x * DegreesToRadians)%fl) rslt evaluate
  | Fn_sqrt => float_fn fsqrt rslt evaluate
  | Fn_isnan =>
      rslt <- ConvertToFloat rslt evaluate ;;
      ret (EV_Bool (fisnan (fVal_of rslt)))
  | Fn_floor =>
      rslt <- ConvertToFloat rslt evaluate ;;
      let f := floorf (fVal_of rslt) in
      if (f <=? fofZ INT32_MAX)%fl && (f >=? fofZ INT32_MIN)%fl
      then ret (EV_Int32 (ftruncZ f))
      else ret (EV_Float f (param_of rslt))
  | Fn_mod =>
      nextOperand <- next_operand PI evaluate ;;
      bal <- BalanceNumericTypes rslt nextOperand evaluate ;;
      let '(rslt, nextOperand) := bal in
      match rslt with
      | EV_Float f prm => ret (EV_Float (fmodf f (fVal_of nextOperand)) prm)
      | _ =>
          if (iVal_of nextOperand =? 0)%Z then ret (EV_Int32 0)
          else ret (EV_Int32 (Z.rem (iVal_of rslt) (iVal_of nextOperand)))
      end
  | Fn_max => fun p => minmax_loop PI evaluate true (remaining p) rslt p
  | Fn_min => fun p => minmax_loop PI evaluate false (remaining p) rslt p
  | Fn_random =>
      match rslt with
      | EV_Uint32 u => ret (EV_Int32 (wrap32 (random env u)))
      | EV_Int32 i =>
          if (0 <? i)%Z then ret (EV_Int32 (wrap32 (random env i)))
          else ThrowParseException "expected positive integer"
      | _ => ThrowParseException "expected positive integer"
      end
  | Fn_datetime =>
      match rslt with
      | EV_Int32 i => ret (EV_DateTime (wrap56 (wrapu32 i)))
      | EV_Uint32 u => ret (EV_DateTime (wrap56 u))
      | EV_Uint64 v | EV_DateTime v => ret (EV_DateTime (wrap56 v))
      | EV_CString str | EV_HeapString str =>
          match ParseDateTime_lib str with
          | Some t => ret (EV_DateTime (wrap56 t))
          | None => ThrowParseException "string is not a valid date and time"
          end
      | _ => ThrowParseException "can't convert value to DateTime"
      end
  | Fn_exists => ThrowParseException "internal error"   (* THROW_INTERNAL_ERROR *)
  end.

(** *** [ParseIdentifierExpression]

    The two recursive functions are written over the functions [PI] and
    [PIE] that they call; the recursion is tied below, on the number of
    nested calls the stack of the task still has room for. *)

Section Bodies.
Variable PI : bool -> Z -> M ExpressionValue.
Variable PIE : bool -> bool -> bool -> M ExpressionValue.

Definition is_id_char (c : ascii) : bool :=
  isalpha c || isdigit c || Ascii.eqb c "_" || Ascii.eqb c "." || Ascii.eqb c "[".

(** The loop that reads the identifier and its index expressions. *)
Fixpoint identifier_loop (evaluate : bool) (n : nat) (id : string) (idx : list Z)
    : M (string * list Z) :=
  match n with
  | O => unfinished
  | S n' =>
      c <- current ;;
      if negb (is_id_char c) then ret (id, idx)
      else
        AdvancePointer ;;;
        ci <-
          (if Ascii.eqb c "[" then
             index <- PI evaluate 0%Z ;;
             d <- current ;;
             if negb (Ascii.eqb d "]") then ThrowParseException "expected ']'"
             else
               index <-
                 (if negb (is_int32 index) then
                    if evaluate then ThrowParseException "expected integer expression"
                    else ret (EV_Int32 0)
                  else ret index) ;;
               AdvancePointer ;;;
               ret ("^"%char, (idx ++ [iVal_of index])%list)
           else ret (c, idx)) ;;
        let '(c, idx) := ci in
        let '(full, id) := string_cat MaxVariableNameLength id c in
        if full then ThrowParseException "variable name too long"
        else identifier_loop evaluate n' id idx
  end.

Definition InvalidExistsMessage : string := "invalid 'exists' expression".

Definition ParseIdentifierExpression_body
    (evaluate applyLengthOperator applyExists : bool) : M ExpressionValue :=
  c <- current ;;
  if negb (isalpha c) then ThrowParseException "expected an identifier"
  else
    r <- (fun p => identifier_loop evaluate (remaining p) EmptyString [] p) ;;
    let '(id, idx) := r in
    let context := mkContext applyLengthOperator applyExists idx in
    match NamedConstant_of id with
    | Some whichConstant =>
        if wantExists context then ThrowParseException InvalidExistsMessage
        else constant_value whichConstant
    | None =>
        SkipWhiteSpace ;;;
        c <- current ;;
        if Ascii.eqb c "(" then
          if wantExists context then ThrowParseException InvalidExistsMessage
          else
            match Function_of id with
            | None => ThrowParseException "unknown function"
            | Some func =>
                AdvancePointer ;;;
                rslt <-
                  (match func with
                   | Fn_exists => PIE evaluate false true
                   | _ =>
                       rslt <- PI evaluate 0%Z ;;
                       apply_function PI func rslt evaluate
                   end) ;;
                SkipWhiteSpace ;;;
                expect ")" "expected ')'" ;;;
                ret rslt
            end
        else if evaluate then
          if StringStartsWith id "param." then
            GetVariableValue (LocalVariables env) (drop_string 6 id) true applyExists
          else if StringStartsWith id "global." then
            GetVariableValue (GlobalVariables env) (drop_string 7 id) false applyExists
          else if StringStartsWith id "var." then
            GetVariableValue (LocalVariables env) (drop_string 4 id) false applyExists
          else if applyExists && (String.eqb id "param" || String.eqb id "var") then
            ret (EV_Bool true)
          else
            log_lookup id ;;;
            match GetObjectValueUsingTableNumber env context id with
            | (inl v, obsolete) =>
                (if obsolete then note_obsolete id else ret tt) ;;;
                ret v
            | (inr msg, _) => ThrowParseException msg
            end
        else ret EV_None
    end.

(** *** [ParseInternal] *)

Definition operators : string := "?^&|!=<>+-*/".
Definition priorities : list Z := [1; 2; 3; 3; 4; 4; 4; 4; 5; 5; 6; 6]%Z.
Definition UnaryPriority : Z := 10.

(** [ExpressionParser::ParseExpectKet] *)
Definition ParseExpectKet (evaluate : bool) (closingBracket : ascii) : M ExpressionValue :=
  rslt <- PI evaluate 0%Z ;;
  expect closingBracket "expected '%c'" ;;;
  ret rslt.

(** The first [switch] of [ParseInternal]: a unary operator, a bracket or
    an operand. *)
Definition parse_operand (evaluate : bool) : M ExpressionValue :=
  SkipWhiteSpace ;;;
  c <- current ;;
  if Ascii.eqb c DQUOTE then ParseQuotedString
  else if Ascii.eqb c "-" then
    AdvancePointer ;;;
    val <- PI evaluate UnaryPriority ;;
    match val with
    | EV_Int32 i => ret (EV_Int32 (wrap32 (- i)))
    | EV_Float f prm => ret (EV_Float (- f)%fl prm)
    | _ => ThrowParseException "expected numeric value after '-'"
    end
  else if Ascii.eqb c "+" then
    AdvancePointer ;;;
    val <- PI evaluate UnaryPriority ;;
    match val with
    | EV_Uint32 u => ret (EV_Int32 (wrap32 u))
    | EV_Int32 _ | EV_Float _ _ => ret val
    | EV_DateTime v => ret (EV_Int32 (wrap32 (wrapu32 v)))
    | _ => ThrowParseException "expected numeric or enumeration value after '+'"
    end
  else if Ascii.eqb c "#" then
    AdvancePointer ;;;
    SkipWhiteSpace ;;;
    d <- current ;;
    if isalpha d then PIE evaluate true false
    else
      val <- PI evaluate UnaryPriority ;;
      match val with
      | EV_CString str | EV_HeapString str =>
          ret (EV_Int32 (wrap32 (Z.of_nat (String.length str))))
      | _ => ThrowParseException "expected object model value or string after '#"
      end
  else if Ascii.eqb c "{" then AdvancePointer ;;; ParseExpectKet evaluate "}"
  else if Ascii.eqb c "(" then AdvancePointer ;;; ParseExpectKet evaluate ")"
  else if Ascii.eqb c "!" then
    AdvancePointer ;;;
    val <- PI evaluate UnaryPriority ;;
    val <- ConvertToBool val evaluate ;;
    ret (EV_Bool (negb (bVal_of val)))
  else if isdigit c then ParseNumber
  else if isalpha c then PIE evaluate false false
  else ThrowParseException "expected an expression".

Definition compare_result (b invert : bool) : ExpressionValue :=
  EV_Bool (if invert then negb b else b).

(** The operators that always evaluate both operands: the inner
    [switch(opChar)] of [ParseInternal]. *)
Definition apply_binop (opChar : ascii) (invert evaluate : bool)
    (val val2 : ExpressionValue) : M ExpressionValue :=
  if Ascii.eqb opChar "+" then
    match val with
    | EV_DateTime v =>
        match val2 with
        | EV_Uint32 u => ret (EV_DateTime (wrap56 (v + u)))
        | EV_Int32 i => ret (EV_DateTime (wrap56 (v + i)))
        | _ => if evaluate then ThrowParseException "invalid operand types" else ret val
        end
    | _ =>
        bal <- BalanceNumericTypes val val2 evaluate ;;
        let '(val, val2) := bal in
        match val with
        | EV_Float f prm =>
            ret (EV_Float (f + fVal_of val2)%fl (Z.max prm (param_of val2)))
        | _ => ret (EV_Int32 (wrap32 (iVal_of val + iVal_of val2)))
        end
    end
  else if Ascii.eqb opChar "-" then
    match val with
    | EV_DateTime v =>
        match val2 with
        | EV_DateTime v2 => ret (EV_Int32 (wrap32 (v - v2)))
        | EV_Uint32 u => ret (EV_DateTime (wrap56 (v - u)))
        | EV_Int32 i => ret (EV_DateTime (wrap56 (v - i)))
        | _ => if evaluate then ThrowParseException "invalid operand types" else ret val
        end
    | _ =>
        bal <- BalanceNumericTypes val val2 evaluate ;;
        let '(val, val2) := bal in
        match val with
        | EV_Float f prm =>
            ret (EV_Float (f - fVal_of val2)%fl (Z.max prm (param_of val2)))
        | _ => ret (EV_Int32 (wrap32 (iVal_of val - iVal_of val2)))
        end
    end
  else if Ascii.eqb opChar "*" then
    bal <- BalanceNumericTypes val val2 evaluate ;;
    let '(val, val2) := bal in
    match val with
    | EV_Float f prm =>
        ret (EV_Float (f * fVal_of val2)%fl (Z.max prm (param_of val2)))
    | _ => ret (EV_Int32 (wrap32 (iVal_of val * iVal_of val2)))
    end
  else if Ascii.eqb opChar "/" then
    val <- ConvertToFloat val evaluate ;;
    val2 <- ConvertToFloat val2 evaluate ;;
    ret (EV_Float (fVal_of val / fVal_of val2)%fl MaxFloatDigitsDisplayedAfterPoint)
  else if Ascii.eqb opChar ">" then
    bal <- BalanceTypes val val2 evaluate ;;
    let '(val, val2) := bal in
    match val with
    | EV_Int32 i => ret (compare_result (iVal_of val2 <? i)%Z invert)
    | EV_Float f _ => ret (compare_result (f >? fVal_of val2)%fl invert)
    | EV_DateTime v => ret (compare_result (Get56BitValue val2 <? v)%Z invert)
    | EV_Bool b => ret (compare_result (b && negb (bVal_of val2)) invert)
    | _ =>
        if evaluate
        then ThrowParseException "expected numeric or Boolean operands to comparison operator"
        else ret (compare_result false invert)
    end
  else if Ascii.eqb opChar "<" then
    bal <- BalanceTypes val val2 evaluate ;;
    let '(val, val2) := bal in
    match val with
    | EV_Int32 i => ret (compare_result (i <? iVal_of val2)%Z invert)
    | EV_Float f _ => ret (compare_result (f <? fVal_of val2)%fl invert)
    | EV_DateTime v => ret (compare_result (v <? Get56BitValue val2)%Z invert)
    | EV_Bool b => ret (compare_result (negb b && bVal_of val2) invert)
    | _ =>
        if evaluate
        then ThrowParseException "expected numeric or Boolean operands to comparison operator"
        else ret (compare_result false invert)
    end
  else if Ascii.eqb opChar "=" then
    match val, val2 with
    | EV_None, _ =>
        ret (compare_result (match val2 with EV_None => true | _ => false end) invert)
    | _, EV_None => ret (compare_result false invert)
    | _, _ =>
        bal <- BalanceTypes val val2 evaluate ;;
        let '(val, val2) := bal in
        match val with
        | EV_Opaque OObjectModel _ => ThrowParseException "cannot compare objects"
        | EV_Int32 i => ret (compare_result (i =? iVal_of val2)%Z invert)
        | EV_Uint32 u => ret (compare_result (u =? uVal_of val2)%Z invert)
        | EV_Float f _ => ret (compare_result (f =? fVal_of val2)%fl invert)
        | EV_DateTime v => ret (compare_result (v =? Get56BitValue val2)%Z invert)
        | EV_Bool b => ret (compare_result (Bool.eqb b (bVal_of val2)) invert)
        | EV_CString str | EV_HeapString str =>
            ret (compare_result (String.eqb str (string_of val2)) invert)
        | _ =>
            if evaluate
            then ThrowParseException "unexpected operand type to equality operator"
            else ret (compare_result false invert)
        end
    end
  else if Ascii.eqb opChar "^" then ret (StringConcat val val2)
  else ret val.

(** The characters after the first one of an operator: [!=], [<=],
    [>=], then [==], [&&], [||].  Gives [invert] and the operator. *)
Definition operator_tail (opChar : ascii) : M (bool * ascii) :=
  c <- current ;;
  r <-
    (if Ascii.eqb opChar "!" then
       if negb (Ascii.eqb c "=") then ThrowParseException "expected '='"
       else AdvancePointer ;;; ret (true, "="%char)
     else if (Ascii.eqb opChar ">" || Ascii.eqb opChar "<") && Ascii.eqb c "=" then
       AdvancePointer ;;;
       ret (true, if Ascii.eqb opChar ">" then "<"%char else ">"%char)
     else ret (false, opChar)) ;;
  let '(invert, opChar) := r in
  c <- current ;;
  (if (Ascii.eqb opChar "=" || Ascii.eqb opChar "&" || Ascii.eqb opChar "|")
      && Ascii.eqb c opChar
   then AdvancePointer else ret tt) ;;;
  ret (invert, opChar).

(** The loop [do ... while (true)] of [ParseInternal] over the binary
    operators that follow the operand [val]. *)
Fixpoint binop_loop (evaluate : bool) (priority : Z) (n : nat)
    (val : ExpressionValue) : M ExpressionValue :=
  match n with
  | O => unfinished
  | S n' =>
      SkipWhiteSpace ;;;
      opChar <- current ;;
      if Ascii.eqb opChar NUL then ret val
      else
        match strchr operators opChar with
        | None => ret val
        | Some index =>
            let opPrio := nth index priorities 0%Z in
            if (opPrio <=? priority)%Z then ret val
            else
              AdvancePointer ;;;
              io <- operator_tail opChar ;;
              let '(invert, opChar) := io in
              if Ascii.eqb opChar "&" then
                val <- ConvertToBool val evaluate ;;
                val2 <- PI (evaluate && bVal_of val) opPrio ;;
                val <-
                  (if bVal_of val then
                     val2 <- ConvertToBool val2 evaluate ;;
                     ret (EV_Bool (bVal_of val2))
                   else ret val) ;;
                binop_loop evaluate priority n' val
              else if Ascii.eqb opChar "|" then
                val <- ConvertToBool val evaluate ;;
                val2 <- PI (evaluate && negb (bVal_of val)) opPrio ;;
                val <-
                  (if negb (bVal_of val) then
                     val2 <- ConvertToBool val2 evaluate ;;
                     ret (EV_Bool (bVal_of val2))
                   else ret val) ;;
                binop_loop evaluate priority n' val
              else if Ascii.eqb opChar "?" then
                val <- ConvertToBool val evaluate ;;
                let b := bVal_of val in
                second <- PI (evaluate && b) opPrio ;;
                expect ":" "expected ':'" ;;;
                third <- PI (evaluate && negb b) (opPrio - 1)%Z ;;
                ret (if b then second else third)
              else
                val2 <- PI evaluate opPrio ;;
                val <- apply_binop opChar invert evaluate val val2 ;;
                binop_loop evaluate priority n' val
        end
  end.

Definition ParseInternal_body (evaluate : bool) (priority : Z) : M ExpressionValue :=
  val <- parse_operand evaluate ;;
  fun p => binop_loop evaluate priority (remaining p) val p.

End Bodies.

(** [CheckStack] compares the stack pointer with the limit of the task's
    stack before a recursive call; here [depth] counts the nested calls
    that still fit, and a call that finds none left throws as [CheckStack]
    does.  The software reset of [CheckStack] (no room even to throw) is
    not modelled. *)
Fixpoint ParseInternal (depth : nat) (evaluate : bool) (priority : Z) {struct depth}
    : M ExpressionValue :=
  match depth with
  | O => ThrowParseException "Expression nesting too deep"
  | S d =>
      ParseInternal_body (ParseInternal d) (ParseIdentifierExpression d) evaluate priority
  end
with ParseIdentifierExpression (depth : nat) (evaluate applyLengthOperator applyExists : bool)
    {struct depth} : M ExpressionValue :=
  match depth with
  | O => ThrowParseException "Expression nesting too deep"
  | S d =>
      ParseIdentifierExpression_body (ParseInternal d) (ParseIdentifierExpression d)
        evaluate applyLengthOperator applyExists
  end.

(** [ExpressionParser::Parse]; the second component is the warning about
    an obsolete field of the object model, if there is one. *)
Definition Parse (depth : nat) (evaluate : bool) (p : Parser)
    : Res ExpressionValue * Parser * option string :=
  let p := mkP (text p) (currentp p) (column p) EmptyString (lookups p) in
  match ParseInternal depth evaluate 0%Z p with
  | (Ok v, p') =>
      (Ok v, p',
       if String.eqb (obsoleteField p') EmptyString then None
       else Some (obsoleteField p'))
  | (r, p') => (r, p', None)
  end.

(** [ExpressionParser::ParseBoolean] *)
Definition ParseBoolean (depth : nat) (p : Parser) : Res bool * Parser :=
  match Parse depth true p with
  | (Ok v, p', _) =>
      match ConvertToBool v true p' with
      | (Ok v, p'') => (Ok (bVal_of v), p'')
      | (Exc e, p'') => (Exc e, p'')
      | (Unfinished, p'') => (Unfinished, p'')
      end
  | (Exc e, p', _) => (Exc e, p')
  | (Unfinished, p', _) => (Unfinished, p')
  end.

(** [ExpressionParser::ParseArray].  [processElement] parses the element
    of the index it is given; the elements come back in the order in which
    they are stored, and the new [length] is their number.  The separator
    [EXPRESSION_LIST_SEPARATOR] is a constant of a header that is not at
    hand. *)
Section Arrays.
Context {A : Type}.
Variable EXPRESSION_LIST_SEPARATOR : ascii.
Variable processElement : nat -> M A.

(** The loop [while (numElements < length)], with [k] elements of room
    left. *)
Fixpoint array_loop (length k numElements : nat) (arr : list A) : M (list A) :=
  match k with
  | O => ret arr
  | S k' =>
      x <- processElement numElements ;;
      let arr := (arr ++ [x])%list in
      let numElements := S numElements in
      c <- current ;;
      if negb (Ascii.eqb c EXPRESSION_LIST_SEPARATOR) then ret arr
      else if Nat.eqb numElements length then ThrowParseException "Array too long"
      else AdvancePointer ;;; array_loop length k' numElements arr
  end.

Definition ParseArray (length : nat) : M (list A) :=
  AdvancePointer ;;;
  arr <- array_loop length length 0 [] ;;
  c <- current ;;
  if negb (Ascii.eqb c "}") then ThrowParseException "Expected '}'"
  else AdvancePointer ;;; ret arr.

End Arrays.

(** *** What the statements about unevaluated operands are written with *)

(** The messages of the exceptions that the code throws under
    [if (evaluate)] only, and of the look-up of variables, which is made
    under [if (evaluate)] only. *)
Definition evaluation_errors : list string :=
  ["expected integer expression"; "expected numeric operand"; "expected Boolean operand";
   "expected numeric operands"; "cannot convert operands to same type";
   "invalid operand types";
   "expected numeric or Boolean operands to comparison operator";
   "unexpected operand type to equality operator";
   "unknown parameter '%s'"; "unknown variable '%s'"].

Definition is_evaluation_error (msg : string) : bool :=
  existsb (String.eqb msg) evaluation_errors.

(** A run from [p] that asks neither the variable tables nor the object
    model for anything, and throws none of the exceptions above. *)
Definition quiet_at {A : Type} (m : M A) (p : Parser) : Prop :=
  lookups (snd (m p)) = lookups p /\
  obsoleteField (snd (m p)) = obsoleteField p /\
  forall e, fst (m p) = Exc e -> is_evaluation_error (excMessage e) = false.

Definition quiet {A : Type} (m : M A) : Prop := forall p, quiet_at m p.

(** The next character after white space is the operator [op]; and the
    state once [op] has been read: the white space before it, its first
    character and, for [&&], [||] and [==], its second. *)
Definition at_operator (op : ascii) (p : Parser) : Prop :=
  CurrentCharacter (snd (SkipWhiteSpace p)) = op.

Definition after_operator (op : ascii) (p : Parser) : Parser :=
  snd ((SkipWhiteSpace ;;; AdvancePointer ;;; operator_tail op) p).

(** *** What the statements about the text and the pointer are written with *)

(** The numeric types of [BalanceNumericTypes]. *)
Definition is_numeric (v : ExpressionValue) : bool :=
  match v with
  | EV_Int32 _ | EV_Uint32 _ | EV_Uint64 _ | EV_Float _ _ => true
  | _ => false
  end.

(** The characters that [SkipWhiteSpace] passes over. *)
Definition is_white (c : ascii) : bool := Ascii.eqb c " " || Ascii.eqb c TAB.

(** A character that [ParseQuotedString] appends as it is: a 7-bit
    character that is neither a control character nor one of the two
    quotes. *)
Definition plain_char (c : ascii) : bool :=
  negb (nat_of_ascii c <? 32)%nat && (nat_of_ascii c <? 128)%nat
  && negb (Ascii.eqb c DQUOTE) && negb (Ascii.eqb c "'").

Fixpoint all_plain (s : string) : bool :=
  match s with
  | EmptyString => true
  | String c s' => plain_char c && all_plain s'
  end.

(** The parser [p] with its pointer at the offset [n] of the text. *)
Definition move_to (p : Parser) (n : nat) : Parser :=
  mkP (text p) n (column p) (obsoleteField p) (lookups p).

(** A run from [p] that leaves the text and the column offset of the
    buffer alone, does not move the pointer backwards, and throws only
    exceptions that carry the line number of the buffer and the column at
    which the run stopped. *)
Definition steady_at {A : Type} (m : M A) (p : Parser) : Prop :=
  text (snd (m p)) = text p /\
  column (snd (m p)) = column p /\
  (currentp p <= currentp (snd (m p)))%nat /\
  forall e, fst (m p) = Exc e ->
    excLine e = GetLineNumber env /\ excColumn e = GetColumn (snd (m p)).

Definition steady {A : Type} (m : M A) : Prop := forall p, steady_at m p.

End WithFloat.
End Expr.

(** ** A small machine

    Concrete values at the carrier binary32, on which the definitions above
    can be run: a descriptor with the fields the specification lists, the
    constants of a Duet-like configuration, a delta printer of radius 105
    and diagonal 215, and a ring of six descriptors. *)

Module Sample.
Import MoveM.

Definition Fl : Type := B32.t.

Record SimpleDDA := mkDDA {
  sd_state : DDAState;
  sd_time : Fl;
  sd_canPause : bool;
  sd_filePos : FilePosition;
  sd_endCoords : list Fl;
  sd_speed : Fl;
  sd_endPoint : list Z
}.

Definition idle_dda : SimpleDDA :=
  mkDDA empty fzero true 0 [fzero; fzero; fzero] fzero [0; 0; 0]%Z.

#[global] Instance SimpleDDA_inhabited : Inhabited SimpleDDA := populate idle_dda.

Definition with_state (d : SimpleDDA) (st : DDAState) : SimpleDDA :=
  mkDDA st (sd_time d) (sd_canPause d) (sd_filePos d) (sd_endCoords d) (sd_speed d)
        (sd_endPoint d).

#[global] Instance SimpleDDA_ops : DDA (F := Fl) SimpleDDA := {
  GetState := sd_state;
  CalcTime := sd_time;
  CanPause := sd_canPause;
  GetFilePosition := sd_filePos;
  GetEndCoordinate := fun d axis _ => (sd_endCoords d).[axis];
  GetRequestedSpeed := sd_speed;
  Release := fun d => with_state d empty;
  GetTimeLeft := fun _ => 0%Z;
  DriveCoordinates := sd_endPoint;
  SetDriveCoordinate := fun d ep drive =>
    mkDDA (sd_state d) (sd_time d) (sd_canPause d) (sd_filePos d) (sd_endCoords d)
          (sd_speed d) (aset (sd_endPoint d) drive ep);
  Start := fun d _ => (true, with_state d executing);
  FetchEndPosition := fun d ep co => (true, sd_endPoint d, sd_endCoords d);
  DDA_Init := fun sl i nextMove _ _ filePos =>
    (true, <[i := mkDDA provisional (fofZ 1) true filePos nextMove fzero [0; 0; 0]%Z]> sl);
  Prepare := fun sl i => <[i := with_state (sl !!! i) frozen]> sl
}.

#[global] Instance config : Config (F := Fl) := {
  MaxProbePoints := 16;
  xSet := 1; ySet := 2; zSet := 4;
  TRIANGLE_0 := flit (-1) 1000;
  DRIVES := 8;
  MaxDeltaCalibrationPoints := 16;
  noFilePosition := 4294967295;
  stepClockRate := 656250
}.

Definition zeros3 : list Fl := [fzero; fzero; fzero].

(** Parameters as [Init] leaves them, then the diagonal, the homed height
    and the endstop adjustments set. *)
Definition blank_delta (diag hh : Fl) (endstops : list Fl) : Delta.DeltaParameters Fl :=
  Delta.mkDelta false diag fzero (fofZ 50) hh true endstops zeros3 zeros3
                fzero fzero fzero fzero fzero fzero fzero fzero fzero fzero fzero fzero
                fzero.

(** Radius 105, diagonal 215, homed height 240. *)
Definition kossel (endstops : list Fl) : Delta.DeltaParameters Fl :=
  Delta.SetRadius (blank_delta (fofZ 215) (fofZ 240) endstops) (fofZ 105).





Definition no_compensation : Compensation (F := Fl) :=
  mkComp fzero fzero fzero [] [] [] [] [] [] [] fzero fzero fzero fzero fzero true.

(** A table with room for 16 probe points, none of them set. *)
Definition blank_bed : Compensation (F := Fl) :=
  mkComp fzero fzero fzero (replicate 16 fzero) (replicate 16 fzero) (replicate 16 fzero)
         (replicate 16 0%Z) (replicate 5 fzero) (replicate 5 fzero) (replicate 5 fzero)
         fzero fzero fzero fzero fzero true.

Definition unit_platform : Platform (F := Fl) :=
  mkPlatform (replicate 8 fone) (replicate 3 (fofZ 200)) zeros3 fzero 0%Z false.

(** A queued move that takes [t] seconds, read at file position [fp]. *)
Definition queued (st : DDAState) (t : Fl) (pausable : bool) (fp : Z) : SimpleDDA :=
  mkDDA st t pausable fp [fofZ fp; fofZ fp; fofZ 1] (fofZ 50) [0; 0; 0]%Z.

(** A ring of six descriptors: slot 0 is being executed, slots 1 and 2 wait
    with the file positions [fp1] and [fp2], the others are free. *)
Definition busy_ring (pausable : bool) (fp1 fp2 : Z) : Ring (D := SimpleDDA) :=
  mkRing ([queued executing fone pausable 100; queued frozen fone true fp1;
           queued provisional fone true fp2] ++ replicate 3 idle_dda)
         3 0 (Some 0%nat) false.

Definition machine (r : Ring (D := SimpleDDA)) (dp : Delta.DeltaParameters Fl) (xy : Z)
    : Move (F := Fl) (D := SimpleDDA) :=
  mkMove true r dp xy no_compensation
         (mkLive (replicate 8 fzero) [0; 0; 0]%Z true)
         (mkIdle 0%Z busy (fofZ 30) fzero)
         (fofZ 50) false fzero fzero.

(** *** Tolerances on a grid

    For the statements made with a tolerance, in the arithmetic of the
    controller: the machine of radius 105, diagonal 215 and homed height 240
    with no endstop adjustment; the points whose [x] and [y] are multiples
    of 5 mm and whose [z] is a multiple of 20 mm; and endstop adjustments in
    fifths of a millimetre. *)













(** For the expression parser: a converter of unsigned decimal integers,
    stand-ins for the C library (the texts parsed below call none of its
    functions), a local variable [x] of value 5, and an object model without
    any value. *)
Fixpoint digits (s : string) (acc : Z) (n : nat) : Z * nat :=
  match s with
  | String c s' =>
      if Expr.isdigit c
      then digits s' (10 * acc + Z.of_nat (nat_of_ascii c - 48))%Z (S n)
      else (acc, n)
  | EmptyString => (acc, n)
  end.

Definition library : Expr.Library (F := Fl) :=
  Expr.Build_Library
    (fun x => x) (fun x => x) (fun x => x) (fun x => x) (fun x => x) (fun x => x)
    (fun x => x) (fun x _ => x) (fun x _ => x) fzero fzero fzero
    (fun _ => "?"%string) (fun _ => None)
    (fun s => let '(v, n) := digits s 0%Z 0%nat in (Expr.EV_Int32 v, n))
    7%Z 60%nat 100%nat.

Definition environment : Expr.Env (F := Fl) :=
  Expr.mkEnv 1%Z (-1)%Z 0%Z
    (fun name => if String.eqb name "x" then Some (Expr.EV_Int32 5, 0%Z) else None)
    (fun _ => None)
    (fun _ _ => (inr "unknown value"%string, false))
    (fun _ => 0%Z).

(** The same surroundings with an object model that has the value null
    for every name. *)
Definition null_model : Expr.Env (F := Fl) :=
  Expr.mkEnv 1%Z (-1)%Z 0%Z
    (fun name => if String.eqb name "x" then Some (Expr.EV_Int32 5, 0%Z) else None)
    (fun _ => None)
    (fun _ _ => (inl Expr.EV_None, false))
    (fun _ => 0%Z).

Definition parser_at (s : string) : Expr.Parser := Expr.mkP s 0 0%Z EmptyString [].

(** [Parse] of the text [s] with room for 50 nested calls: the result, its
    message if it is an exception, and the names looked up. *)
Definition parse (evaluate : bool) (s : string)
    : Expr.Res (Expr.ExpressionValue (F := Fl)) * list string :=
  let '(r, p, _) := Expr.Parse (H0 := library) environment 50 evaluate (parser_at s) in
  (r, Expr.lookups p).

Definition thrown {A : Type} (r : Expr.Res A) : option string :=
  match r with
  | Expr.Exc e => Some (Expr.excMessage e)
  | _ => None
  end.

(** An array of numbers, [{1,2}], as [ParseArray] is called on it: at the
    first element. *)
Definition number_element (i : nat) : Expr.M (Expr.ExpressionValue (F := Fl)) :=
  Expr.ParseNumber (H0 := library).

End Sample.


(** * Properties *)

(** ** Arrays *)

Section ArrayLemmas.
Context {F : Type} `{FloatOps F}.

Lemma aget_aset_eq (a : list F) (i : nat) (v : F) :
  (i < length a)%nat -> (aset a i v).[i] = v.
Proof.
  intros Hi. unfold aget, aset.
  rewrite nth_lookup, list_lookup_insert_eq by exact Hi. reflexivity.
Qed.

Lemma aget_aset_ne (a : list F) (i j : nat) (v : F) :
  i <> j -> (aset a i v).[j] = a.[j].
Proof.
  intros Hij. unfold aget, aset.
  rewrite !nth_lookup, list_lookup_insert_ne by exact Hij. reflexivity.
Qed.

Lemma length_aset {A} (a : list A) (i : nat) (v : A) :
  length (aset a i v) = length a.
Proof. unfold aset. apply length_insert. Qed.

End ArrayLemmas.

(** ** Bed compensation touches the height only *)

Section BedFrame.
Import MoveM.
Context {F : Type} `{FloatOps F} {cfg : @Config F}.

Lemma BedTransform_cases (c : Compensation) (p : list F) :
  fst (BedTransform c p) = p \/
  exists z, fst (BedTransform c p) = aset p Z_AXIS z.
Proof.
  unfold BedTransform.
  destruct (negb (identityBedTransform c)); [|left; reflexivity].
  destruct (NumberOfProbePoints c) as [|[|[|[|[|[|n]]]]]]; cbn [fst];
    try (left; reflexivity); try (right; eexists; reflexivity).
  destruct (TriangleZ c p.[X_AXIS] p.[Y_AXIS]) as [tz ev]. right. eexists. reflexivity.
Qed.

Lemma InverseBedTransform_cases (c : Compensation) (p : list F) :
  fst (InverseBedTransform c p) = p \/
  exists z, fst (InverseBedTransform c p) = aset p Z_AXIS z.
Proof.
  unfold InverseBedTransform.
  destruct (negb (identityBedTransform c)); [|left; reflexivity].
  destruct (NumberOfProbePoints c) as [|[|[|[|[|[|n]]]]]]; cbn [fst];
    try (left; reflexivity); try (right; eexists; reflexivity).
  destruct (TriangleZ c p.[X_AXIS] p.[Y_AXIS]) as [tz ev]. right. eexists. reflexivity.
Qed.

(** C10: [Move::BedTransform] and [Move::InverseBedTransform] change at most
    the Z component of the point: whatever the probe points are (the
    unsupported counts with their error message included), every other
    component, X and Y in particular, is exactly what it was, and the array
    keeps its length; when [identityBedTransform] is set the point is
    returned as it is, Z included. *)
Theorem BedTransform_changes_only_Z (c : Compensation) (p : list F) :
  (forall i, i = Z_AXIS \/
             ((fst (BedTransform c p)).[i] = p.[i] /\
              (fst (InverseBedTransform c p)).[i] = p.[i])) /\
  (fst (BedTransform c p)).[X_AXIS] = p.[X_AXIS] /\
  (fst (BedTransform c p)).[Y_AXIS] = p.[Y_AXIS] /\
  (fst (InverseBedTransform c p)).[X_AXIS] = p.[X_AXIS] /\
  (fst (InverseBedTransform c p)).[Y_AXIS] = p.[Y_AXIS] /\
  length (fst (BedTransform c p)) = length p /\
  length (fst (InverseBedTransform c p)) = length p /\
  (if identityBedTransform c
   then BedTransform c p = (p, []) /\ InverseBedTransform c p = (p, [])
   else True).
Proof.
  assert (Hframe : forall i, i <> Z_AXIS ->
            (fst (BedTransform c p)).[i] = p.[i] /\
            (fst (InverseBedTransform c p)).[i] = p.[i]).
  { intros i Hi. split.
    - destruct (BedTransform_cases c p) as [-> | [z ->]]; [reflexivity|].
      apply aget_aset_ne. congruence.
    - destruct (InverseBedTransform_cases c p) as [-> | [z ->]]; [reflexivity|].
      apply aget_aset_ne. congruence. }
  split; [|repeat split].
  - intros i. destruct (Nat.eq_dec i Z_AXIS) as [->|Hi]; [left; reflexivity|].
    right. apply Hframe, Hi.
  - apply Hframe. discriminate.
  - apply Hframe. discriminate.
  - apply Hframe. discriminate.
  - apply Hframe. discriminate.
  - destruct (BedTransform_cases c p) as [-> | [z ->]]; [reflexivity|apply length_aset].
  - destruct (InverseBedTransform_cases c p) as [-> | [z ->]]; [reflexivity|apply length_aset].
  - unfold BedTransform, InverseBedTransform.
    destruct (identityBedTransform c); cbn; auto.
Qed.

End BedFrame.

(** ** The [break] command *)

Section BreakCommand.
Import Blocks.

Definition is_loop (blocks : list BlockState) (k : nat) : Prop :=
  GetType (blocks !!! k) = loop.

Lemma BlockType_eqb_loop (t : BlockType) :
  BlockType_eqb t loop = true <-> t = loop.
Proof. destruct t; cbn; split; congruence. Qed.




End BreakCommand.

(** ** Delta calibration refuses a bad number of probe points *)

Section Calibration.
Import MoveM.
Context {F : Type} `{FloatOps F} {cfg : @Config F} {D : Type} `{Inhabited D}
        {dda_ops : @DDA F D}.
Variable GaussJordan : list (list F) -> nat -> list F.

(** C8: when [Move::DoDeltaCalibration] is called with fewer than 4 probe
    points or more than [MaxDeltaCalibrationPoints], it reports one error
    message and returns: the state of [Move] (delta parameters, ring of
    descriptors, live end points and all the rest) is the one it was given
    and the reply is not written. *)
Theorem DoDeltaCalibration_rejects_bad_count (pf : Platform) (mv : Move) (numPoints : nat) :
  (numPoints < 4 \/ MaxDeltaCalibrationPoints < numPoints)%nat ->
  DoDeltaCalibration GaussJordan pf mv numPoints
  = (mv,
     [EvMessage "Delta calibration error: %d probe points provided but must be between 4 and %d"],
     None).
Proof.
  intros Hbad. unfold DoDeltaCalibration.
  assert (Hc : Nat.ltb numPoints 4 || Nat.ltb MaxDeltaCalibrationPoints numPoints = true).
  { apply orb_true_iff. destruct Hbad as [Hlo | Hhi]; [left | right];
      apply Nat.ltb_lt; assumption. }
  rewrite Hc. reflexivity.
Qed.

End Calibration.

Lemma DoDeltaCalibration_rejects_bad_count_witness :
  let mv := Sample.machine (MoveM.mkRing (replicate 6 Sample.idle_dda) 0 0 None false)
                           (Sample.kossel Sample.zeros3) 0 in
  (3 < 4 \/ MoveM.MaxDeltaCalibrationPoints < 3)%nat /\
  MoveM.DoDeltaCalibration (fun _ _ => []) Sample.unit_platform mv 3
  = (mv,
     [MoveM.EvMessage
        "Delta calibration error: %d probe points provided but must be between 4 and %d"],
     None).
Proof.
  intros mv. split; [left; lia|].
  apply (DoDeltaCalibration_rejects_bad_count (fun _ _ => []) Sample.unit_platform mv 3).
  left; lia.
Defined.

(** ** CoreXY *)

Section CoreXY.
Import MoveM.
Context {cfg : @Config B32.t} {D : Type} `{Inhabited D} {dda_ops : @DDA B32.t D}.

(** C6: on a CoreXY machine ([coreXYMode = 1], not in delta mode) with 1
    step per unit on the three axes, [Move::MotorTransform] maps the machine
    position (10, 5, 0) to the motor positions (15, -5, 0), and
    [Move::MachineToEndPoint] maps those back to exactly (10, 5, 0), in the
    binary32 arithmetic of the controller. *)
Theorem CoreXY_round_trip_10_5_0 (pf : Platform (F := B32.t)) (mv : Move (F := B32.t) (D := D))
    (rest : list B32.t) (m0 m1 m2 : Z) (p0 p1 p2 : B32.t) :
  IsDeltaMode mv = false ->
  coreXYMode mv = 1%Z ->
  DriveStepsPerUnit pf = fone :: fone :: fone :: rest ->
  MotorTransform pf mv [fofZ 10; fofZ 5; fofZ 0] [m0; m1; m2] = [15; -5; 0]%Z /\
  MachineToEndPoint pf mv [15; -5; 0]%Z [p0; p1; p2] AXES = [fofZ 10; fofZ 5; fofZ 0].
Proof.
  intros Hdelta Hxy Hspu.
  unfold MotorTransform, MachineToEndPoint, MotorEndPointToMachine.
  rewrite Hdelta, Hxy, Hspu. split; vm_compute; reflexivity.
Qed.

End CoreXY.

Lemma CoreXY_round_trip_10_5_0_witness :
  let mv := Sample.machine (MoveM.mkRing (replicate 6 Sample.idle_dda) 0 0 None false)
                           (Sample.blank_delta fzero (fofZ 240) Sample.zeros3) 1 in
  MoveM.MotorTransform Sample.unit_platform mv [fofZ 10; fofZ 5; fofZ 0] [0; 0; 0]%Z
  = [15; -5; 0]%Z /\
  MoveM.MachineToEndPoint Sample.unit_platform mv [15; -5; 0]%Z Sample.zeros3 AXES
  = [fofZ 10; fofZ 5; fofZ 0].
Proof.
  intros mv.
  apply (CoreXY_round_trip_10_5_0 Sample.unit_platform mv (replicate 5 fone));
    reflexivity.
Defined.

(** ** The homed carriage height set by [Recalc] *)

Section RecalcHeight.
Import Delta.
Context {F : Type} `{FloatOps F}.
Local Open Scope float_scope.

(** [InverseTransform] reads the towers and the cached coefficients only,
    so the heights stored afterwards do not matter to it. *)
Lemma InverseTransform_heights_irrelevant (dp : DeltaParameters F) (e : list F) (hh hch : F)
    (Ha Hb Hc : F) (pos : list F) :
  InverseTransform (set_endstops_heights dp e hh hch) Ha Hb Hc pos
  = InverseTransform dp Ha Hb Hc pos.
Proof. reflexivity. Qed.

(** What [Recalc] stores in delta mode, in any arithmetic: the height of the
    nozzle is computed with the adjustment of tower A for both the first and
    the third carriage. *)
Lemma Recalc_homedCarriageHeight (dp : DeltaParameters F) :
  deltaMode (Recalc dp) = true ->
  let dp' := Recalc dp in
  let d := diagonal dp in
  let e := endstopAdjustments dp in
  homedCarriageHeight dp'
  = homedHeight dp + d
    - (InverseTransform dp' (d + e.[A_AXIS]) (d + e.[B_AXIS]) (d + e.[A_AXIS])
                        (replicate AXES fzero)).[Z_AXIS].
Proof.
  unfold Recalc.
  destruct ((radius dp >? fzero) && (diagonal dp >? radius dp)) eqn:Hmode;
    [intros _ | cbn; discriminate].
  cbn zeta. rewrite InverseTransform_heights_irrelevant. reflexivity.
Qed.

End RecalcHeight.

(** C1, checked on the code at the parameters radius 105, diagonal 215,
    homed height 240, endstop adjustments (0, 0, 1): after [Recalc] the
    machine is in delta mode and the stored [homedCarriageHeight] is the value
    obtained with the adjustment of tower A in the third place (427.6166...),
    which is more than 0.3 mm away from [homedHeight + diagonal] minus the
    height of [InverseTransform] at the three adjusted carriage heights
    (427.2789...), the value the claim gives. *)
Theorem Recalc_homedCarriageHeight_ignores_tower_C :
  let dp := Delta.Recalc (Sample.kossel [fzero; fzero; fone]) in
  let d := Delta.diagonal dp in
  let e := Delta.endstopAdjustments dp in
  let height Hc :=
    (Delta.homedHeight dp + d
     - (Delta.InverseTransform dp (d + e.[A_AXIS]) (d + e.[B_AXIS]) Hc Sample.zeros3).[Z_AXIS])%fl in
  Delta.deltaMode dp = true /\
  Delta.homedCarriageHeight dp = height (d + e.[A_AXIS])%fl /\
  Delta.homedCarriageHeight dp <> height (d + e.[C_AXIS])%fl /\
  B32.toQ (Delta.homedCarriageHeight dp) == 14012142 # 32768 /\
  B32.toQ (height (d + e.[C_AXIS])%fl) == 14001076 # 32768 /\
  B32.within (3 # 10) (Delta.homedCarriageHeight dp) (height (d + e.[C_AXIS])%fl) = false.
Proof.
  cbv zeta. repeat split; try (vm_compute; congruence).
Qed.

(** ** Forward and inverse transform of the delta geometry *)







(** ** Normalising the endstop adjustments *)

Section Normalise.
Import Delta.


End Normalise.







(** ** Pausing the print *)

Section Pause.
Import MoveM.
Context {F : Type} `{FloatOps F} {cfg : @Config F} {D : Type} `{Inhabited D}
        {dda_ops : @DDA F D}.

Lemma mod_next (n i m : nat) :
  (i < n)%nat -> (((i + 1) mod n + m) mod n = (i + S m) mod n)%nat.
Proof.
  intros Hi. rewrite Nat.Div0.add_mod_idemp_l. f_equal. lia.
Qed.

Lemma mod_shift_ne (n i m : nat) :
  (i < n)%nat -> (0 < m < n)%nat -> ((i + m) mod n <> i)%nat.
Proof.
  intros Hi Hm E.
  destruct (Nat.lt_ge_cases (i + m) n) as [Hlt | Hge].
  - rewrite Nat.mod_small in E by exact Hlt. lia.
  - assert (E2 : ((i + m) mod n = i + m - n)%nat).
    { symmetry. apply (Nat.mod_unique (i + m) n 1); lia. }
    lia.
Qed.

Lemma pick_position_nil (acc : FilePosition) : pick_position acc [] = acc.
Proof.
  unfold pick_position. cbn. destruct (Z.eqb acc noFilePosition) eqn:E; [|reflexivity].
  apply Z.eqb_eq in E. congruence.
Qed.

Lemma pick_position_cons (acc : FilePosition) (d : D) (ds : list D) :
  pick_position acc (d :: ds)
  = pick_position (if Z.eqb acc noFilePosition then GetFilePosition d else acc) ds.
Proof.
  unfold pick_position. cbn [first_file_position].
  destruct (Z.eqb acc noFilePosition) eqn:E; [|rewrite E; reflexivity].
  destruct (Z.eqb (GetFilePosition d) noFilePosition); reflexivity.
Qed.

Lemma release_skipped_run (k : nat) :
  forall (fuel : nat) (r : Ring) (i : nat) (fPos : FilePosition),
    let n := length (slots r) in
    (i < n)%nat -> (S k < n)%nat -> (S k <= fuel)%nat ->
    release_skipped fuel r i ((i + S k) mod n) fPos
    = Some (set_slots r (release_all (slots r) (map (fun j => ((i + j) mod n)%nat) (seq 0 (S k)))),
            pick_position fPos (map (fun j => dda r ((i + j) mod n)) (seq 0 (S k)))).
Proof.
  induction k as [|k IH]; intros fuel r i fPos n Hi Hk Hfuel.
  - destruct fuel as [|fuel]; [lia|].
    cbn [release_skipped seq map].
    unfold GetNext at 1. cbn [update_dda set_slots slots]. rewrite length_insert. fold n.
    rewrite Nat.eqb_refl. rewrite Nat.add_0_r, (Nat.mod_small i n) by exact Hi.
    rewrite pick_position_cons, pick_position_nil. reflexivity.
  - destruct fuel as [|fuel]; [lia|].
    cbn [release_skipped].
    set (r1 := update_dda r i Release).
    assert (Hlen : length (slots r1) = n).
    { subst r1. cbn [update_dda set_slots slots]. apply length_insert. }
    unfold GetNext. rewrite Hlen.
    assert (Hi1 : ((i + 1) mod n < n)%nat) by (apply Nat.mod_upper_bound; lia).
    assert (Hne : Nat.eqb ((i + 1) mod n) ((i + S (S k)) mod n) = false).
    { apply Nat.eqb_neq. rewrite <- (mod_next n i (S k)) by exact Hi.
      intros E. symmetry in E. revert E. apply mod_shift_ne; [exact Hi1|lia]. }
    rewrite Hne.
    rewrite <- (mod_next n i (S k)) by exact Hi.
    specialize (IH fuel r1 ((i + 1) mod n)%nat
                  (if Z.eqb fPos noFilePosition then GetFilePosition (dda r i) else fPos)).
    cbv zeta in IH. rewrite Hlen in IH.
    rewrite IH; [| exact Hi1 | lia | lia].
    assert (Hseq : forall (A : Type) (f : nat -> A),
               map f (seq 0 (S (S k))) = f 0%nat :: map (fun j => f (S j)) (seq 0 (S k))).
    { intros A f. cbn [seq map]. f_equal. f_equal. rewrite <- seq_shift, map_map. reflexivity. }
    rewrite (Hseq nat), (Hseq D).
    rewrite Nat.add_0_r, (Nat.mod_small i n) by exact Hi.
    rewrite (pick_position_cons fPos (dda r i)).
    assert (Hidx : forall j, ((i + S j) mod n = ((i + 1) mod n + j) mod n)%nat).
    { intros j. symmetry. apply mod_next. exact Hi. }
    f_equal. f_equal.
    + subst r1. unfold set_slots, update_dda, release_all.
      cbn [slots ddaRingAddPointer ddaRingGetPointer currentDda addNoMoreMoves fold_left].
      f_equal. f_equal. apply map_ext. intros j. symmetry. apply Hidx.
    + f_equal. apply map_ext_in. intros j Hj. apply in_seq in Hj.
      rewrite (Hidx j). subst r1. unfold dda, update_dda. cbn [slots set_slots].
      apply list_lookup_total_insert_ne.
      rewrite <- (Hidx j). intros E. symmetry in E. revert E. apply mod_shift_ne; [exact Hi|lia].
Qed.

Lemma span_length (n next saved : nat) :
  (next < n)%nat -> (saved < n)%nat -> next <> saved ->
  let m := ((saved + n - next) mod n)%nat in
  (0 < m < n)%nat /\ ((next + m) mod n = saved)%nat.
Proof.
  intros Hn Hs Hne m. subst m.
  destruct (Nat.lt_ge_cases next saved) as [Hlt | Hge].
  - replace (saved + n - next)%nat with ((saved - next) + 1 * n)%nat by lia.
    rewrite Nat.Div0.mod_add, Nat.mod_small by lia.
    split; [lia|]. replace (next + (saved - next))%nat with saved by lia.
    apply Nat.mod_small. exact Hs.
  - rewrite (Nat.mod_small (saved + n - next)) by lia.
    split; [lia|]. replace (next + (saved + n - next))%nat with (saved + 1 * n)%nat by lia.
    rewrite Nat.Div0.mod_add. apply Nat.mod_small. exact Hs.
Qed.

(** C4, as amended: when [Move::PausePrint] is called while a move is
    executing ([currentDda] is slot [cd] of the ring) and [CanPause] holds
    of that move, the add pointer becomes the successor of [cd].  If that
    is where the add pointer already was, no move is skipped, the result is
    [noFilePosition] and the array is filled by [GetCurrentUserPosition].
    Otherwise the skipped moves are the slots from the successor of [cd] up
    to the old add pointer; the result is the file position of the first of
    them that has one ([noFilePosition] when none has); the array receives
    the end coordinates of the axes and, at index [DRIVES], the requested
    speed of [cd], the last move that is still executed; and the skipped
    descriptors are released one after the other in the order of the
    ring. *)
Theorem PausePrint_after_current_move (mv : Move) (positions : list F) (cd : nat) :
  let r := ring mv in
  let next := GetNext r cd in
  let saved := ddaRingAddPointer r in
  let skipped := ring_span r next saved in
  currentDda r = Some cd ->
  (cd < length (slots r))%nat ->
  (saved < length (slots r))%nat ->
  CanPause (dda r cd) = true ->
  PausePrint mv positions
  = if Nat.eqb next saved
    then
      let mv' := set_ring mv (set_addPointer r next) in
      let '(ps, ev) := GetCurrentUserPosition mv' positions 0 in
      Some (noFilePosition, ps, mv', ev)
    else
      Some (first_file_position (map (dda r) skipped),
            aset (fold_left (fun ps axis => aset ps axis (GetEndCoordinate (dda r cd) axis false))
                            (seq 0 AXES) positions)
                 DRIVES (GetRequestedSpeed (dda r cd)),
            set_ring mv (set_slots (set_addPointer r next) (release_all (slots r) skipped)),
            []).
Proof.
  intros r next saved skipped Hcur Hcd Hsaved Hpause.
  unfold PausePrint. fold r. rewrite Hcur, Hpause. fold next saved.
  cbn [ddaRingAddPointer set_addPointer].
  destruct (Nat.eqb next saved) eqn:E; cbn [negb].
  - reflexivity.
  - apply Nat.eqb_neq in E.
    assert (Hnext : (next < length (slots r))%nat).
    { subst next. unfold GetNext. apply Nat.mod_upper_bound. lia. }
    destruct (span_length (length (slots r)) next saved Hnext Hsaved E) as [[Hm0 Hmn] Hm].
    set (m := ((saved + length (slots r) - next) mod length (slots r))%nat) in *.
    destruct m as [|k] eqn:Em; [lia|].
    pose proof (release_skipped_run k (length (slots r)) (set_addPointer r next) next
                  noFilePosition) as Hrun.
    cbv zeta in Hrun. cbn [slots set_addPointer] in Hrun.
    rewrite Hm in Hrun.
    change (slots (set_addPointer r next)) with (slots r).
    change (dda (set_addPointer r next)) with (dda r) in *.
    rewrite Hrun by lia.
    unfold pick_position. rewrite Z.eqb_refl.
    subst skipped. unfold ring_span. fold m. rewrite Em.
    rewrite map_map. reflexivity.
Qed.
End Pause.

Lemma PausePrint_after_current_move_witness :
  let mv := Sample.machine (Sample.busy_ring true 110 120) (Sample.kossel Sample.zeros3) 0 in
  let ps := replicate 9 (fzero : Sample.Fl) in
  MoveM.currentDda (MoveM.ring mv) = Some 0%nat /\
  MoveM.CanPause (MoveM.dda (MoveM.ring mv) 0) = true /\
  option_map (fun x => fst (fst (fst x))) (MoveM.PausePrint mv ps) = Some 110%Z /\
  option_map (fun x => MoveM.ddaRingAddPointer (MoveM.ring (snd (fst x))))
             (MoveM.PausePrint mv ps) = Some 1%nat.
Proof.
  intros mv ps.
  assert (Hcur : MoveM.currentDda (MoveM.ring mv) = Some 0%nat) by reflexivity.
  assert (Hp : MoveM.CanPause (MoveM.dda (MoveM.ring mv) 0) = true) by reflexivity.
  split; [exact Hcur|]. split; [exact Hp|].
  rewrite (PausePrint_after_current_move mv ps 0 Hcur);
    [split; reflexivity | cbn; lia | cbn; lia | exact Hp].
Defined.

(** C4 as it was stated does not hold of the code: slot 0 is executing and
    can pause, the first skipped move (slot 1) has no file position and the
    second (slot 2) was read at 200; the result is 200 and not the file
    position of the first skipped move. *)
Lemma PausePrint_first_skipped_counterexample :
  let mv := Sample.machine (Sample.busy_ring true 4294967295 200)
                           (Sample.kossel Sample.zeros3) 0 in
  let r := MoveM.ring mv in
  MoveM.currentDda r = Some 0%nat /\
  MoveM.CanPause (MoveM.dda r 0) = true /\
  MoveM.GetNext r 0 <> MoveM.ddaRingAddPointer r /\
  MoveM.GetFilePosition (MoveM.dda r (MoveM.GetNext r 0)) = MoveM.noFilePosition /\
  option_map (fun x => fst (fst (fst x)))
             (MoveM.PausePrint mv (replicate 9 (fzero : Sample.Fl))) = Some 200%Z /\
  200%Z <> MoveM.noFilePosition.
Proof.
  cbv zeta. repeat split; try (vm_compute; congruence).
Qed.

(** ** Acceptance of new moves in [Spin] *)

Section Polling.
Import MoveM.
Context {F : Type} `{FloatOps F} {cfg : @Config F} {D : Type} `{Inhabited D}
        {dda_ops : @DDA F D} {G : Type}.
Variable ReadMove : G -> option (list F * Z * Z * FilePosition) * G.

Lemma last_cons_default (ts : list F) : forall t d d' : F,
  last (t :: ts) d = last (t :: ts) d'.
Proof.
  induction ts as [|t' ts IH]; intros t d d'; [reflexivity|].
  change (last (t :: t' :: ts) d) with (last (t' :: ts) d).
  change (last (t :: t' :: ts) d') with (last (t' :: ts) d').
  apply IH.
Qed.

Lemma walked_sums (ts : list F) : forall u p : F,
  walked u p ts = (fold_left fadd (removelast (p :: ts)) u, last (p :: ts) p).
Proof.
  induction ts as [|t ts IH]; intros u p; [reflexivity|].
  cbn [walked]. rewrite IH.
  change (removelast (p :: t :: ts)) with (p :: removelast (t :: ts)).
  change (last (p :: t :: ts) p) with (last (t :: ts) p).
  cbn [fold_left]. f_equal. apply last_cons_default.
Qed.

Lemma walk_unprepared_run (r : Ring) (k : nat) :
  forall (fuel i : nat) (u p : F),
    (k < fuel)%nat ->
    (forall j, (j < k)%nat ->
       GetState (dda r (Nat.iter (S j) (GetPrevious r) i)) = provisional) ->
    GetState (dda r (Nat.iter (S k) (GetPrevious r) i)) <> provisional ->
    walk_unprepared fuel r i u p
    = Some (walked u p
              (map (fun j => CalcTime (dda r (Nat.iter (S j) (GetPrevious r) i))) (seq 0 k))).
Proof.
  induction k as [|k IH]; intros fuel i u p Hfuel Hrun Hend;
    (destruct fuel as [|fuel]; [lia|]); cbn [walk_unprepared].
  - destruct (GetState (dda r (GetPrevious r i))) eqn:E; try reflexivity.
    exfalso. apply Hend. exact E.
  - pose proof (Hrun 0%nat ltac:(lia)) as H0'.
    change (GetState (dda r (GetPrevious r i)) = provisional) in H0'.
    rewrite H0'. cbn [DDAState_eqb negb].
    rewrite (IH fuel (GetPrevious r i)); [| lia | |].
    + cbn [seq map walked]. rewrite <- seq_shift, map_map.
      f_equal. f_equal. apply map_ext. intros j.
      rewrite (Nat.iter_succ_r (S j)). reflexivity.
    + intros j Hj. rewrite <- Nat.iter_succ_r. apply Hrun. lia.
    + rewrite <- Nat.iter_succ_r. exact Hend.
Qed.

Lemma iter_GetPrevious (r : Ring (D := D)) (i j : nat) :
  Nat.iter j (GetPrevious r) i
  = if Nat.eqb j 0 then i else ((i + j * (length (slots r) - 1)) mod (length (slots r)))%nat.
Proof.
  induction j as [|j IH]; [reflexivity|].
  change (Nat.iter (S j) (GetPrevious r) i) with (GetPrevious r (Nat.iter j (GetPrevious r) i)).
  rewrite IH. unfold GetPrevious.
  destruct j as [|j]; cbn [Nat.eqb].
  - f_equal. lia.
  - rewrite Nat.Div0.add_mod_idemp_l. f_equal. lia.
Qed.

Lemma earlier_full_turn (r : Ring (D := D)) :
  (ddaRingAddPointer r < length (slots r))%nat ->
  earlier r (length (slots r)) = ddaRingAddPointer r.
Proof.
  intros Ha. unfold earlier. rewrite iter_GetPrevious.
  destruct (length (slots r)) as [|n] eqn:E; [lia|]. cbn [Nat.eqb].
  rewrite (Nat.mul_comm (S n)), Nat.Div0.mod_add. apply Nat.mod_small. lia.
Qed.


Lemma run_shorter_than_ring (r : Ring (D := D)) (k : nat) :
  (ddaRingAddPointer r < length (slots r))%nat ->
  GetState (dda r (ddaRingAddPointer r)) = empty ->
  (forall j, (j < k)%nat -> GetState (dda r (earlier r (S j))) = provisional) ->
  (k < length (slots r))%nat.
Proof.
  intros Ha Hempty Hrun.
  destruct (Nat.lt_ge_cases k (length (slots r))) as [Hlt | Hge]; [exact Hlt|].
  exfalso.
  destruct (length (slots r)) as [|n] eqn:E; [lia|].
  specialize (Hrun n ltac:(lia)). rewrite <- E, earlier_full_turn in Hrun by lia.
  congruence.
Qed.

Lemma total_time_last (u : F) (ts : list F) :
  ts <> [] ->
  (fold_left fadd (removelast ts) u + last ts u)%fl = fold_left fadd ts u.
Proof.
  intros Hne.
  rewrite (app_removelast_last u Hne) at 3.
  rewrite fold_left_app. reflexivity.
Qed.

(** When moves may not be added, or the slot at the add pointer is not
    free, the front end is not polled at all. *)
Lemma Spin_addMove_closed (mv : Move) (g : G) :
  negb (addNoMoreMoves (ring mv))
  && DDAState_eqb (GetState (dda (ring mv) (ddaRingAddPointer (ring mv)))) empty = false ->
  Spin_addMove ReadMove mv g = Some (mv, g, []).
Proof.
  intros Hg. unfold Spin_addMove. rewrite Hg. reflexivity.
Qed.

(** C5: in [Move::Spin], when a move may be added (the slot at the add
    pointer is free and [addNoMoreMoves] is not set), let the [k] moves
    walked backwards from the add pointer be the provisional ones, the next
    one not being provisional.  The front end is polled ([ReadMove] is
    called) if and only if the sum of the durations of these moves less the
    last one walked is below 0.5 s, or the sum of all of them is below
    2.0 s; otherwise nothing is accepted: the state of [Move] and of the
    front end are what they were.  The sums are taken in the order of the
    walk, in the arithmetic of the controller (any arithmetic in which
    0 + 0 is 0). *)
Theorem Spin_polls_below_thresholds (mv : Move) (g : G) (k : nat) :
  let r := ring mv in
  let times := queued_times r k in
  let polled :=
    (total_time (removelast times) <? flit 1 2)%fl || (total_time times <? flit 2 1)%fl in
  (ddaRingAddPointer r < length (slots r))%nat ->
  addNoMoreMoves r = false ->
  GetState (dda r (ddaRingAddPointer r)) = empty ->
  (forall j, (j < k)%nat -> GetState (dda r (earlier r (S j))) = provisional) ->
  GetState (dda r (earlier r (S k))) <> provisional ->
  (fzero + fzero)%fl = fzero ->
  exists mv' g' ev,
    Spin_addMove ReadMove mv g = Some (mv', g', ev) /\
    (In EvReadMove ev <-> polled = true) /\
    (polled = false -> mv' = mv /\ g' = g /\ ev = []).
Proof.
  intros r times polled Ha Hmore Hempty Hrun Hend Hzero.
  pose proof (run_shorter_than_ring r k Ha Hempty Hrun) as Hk.
  unfold Spin_addMove. fold r. rewrite Hmore, Hempty. cbn [negb andb DDAState_eqb].
  pose proof (walk_unprepared_run r k (length (slots r)) (ddaRingAddPointer r) fzero fzero
                Hk Hrun Hend) as Hwalk.
  change (map _ (seq 0 k)) with times in Hwalk.
  rewrite Hwalk, walked_sums.
  assert (Hu : fold_left fadd (removelast (fzero :: times)) fzero = total_time (removelast times)).
  { destruct times as [|t ts]; [reflexivity|].
    change (removelast (fzero :: t :: ts)) with (fzero :: removelast (t :: ts)).
    cbn [fold_left]. rewrite Hzero. reflexivity. }
  assert (Ht : (total_time (removelast times) + last (fzero :: times) fzero)%fl
               = total_time times).
  { destruct times as [|t ts]; [exact Hzero|].
    change (last (fzero :: t :: ts) fzero) with (last (t :: ts) fzero).
    apply total_time_last. discriminate. }
  rewrite Hu, Ht. fold polled.
  destruct polled.
  - destruct (ReadMove g) as [[[[[nextMove endStopsToCheck] moveType] filePos]|] g'].
    + destruct (if _ : bool then Transform _ _ else _) as [nextMove' ev].
      destruct (DDA_Init _ _ _ _ _ _) as [[|] sl];
        eexists _, _, _; (split; [reflexivity|]);
        (split; [split; [reflexivity | intros _; left; reflexivity] | discriminate]).
    + eexists _, _, _. split; [reflexivity|].
      split; [split; [reflexivity | intros _; left; reflexivity] | discriminate].
  - exists mv, g, []. split; [reflexivity|].
    split; [split; [intros [] | discriminate] | intros _; repeat split].
Qed.
End Polling.

Lemma Spin_polls_below_thresholds_witness :
  let mv := Sample.machine (Sample.busy_ring true 110 120) (Sample.kossel Sample.zeros3) 0 in
  let poll := fun g : unit => (@None (list Sample.Fl * Z * Z * MoveM.FilePosition), g) in
  MoveM.queued_times (MoveM.ring mv) 1 = [fone] /\
  exists mv' g' ev,
    MoveM.Spin_addMove poll mv tt = Some (mv', g', ev) /\ In MoveM.EvReadMove ev.
Proof.
  intros mv poll. split; [reflexivity|].
  destruct (Spin_polls_below_thresholds poll mv tt 1) as (mv' & g' & ev & Hs & Hin & _).
  - cbn. lia.
  - reflexivity.
  - reflexivity.
  - intros j Hj. destruct j as [|j]; [reflexivity | lia].
  - vm_compute. discriminate.
  - vm_compute. reflexivity.
  - exists mv', g', ev. split; [exact Hs|]. apply Hin. vm_compute. reflexivity.
Defined.


(** ** Operands that are not evaluated *)

Section ShortCircuit.
Import Expr.
Context {F : Type} `{FloatOps F} {lib : Library (F := F)}.
Variable env : Env (F := F).

Notation "x <- m ;; k" := (bind m (fun x => k))
  (at level 100, m at next level, right associativity).
Notation "m ;;; k" := (bind m (fun _ => k))
  (at level 100, right associativity).

Lemma quiet_ret {A : Type} (a : A) : quiet (ret a).
Proof. intros p. repeat split. intros e He. discriminate He. Qed.

Lemma quiet_unfinished {A : Type} : quiet (unfinished (A := A)).
Proof. intros p. repeat split. intros e He. discriminate He. Qed.

Lemma quiet_throw {A : Type} (msg : string) :
  is_evaluation_error msg = false -> quiet (ThrowParseException env (A := A) msg).
Proof.
  intros Hmsg p. repeat split. intros e He. cbn in He. injection He as <-. exact Hmsg.
Qed.

Lemma quiet_bind {A B : Type} (m : M A) (k : A -> M B) :
  quiet m -> (forall a, quiet (k a)) -> quiet (bind m k).
Proof.
  intros Hm Hk p. unfold quiet_at, bind.
  destruct (Hm p) as (Hl & Ho & He).
  destruct (m p) as [[a | e |] p'] eqn:Em; cbn [fst snd] in *.
  - destruct (Hk a p') as (Hl' & Ho' & He'). rewrite Hl', Ho'.
    split; [assumption | split; assumption].
  - split; [assumption | split; [assumption |]].
    intros e0 He0. injection He0 as <-. apply He. reflexivity.
  - split; [assumption | split; [assumption|]]. intros e He'. discriminate He'.
Qed.

Lemma quiet_dep {A B : Type} (f : B -> M A) (g : Parser -> B) :
  (forall b, quiet (f b)) -> quiet (fun p => f (g p) p).
Proof. intros Hf p. exact (Hf (g p) p). Qed.

Lemma quiet_current : quiet current.
Proof. intros p. repeat split. intros e He. discriminate He. Qed.

Lemma quiet_AdvancePointer : quiet AdvancePointer.
Proof. intros p. repeat split. intros e He. discriminate He. Qed.

Lemma quiet_SkipWhiteSpace : quiet SkipWhiteSpace.
Proof. intros p. repeat split. intros e He. discriminate He. Qed.

Lemma quiet_ParseNumber : quiet ParseNumber.
Proof.
  intros p. unfold quiet_at, ParseNumber.
  destruct (NumericConverter _) as [v n]. repeat split. intros e He. discriminate He.
Qed.

Create HintDb quiet.
#[local] Hint Resolve quiet_ret quiet_unfinished quiet_current quiet_AdvancePointer
  quiet_SkipWhiteSpace quiet_ParseNumber : quiet.

Ltac quiet_step :=
  cbn [andb negb];
  lazymatch goal with
  | |- quiet (bind _ _) => apply quiet_bind; [| intros ?]
  | |- quiet (ThrowParseException _ _) => apply quiet_throw; reflexivity
  | |- quiet (if ?b then _ else _) => destruct b
  | |- quiet (match ?x with _ => _ end) => destruct x
  | |- quiet _ => solve [eauto with quiet]
  end.

Ltac quiet_auto := repeat quiet_step.

Lemma quiet_expect (c : ascii) (msg : string) :
  is_evaluation_error msg = false -> quiet (expect env c msg).
Proof. intros Hmsg. unfold expect. quiet_auto. apply quiet_throw. exact Hmsg. Qed.

Lemma quiet_ConvertToFloat (v : ExpressionValue) : quiet (ConvertToFloat env v false).
Proof. unfold ConvertToFloat. quiet_auto. Qed.

Lemma quiet_ConvertToBool (v : ExpressionValue) : quiet (ConvertToBool env v false).
Proof. unfold ConvertToBool. quiet_auto. Qed.

#[local] Hint Resolve quiet_ConvertToFloat quiet_ConvertToBool : quiet.

Lemma quiet_BalanceNumericTypes (v1 v2 : ExpressionValue) :
  quiet (BalanceNumericTypes env v1 v2 false).
Proof. unfold BalanceNumericTypes. quiet_auto. Qed.

Lemma quiet_BalanceTypes (v1 v2 : ExpressionValue) :
  quiet (BalanceTypes env v1 v2 false).
Proof. unfold BalanceTypes. quiet_auto. Qed.

#[local] Hint Resolve quiet_BalanceNumericTypes quiet_BalanceTypes : quiet.


Lemma quiet_quoted_loop (n : nat) : forall str, quiet (quoted_loop env n str).
Proof.
  induction n as [|n IH]; intros str; cbn [quoted_loop]; quiet_auto.
Qed.

Lemma quiet_ParseQuotedString : quiet (ParseQuotedString env).
Proof.
  unfold ParseQuotedString. quiet_auto.
  apply (quiet_dep (fun n => quoted_loop env n EmptyString) remaining).
  intros n. apply quiet_quoted_loop.
Qed.

Lemma quiet_constant_value (c : NamedConstant) : quiet (constant_value env c).
Proof. unfold constant_value. quiet_auto. Qed.

Lemma quiet_float_fn (f : F -> F) (v : ExpressionValue) : quiet (float_fn env f v false).
Proof. unfold float_fn. quiet_auto. Qed.

#[local] Hint Resolve quiet_ParseQuotedString quiet_constant_value quiet_float_fn : quiet.

Section Bodies.
Variable PI : bool -> Z -> M (ExpressionValue (F := F)).
Variable PIE : bool -> bool -> bool -> M (ExpressionValue (F := F)).
Hypothesis quiet_PI : forall priority, quiet (PI false priority).
Hypothesis quiet_PIE : forall len ex, quiet (PIE false len ex).

Lemma quiet_next_operand : quiet (next_operand env PI false).
Proof using quiet_PI. unfold next_operand. quiet_auto. apply quiet_expect. reflexivity. Qed.

Lemma quiet_minmax_loop (isMax : bool) (n : nat) :
  forall rslt, quiet (minmax_loop env PI false isMax n rslt).
Proof using quiet_PI.
  induction n as [|n IH]; intros rslt; cbn [minmax_loop]; quiet_auto.
Qed.

#[local] Hint Resolve quiet_next_operand quiet_minmax_loop : quiet.

Lemma quiet_apply_function (func : Function) (rslt : ExpressionValue) :
  quiet (apply_function env PI func rslt false).
Proof using quiet_PI.
  destruct func; cbn [apply_function]; quiet_auto;
    apply (quiet_dep (fun n => minmax_loop env PI false _ n rslt) remaining);
    intros n; apply quiet_minmax_loop.
Qed.

Lemma quiet_identifier_loop (n : nat) :
  forall id idx, quiet (identifier_loop env PI false n id idx).
Proof using quiet_PI.
  induction n as [|n IH]; intros id idx; cbn [identifier_loop]; quiet_auto.
Qed.

Lemma quiet_identifier_loop_rest :
  quiet (fun p => identifier_loop env PI false (remaining p) EmptyString [] p).
Proof using quiet_PI.
  apply (quiet_dep (fun n => identifier_loop env PI false n EmptyString []) remaining).
  intros n. apply quiet_identifier_loop.
Qed.

#[local] Hint Resolve quiet_apply_function quiet_identifier_loop
  quiet_identifier_loop_rest : quiet.

Lemma quiet_ParseIdentifierExpression_body (len ex : bool) :
  quiet (ParseIdentifierExpression_body env PI PIE false len ex).
Proof using quiet_PI quiet_PIE.
  unfold ParseIdentifierExpression_body. quiet_auto; apply quiet_expect; reflexivity.
Qed.

Lemma quiet_ParseExpectKet (c : ascii) : quiet (ParseExpectKet env PI false c).
Proof using quiet_PI. unfold ParseExpectKet. quiet_auto. apply quiet_expect. reflexivity. Qed.

#[local] Hint Resolve quiet_ParseExpectKet : quiet.

Lemma quiet_parse_operand : quiet (parse_operand env PI PIE false).
Proof using quiet_PI quiet_PIE. unfold parse_operand. quiet_auto. Qed.

Lemma quiet_apply_binop (opChar : ascii) (invert : bool) (val val2 : ExpressionValue) :
  quiet (apply_binop env opChar invert false val val2).
Proof using quiet_PI. unfold apply_binop. quiet_auto. Qed.

Lemma quiet_operator_tail (opChar : ascii) : quiet (operator_tail env opChar).
Proof using quiet_PI. unfold operator_tail. quiet_auto. Qed.

#[local] Hint Resolve quiet_apply_binop quiet_operator_tail : quiet.

Lemma quiet_binop_loop (priority : Z) (n : nat) :
  forall val, quiet (binop_loop env PI false priority n val).
Proof using quiet_PI.
  induction n as [|n IH]; intros val; cbn [binop_loop]; quiet_auto;
    apply quiet_expect; reflexivity.
Qed.

Lemma quiet_ParseInternal_body (priority : Z) :
  quiet (ParseInternal_body env PI PIE false priority).
Proof using quiet_PI quiet_PIE.
  unfold ParseInternal_body. apply quiet_bind; [apply quiet_parse_operand|].
  intros val. apply (quiet_dep (fun n => binop_loop env PI false priority n val) remaining).
  intros n. apply quiet_binop_loop.
Qed.

End Bodies.

Lemma quiet_parsers (depth : nat) :
  (forall priority, quiet (ParseInternal env depth false priority)) /\
  (forall len ex, quiet (ParseIdentifierExpression env depth false len ex)).
Proof.
  induction depth as [|d [IHPI IHPIE]]; split; intros; cbn [ParseInternal ParseIdentifierExpression].
  - apply quiet_throw. reflexivity.
  - apply quiet_throw. reflexivity.
  - apply quiet_ParseInternal_body; assumption.
  - apply quiet_ParseIdentifierExpression_body; assumption.
Qed.
Section Operators.
Variable PI : bool -> Z -> M (ExpressionValue (F := F)).

Lemma bind_ok {A B : Type} (m : M A) (k : A -> M B) (p p' : Parser) (a : A) :
  m p = (Ok a, p') -> bind m k p = k a p'.
Proof. intros Hm. unfold bind. rewrite Hm. reflexivity. Qed.

Lemma operator_tail_plain (op : ascii) (p : Parser) :
  Ascii.eqb op "!" = false -> Ascii.eqb op ">" = false -> Ascii.eqb op "<" = false ->
  operator_tail env op p = (Ok (false, op), snd (operator_tail env op p)).
Proof.
  intros H1 H2 H3. unfold operator_tail, bind, current. rewrite H1, H2, H3.
  cbn [orb andb fst snd ret].
  destruct (_ && _); reflexivity.
Qed.

Lemma binop_loop_and (evaluate : bool) (priority : Z) (n : nat)
    (val : ExpressionValue) (p : Parser) :
  at_operator "&" p -> (priority < 3)%Z ->
  binop_loop env PI evaluate priority (S n) val p
  = (val <- ConvertToBool env val evaluate ;;
     val2 <- PI (evaluate && bVal_of val) 3 ;;
     val <- (if bVal_of val
             then val2 <- ConvertToBool env val2 evaluate ;; ret (EV_Bool (bVal_of val2))
             else ret val) ;;
     binop_loop env PI evaluate priority n val) (after_operator env "&" p).
Proof.
  intros Hat Hprio. unfold at_operator in Hat. unfold after_operator.
  cbn [binop_loop].
  rewrite (bind_ok SkipWhiteSpace _ p (snd (SkipWhiteSpace p)) tt) by reflexivity.
  rewrite (bind_ok current _ _ (snd (SkipWhiteSpace p)) "&"%char)
    by (unfold current; rewrite Hat; reflexivity).
  change (Ascii.eqb "&" NUL) with false. cbv iota.
  change (strchr operators "&") with (Some 2%nat). cbv iota beta.
  change (nth 2 priorities 0%Z) with 3%Z.
  rewrite (proj2 (Z.leb_gt 3 priority)) by exact Hprio.
  rewrite (bind_ok AdvancePointer _ _ (snd (AdvancePointer (snd (SkipWhiteSpace p)))) tt)
    by reflexivity.
  rewrite (bind_ok (operator_tail env "&") _ _ _ _
             (operator_tail_plain "&" _ eq_refl eq_refl eq_refl)).
  reflexivity.
Qed.

Lemma binop_loop_or (evaluate : bool) (priority : Z) (n : nat)
    (val : ExpressionValue) (p : Parser) :
  at_operator "|" p -> (priority < 3)%Z ->
  binop_loop env PI evaluate priority (S n) val p
  = (val <- ConvertToBool env val evaluate ;;
     val2 <- PI (evaluate && negb (bVal_of val)) 3 ;;
     val <- (if negb (bVal_of val)
             then val2 <- ConvertToBool env val2 evaluate ;; ret (EV_Bool (bVal_of val2))
             else ret val) ;;
     binop_loop env PI evaluate priority n val) (after_operator env "|" p).
Proof.
  intros Hat Hprio. unfold at_operator in Hat. unfold after_operator.
  cbn [binop_loop].
  rewrite (bind_ok SkipWhiteSpace _ p (snd (SkipWhiteSpace p)) tt) by reflexivity.
  rewrite (bind_ok current _ _ (snd (SkipWhiteSpace p)) "|"%char)
    by (unfold current; rewrite Hat; reflexivity).
  change (Ascii.eqb "|" NUL) with false. cbv iota.
  change (strchr operators "|") with (Some 3%nat). cbv iota beta.
  change (nth 3 priorities 0%Z) with 3%Z.
  rewrite (proj2 (Z.leb_gt 3 priority)) by exact Hprio.
  rewrite (bind_ok AdvancePointer _ _ (snd (AdvancePointer (snd (SkipWhiteSpace p)))) tt)
    by reflexivity.
  rewrite (bind_ok (operator_tail env "|") _ _ _ _
             (operator_tail_plain "|" _ eq_refl eq_refl eq_refl)).
  reflexivity.
Qed.

Lemma binop_loop_conditional (evaluate : bool) (priority : Z) (n : nat)
    (val : ExpressionValue) (p : Parser) :
  at_operator "?" p -> (priority < 1)%Z ->
  binop_loop env PI evaluate priority (S n) val p
  = (val <- ConvertToBool env val evaluate ;;
     second <- PI (evaluate && bVal_of val) 1 ;;
     expect env ":" "expected ':'" ;;;
     third <- PI (evaluate && negb (bVal_of val)) 0 ;;
     ret (if bVal_of val then second else third)) (after_operator env "?" p).
Proof.
  intros Hat Hprio. unfold at_operator in Hat. unfold after_operator.
  cbn [binop_loop].
  rewrite (bind_ok SkipWhiteSpace _ p (snd (SkipWhiteSpace p)) tt) by reflexivity.
  rewrite (bind_ok current _ _ (snd (SkipWhiteSpace p)) "?"%char)
    by (unfold current; rewrite Hat; reflexivity).
  change (Ascii.eqb "?" NUL) with false. cbv iota.
  change (strchr operators "?") with (Some 0%nat). cbv iota beta.
  change (nth 0 priorities 0%Z) with 1%Z.
  rewrite (proj2 (Z.leb_gt 1 priority)) by exact Hprio.
  rewrite (bind_ok AdvancePointer _ _ (snd (AdvancePointer (snd (SkipWhiteSpace p)))) tt)
    by reflexivity.
  rewrite (bind_ok (operator_tail env "?") _ _ _ _
             (operator_tail_plain "?" _ eq_refl eq_refl eq_refl)).
  reflexivity.
Qed.

End Operators.

(** X30: a parse with [evaluate] false asks neither the variable tables nor
    the object model for anything and notes no obsolete field, whatever the
    text is and however deep the calls nest.  And the operand of [&], [|]
    and [?:] that is not needed is parsed that way: after [a &] the operand
    is parsed with [evaluate && a], after [a |] with [evaluate && !a], and
    of [a ? b : c] the operand [b] is parsed with [evaluate && a] and [c]
    with [evaluate && !a], so that exactly one of the two flags is set when
    [evaluate] is, and none when it is not. *)
Theorem unevaluated_operands_ask_nothing (depth : nat) :
  (forall priority p,
     let p' := snd (ParseInternal env depth false priority p) in
     lookups p' = lookups p /\ obsoleteField p' = obsoleteField p) /\
  (forall evaluate priority n val p,
     at_operator "&" p -> (priority < 3)%Z ->
     binop_loop env (ParseInternal env depth) evaluate priority (S n) val p
     = (val <- ConvertToBool env val evaluate ;;
        val2 <- ParseInternal env depth (evaluate && bVal_of val) 3 ;;
        val <- (if bVal_of val
                then val2 <- ConvertToBool env val2 evaluate ;; ret (EV_Bool (bVal_of val2))
                else ret val) ;;
        binop_loop env (ParseInternal env depth) evaluate priority n val)
         (after_operator env "&" p)) /\
  (forall evaluate priority n val p,
     at_operator "|" p -> (priority < 3)%Z ->
     binop_loop env (ParseInternal env depth) evaluate priority (S n) val p
     = (val <- ConvertToBool env val evaluate ;;
        val2 <- ParseInternal env depth (evaluate && negb (bVal_of val)) 3 ;;
        val <- (if negb (bVal_of val)
                then val2 <- ConvertToBool env val2 evaluate ;; ret (EV_Bool (bVal_of val2))
                else ret val) ;;
        binop_loop env (ParseInternal env depth) evaluate priority n val)
         (after_operator env "|" p)) /\
  (forall evaluate priority n val p,
     at_operator "?" p -> (priority < 1)%Z ->
     binop_loop env (ParseInternal env depth) evaluate priority (S n) val p
     = (val <- ConvertToBool env val evaluate ;;
        second <- ParseInternal env depth (evaluate && bVal_of val) 1 ;;
        expect env ":" "expected ':'" ;;;
        third <- ParseInternal env depth (evaluate && negb (bVal_of val)) 0 ;;
        ret (if bVal_of val then second else third))
         (after_operator env "?" p)) /\
  (forall evaluate b : bool, xorb (evaluate && b) (evaluate && negb b) = evaluate).
Proof.
  split.
  { intros priority p. cbv zeta.
    destruct (proj1 (quiet_parsers depth) priority p) as (Hl & Ho & _).
    split; [exact Hl | exact Ho]. }
  split; [intros; apply binop_loop_and; assumption|].
  split; [intros; apply binop_loop_or; assumption|].
  split; [intros; apply binop_loop_conditional; assumption|].
  intros [|] [|]; reflexivity.
Qed.

End ShortCircuit.

(** What the operators do on some texts: the operand after [false &] is
    not looked up, the one after [true &] is, and an unevaluated operand
    that lacks its closing bracket is still refused. *)
Lemma short_circuit_examples :
  Sample.parse true "false & move.axes[0].homed" = (Expr.Ok (Expr.EV_Bool false), []) /\
  Sample.thrown (fst (Sample.parse true "true & move.axes[0].homed")) = Some "unknown value"%string /\
  snd (Sample.parse true "true & move.axes[0].homed") = ["move.axes^.homed"%string] /\
  Sample.parse true "true ? var.x : var.y" = (Expr.Ok (Expr.EV_Int32 5), ["x"%string]) /\
  Sample.thrown (fst (Sample.parse true "false & (1")) = Some "expected '%c'"%string.
Proof.
  vm_compute. repeat split.
Qed.

(** C7, on the code: a type mismatch in the operand that is not needed is
    not always suppressed.  With the local variable [x] of value 5 the
    operand [-var.x] has no error (it is -5, alone and after [false ? 1 :]),
    but after [true ? 1 :], where it is parsed with [evaluate] false, the
    parser throws "expected numeric value after '-'": the unevaluated
    [var.x] has no type, and unary minus throws without looking at
    [evaluate].  The same operand after [true |] and after [false &] throws
    as well, and so does unary plus.  The sibling paths have the guard: the
    unevaluated operands [0 - var.x], [!var.x], [var.x * 2], [var.x < 2] and
    [abs(var.x)] are passed over and the result is 1. *)
Theorem unary_minus_throws_in_unevaluated_operand :
  Sample.parse true "-var.x" = (Expr.Ok (Expr.EV_Int32 (-5)), ["x"%string]) /\
  Sample.parse true "false ? 1 : -var.x" = (Expr.Ok (Expr.EV_Int32 (-5)), ["x"%string]) /\
  Sample.thrown (fst (Sample.parse true "true ? 1 : -var.x"))
  = Some "expected numeric value after '-'"%string /\
  Sample.thrown (fst (Sample.parse true "true | -var.x"))
  = Some "expected numeric value after '-'"%string /\
  Sample.thrown (fst (Sample.parse true "false & -var.x"))
  = Some "expected numeric value after '-'"%string /\
  Sample.thrown (fst (Sample.parse true "true ? 1 : +var.x"))
  = Some "expected numeric or enumeration value after '+'"%string /\
  Sample.parse true "true ? 1 : 0 - var.x" = (Expr.Ok (Expr.EV_Int32 1), []) /\
  Sample.parse true "true ? 1 : !var.x" = (Expr.Ok (Expr.EV_Int32 1), []) /\
  Sample.parse true "true ? 1 : var.x * 2" = (Expr.Ok (Expr.EV_Int32 1), []) /\
  Sample.parse true "true ? 1 : var.x < 2" = (Expr.Ok (Expr.EV_Int32 1), []) /\
  Sample.parse true "true ? 1 : abs(var.x)" = (Expr.Ok (Expr.EV_Int32 1), []).
Proof.
  vm_compute. repeat split.
Qed.

(** ** [Recalc] called again *)

Section DeltaParameters.
Import Delta.

(** X1: [DeltaParameters::Recalc] computes the derived values from the
    tower positions, the diagonal, the radius, the endstop adjustments and
    the homed height only, none of which it changes: calling it a second
    time changes nothing, in any arithmetic. *)
Theorem Recalc_idempotent {F : Type} `{FloatOps F} (dp : DeltaParameters F) :
  Recalc (Recalc dp) = Recalc dp.
Proof.
  unfold Recalc at 2 3.
  destruct (andb (fltb fzero (radius dp)) (fltb (radius dp) (diagonal dp))) eqn:Hmode.
  - cbv zeta. unfold Recalc.
    cbn [radius diagonal set_endstops_heights]. rewrite Hmode. reflexivity.
  - unfold Recalc. cbn [radius diagonal set_deltaMode]. rewrite Hmode. reflexivity.
Qed.

End DeltaParameters.

(** ** The table of probe points *)

Section ProbePoints.
Import MoveM.
Context {F : Type} `{FloatOps F} {cfg : Config (F := F)}.

Lemma NumberOfProbePoints_from_spec (c : Compensation) (n : nat) :
  forall i,
    let k := NumberOfProbePoints_from c i n in
    (i <= k <= i + n)%nat /\
    (forall j, (i <= j < k)%nat -> AllProbeCoordinatesSet c j = true) /\
    ((k < i + n)%nat -> AllProbeCoordinatesSet c k = false).
Proof.
  induction n as [|n IH]; intros i; cbn [NumberOfProbePoints_from].
  - cbv zeta. split; [lia|]. split; [intros j Hj; lia | intros Hk; lia].
  - destruct (AllProbeCoordinatesSet c i) eqn:Hi.
    + specialize (IH (S i)). cbv zeta in *. destruct IH as (Hr & Hall & Hstop).
      split; [lia|]. split.
      * intros j Hj. destruct (Nat.eq_dec j i) as [->|Hne]; [exact Hi|]. apply Hall. lia.
      * intros Hk. apply Hstop. lia.
    + cbv zeta. split; [lia|]. split; [intros j Hj; lia | intros _; exact Hi].
Qed.

(** X13: [Move::NumberOfProbePoints] is the number of probe points at the
    start of the table that have all three coordinates set: it is at most
    [MaxProbePoints], every point below it is completely set, and the point
    at it, if there is one, is not. *)
Theorem NumberOfProbePoints_counts_leading_points (c : Compensation) :
  let k := NumberOfProbePoints c in
  (k <= MaxProbePoints)%nat /\
  (forall j, (j < k)%nat -> AllProbeCoordinatesSet c j = true) /\
  ((k < MaxProbePoints)%nat -> AllProbeCoordinatesSet c k = false).
Proof.
  unfold NumberOfProbePoints.
  destruct (NumberOfProbePoints_from_spec c MaxProbePoints 0) as (Hr & Hall & Hstop).
  cbv zeta in *. split; [lia|]. split.
  - intros j Hj. apply Hall. lia.
  - intros Hk. apply Hstop. lia.
Qed.

Lemma nth_add_flag (flags : list Z) (i : nat) (flag : Z) :
  (i < length flags)%nat ->
  nth i (add_flag flags i flag) 0%Z = Z.lor (nth i flags 0%Z) flag.
Proof.
  intros Hi. unfold add_flag, aset.
  rewrite nth_lookup, list_lookup_insert_eq by exact Hi. reflexivity.
Qed.

Lemma length_add_flag (flags : list Z) (i : nat) (flag : Z) :
  length (add_flag flags i flag) = length flags.
Proof. unfold add_flag. apply length_aset. Qed.

(** X14: after [Move::SetXBedProbePoint], [Move::SetYBedProbePoint] and
    [Move::SetZBedProbePoint] with an index in the range of the table, the
    point holds the three coordinates given and counts as completely set
    for [Move::AllProbeCoordinatesSet], provided its flags had no bit other
    than [xSet], [ySet] and [zSet] before. *)
Theorem probe_point_completely_set (c : Compensation) (index : Z) (x y z : F) :
  let i := Z.to_nat index in
  let c1 := fst (SetXBedProbePoint c index x) in
  let c2 := fst (SetYBedProbePoint c1 index y) in
  let c3 := fst (SetZBedProbePoint c2 index z) in
  (0 <= index < Z.of_nat MaxProbePoints)%Z ->
  (i < length (probePointSet c))%nat ->
  (i < length (xBedProbePoints c))%nat ->
  (i < length (yBedProbePoints c))%nat ->
  (i < length (zBedProbePoints c))%nat ->
  Z.lor (nth i (probePointSet c) 0%Z) (Z.lor (Z.lor xSet ySet) zSet)
  = Z.lor (Z.lor xSet ySet) zSet ->
  AllProbeCoordinatesSet c3 i = true /\
  (xBedProbePoints c3).[i] = x /\ (yBedProbePoints c3).[i] = y /\
  (zBedProbePoints c3).[i] = z.
Proof.
  intros i c1 c2 c3 Hidx Hf Hx Hy Hz Hflags.
  assert (Hok : probe_index_ok index = true).
  { unfold probe_index_ok. apply negb_true_iff, orb_false_iff. split.
    - apply Z.ltb_ge. lia.
    - rewrite Z.geb_leb. apply Z.leb_gt. lia. }
  subst c3 c2 c1. unfold SetXBedProbePoint, SetYBedProbePoint, SetZBedProbePoint.
  rewrite Hok. cbn [fst]. fold i.
  unfold AllProbeCoordinatesSet.
  cbn [probePointSet xBedProbePoints yBedProbePoints zBedProbePoints
       set_probe_x set_probe_y set_probe_z].
  rewrite !nth_add_flag by (rewrite ?length_add_flag; exact Hf).
  repeat split.
  - apply Z.eqb_eq. rewrite <- Hflags at 1.
    rewrite !Z.lor_assoc. reflexivity.
  - apply aget_aset_eq. exact Hx.
  - apply aget_aset_eq. exact Hy.
  - apply aget_aset_eq. exact Hz.
Qed.

(** X15: with an index that is negative or not below [MaxProbePoints], the
    three functions that set a coordinate of a probe point change nothing
    and report that the index is out of range. *)
Theorem probe_point_index_out_of_range (c : Compensation) (index : Z) (x : F) :
  (index < 0 \/ Z.of_nat MaxProbePoints <= index)%Z ->
  SetXBedProbePoint c index x = (c, [EvMessage "Z probe point X index out of range."%string]) /\
  SetYBedProbePoint c index x = (c, [EvMessage "Z probe point Y index out of range."%string]) /\
  SetZBedProbePoint c index x = (c, [EvMessage "Z probe point Z index out of range."%string]).
Proof.
  intros Hidx.
  assert (Hok : probe_index_ok index = false).
  { unfold probe_index_ok. apply negb_false_iff, orb_true_iff.
    destruct Hidx; [left; apply Z.ltb_lt; lia | right; rewrite Z.geb_leb; apply Z.leb_le; lia]. }
  unfold SetXBedProbePoint, SetYBedProbePoint, SetZBedProbePoint. rewrite Hok.
  repeat split.
Qed.

End ProbePoints.

Lemma probe_point_completely_set_witness :
  let c1 := fst (MoveM.SetXBedProbePoint Sample.blank_bed 2 (fofZ 10)) in
  let c2 := fst (MoveM.SetYBedProbePoint c1 2 (fofZ 20)) in
  let c3 := fst (MoveM.SetZBedProbePoint c2 2 (flit 1 10)) in
  MoveM.AllProbeCoordinatesSet c3 2 = true /\
  (MoveM.xBedProbePoints c3).[2%nat] = fofZ 10 /\
  (MoveM.yBedProbePoints c3).[2%nat] = fofZ 20 /\
  (MoveM.zBedProbePoints c3).[2%nat] = flit 1 10.
Proof.
  apply (probe_point_completely_set Sample.blank_bed 2 (fofZ 10) (fofZ 20) (flit 1 10)).
  - cbn. lia.
  - cbn. lia.
  - cbn. lia.
  - cbn. lia.
  - cbn. lia.
  - reflexivity.
Defined.

Lemma probe_point_index_out_of_range_witness :
  MoveM.SetXBedProbePoint Sample.blank_bed 16 (fofZ 10)
  = (Sample.blank_bed, [MoveM.EvMessage "Z probe point X index out of range."%string]) /\
  MoveM.SetYBedProbePoint Sample.blank_bed 16 (fofZ 10)
  = (Sample.blank_bed, [MoveM.EvMessage "Z probe point Y index out of range."%string]) /\
  MoveM.SetZBedProbePoint Sample.blank_bed 16 (fofZ 10)
  = (Sample.blank_bed, [MoveM.EvMessage "Z probe point Z index out of range."%string]).
Proof.
  apply (probe_point_index_out_of_range Sample.blank_bed 16 (fofZ 10)).
  right. cbn. lia.
Defined.

(** ** Pausing when the current move cannot be paused after *)

Section PauseSearch.
Import MoveM.
Context {F : Type} `{FloatOps F} {cfg : @Config F} {D : Type} `{Inhabited D}
        {dda_ops : @DDA F D}.

Lemma mod_wrap (n a : nat) : (n <= a < 2 * n)%nat -> (a mod n = a - n)%nat.
Proof. intros Ha. symmetry. apply (Nat.mod_unique a n 1); lia. Qed.

Lemma queued_count (n get add : nat) :
  (get < n)%nat -> (add < n)%nat ->
  let k := ((add + n - get) mod n)%nat in
  (k < n)%nat /\ ((get + k) mod n = add)%nat /\
  forall j, (j < k)%nat -> ((get + j) mod n <> add)%nat.
Proof.
  intros Hg Ha k. subst k.
  destruct (Nat.le_gt_cases get add) as [Hle | Hgt].
  - replace (add + n - get)%nat with ((add - get) + 1 * n)%nat by lia.
    rewrite Nat.Div0.mod_add, (Nat.mod_small (add - get)) by lia.
    split; [lia|]. split.
    + replace (get + (add - get))%nat with add by lia. apply Nat.mod_small. exact Ha.
    + intros j Hj. rewrite Nat.mod_small by lia. lia.
  - rewrite (Nat.mod_small (add + n - get)) by lia.
    split; [lia|]. split.
    + replace (get + (add + n - get))%nat with (add + 1 * n)%nat by lia.
      rewrite Nat.Div0.mod_add. apply Nat.mod_small. exact Ha.
    + intros j Hj. destruct (Nat.lt_ge_cases (get + j) n) as [Hlt | Hge].
      * rewrite Nat.mod_small by exact Hlt. lia.
      * rewrite mod_wrap by lia. lia.
Qed.

Lemma pause_search_skips (r : Ring) (k : nat) :
  forall fuel i,
    (i < length (slots r))%nat ->
    (forall j, (j < k)%nat ->
       ((i + j) mod length (slots r))%nat <> ddaRingAddPointer r /\
       CanPause (dda r ((i + j) mod length (slots r))) = false) ->
    pause_search (k + fuel) r i = pause_search fuel r ((i + k) mod length (slots r)).
Proof.
  induction k as [|k IH]; intros fuel i Hi Hrun.
  - rewrite Nat.add_0_r, Nat.mod_small by exact Hi. reflexivity.
  - cbn [Nat.add pause_search].
    destruct (Hrun 0%nat ltac:(lia)) as [Hne Hcan].
    rewrite Nat.add_0_r, Nat.mod_small in Hne, Hcan by exact Hi.
    rewrite (proj2 (Nat.eqb_neq i (ddaRingAddPointer r)) Hne), Hcan.
    unfold GetNext. rewrite IH.
    + rewrite mod_next by exact Hi. reflexivity.
    + apply Nat.mod_upper_bound. lia.
    + intros j Hj. rewrite mod_next by exact Hi. apply Hrun. lia.
Qed.

(** [PausePrint] once the move to stop after is known to be slot [i]. *)
Lemma PausePrint_stops_after (mv : Move) (positions : list F) (i : nat) :
  let r := ring mv in
  let next := GetNext r i in
  let saved := ddaRingAddPointer r in
  let skipped := ring_span r next saved in
  match currentDda r with
  | Some cd =>
      if CanPause (dda r cd)
      then Some (set_addPointer r (GetNext r cd), Some cd)
      else
        match pause_search (length (slots r)) r (ddaRingGetPointer r) with
        | Some (add, i) => Some (set_addPointer r add, Some i)
        | None => None
        end
  | None => Some (set_addPointer r (ddaRingGetPointer r), None)
  end = Some (set_addPointer r next, Some i) ->
  (i < length (slots r))%nat ->
  (saved < length (slots r))%nat ->
  PausePrint mv positions
  = if Nat.eqb next saved
    then
      let mv' := set_ring mv (set_addPointer r next) in
      let '(ps, ev) := GetCurrentUserPosition mv' positions 0 in
      Some (noFilePosition, ps, mv', ev)
    else
      Some (first_file_position (map (dda r) skipped),
            aset (fold_left (fun ps axis => aset ps axis (GetEndCoordinate (dda r i) axis false))
                            (seq 0 AXES) positions)
                 DRIVES (GetRequestedSpeed (dda r i)),
            set_ring mv (set_slots (set_addPointer r next) (release_all (slots r) skipped)),
            []).
Proof.
  intros r next saved skipped Hfound Hi Hsaved.
  unfold PausePrint. fold r. rewrite Hfound. fold saved.
  cbn [ddaRingAddPointer set_addPointer].
  destruct (Nat.eqb next saved) eqn:E; cbn [negb].
  - reflexivity.
  - apply Nat.eqb_neq in E.
    assert (Hnext : (next < length (slots r))%nat).
    { subst next. unfold GetNext. apply Nat.mod_upper_bound. lia. }
    destruct (span_length (length (slots r)) next saved Hnext Hsaved E) as [[Hm0 Hmn] Hm].
    set (m := ((saved + length (slots r) - next) mod length (slots r))%nat) in *.
    destruct m as [|k] eqn:Em; [lia|].
    pose proof (release_skipped_run k (length (slots r)) (set_addPointer r next) next
                  noFilePosition) as Hrun.
    cbv zeta in Hrun. cbn [slots set_addPointer] in Hrun.
    rewrite Hm in Hrun.
    change (slots (set_addPointer r next)) with (slots r).
    change (dda (set_addPointer r next)) with (dda r) in *.
    rewrite Hrun by lia.
    unfold pick_position. rewrite Z.eqb_refl.
    subst skipped. unfold ring_span. fold m. rewrite Em.
    rewrite map_map. reflexivity.
Qed.

Lemma set_addPointer_same (r : Ring (D := D)) : set_addPointer r (ddaRingAddPointer r) = r.
Proof. destruct r. reflexivity. Qed.

Lemma set_ring_same (mv : Move (F := F) (D := D)) : set_ring mv (ring mv) = mv.
Proof. destruct mv. reflexivity. Qed.

(** X16: [Move::PausePrint] with no move being executed and the queue empty
    (the get pointer is at the add pointer) skips nothing: it returns
    [noFilePosition], leaves the ring as it is and fills the array by
    [GetCurrentUserPosition]. *)
Theorem PausePrint_idle (mv : Move) (positions : list F) :
  currentDda (ring mv) = None ->
  ddaRingGetPointer (ring mv) = ddaRingAddPointer (ring mv) ->
  PausePrint mv positions
  = let '(ps, ev) := GetCurrentUserPosition mv positions 0 in
    Some (noFilePosition, ps, mv, ev).
Proof.
  intros Hcur Hempty. unfold PausePrint. rewrite Hcur, Hempty.
  cbn [ddaRingAddPointer set_addPointer]. rewrite Nat.eqb_refl. cbn [negb].
  rewrite set_addPointer_same, set_ring_same. reflexivity.
Qed.

(** X17: when the move being executed cannot be paused after and neither
    can any of the moves from the get pointer up to the add pointer,
    [Move::PausePrint] skips nothing: it returns [noFilePosition], leaves
    the ring as it is (the whole queue is still printed) and fills the
    array by [GetCurrentUserPosition]. *)
Theorem PausePrint_no_move_to_stop_after (mv : Move) (positions : list F) (cd : nat) :
  let r := ring mv in
  let n := length (slots r) in
  let k := ((ddaRingAddPointer r + n - ddaRingGetPointer r) mod n)%nat in
  currentDda r = Some cd ->
  CanPause (dda r cd) = false ->
  (ddaRingGetPointer r < n)%nat ->
  (ddaRingAddPointer r < n)%nat ->
  (forall j, (j < k)%nat -> CanPause (dda r ((ddaRingGetPointer r + j) mod n)) = false) ->
  PausePrint mv positions
  = let '(ps, ev) := GetCurrentUserPosition mv positions 0 in
    Some (noFilePosition, ps, mv, ev).
Proof.
  intros r n k Hcur Hcd Hget Hadd Hnone.
  destruct (queued_count n (ddaRingGetPointer r) (ddaRingAddPointer r) Hget Hadd)
    as (Hk & Hend & Hbefore).
  fold k in Hk, Hend, Hbefore.
  unfold PausePrint. fold r. rewrite Hcur, Hcd. fold n.
  replace n with (k + S (n - S k))%nat at 1 by lia.
  rewrite (pause_search_skips r k (S (n - S k)) (ddaRingGetPointer r) Hget)
    by (intros j Hj; split; [apply Hbefore, Hj | apply Hnone, Hj]).
  fold n. rewrite Hend. cbn [pause_search]. rewrite Nat.eqb_refl.
  cbn [ddaRingAddPointer set_addPointer]. rewrite Nat.eqb_refl. cbn [negb].
  rewrite set_addPointer_same. subst r. rewrite set_ring_same. reflexivity.
Qed.

(** X18: when the move being executed cannot be paused after,
    [Move::PausePrint] stops after the first move of the queue, counted from
    the get pointer, that can: the add pointer becomes the successor of
    that move; if the add pointer was there already nothing is skipped,
    otherwise the moves from there up to the old add pointer are released,
    the result is the file position of the first of them that has one, and
    the array receives the end coordinates and the requested speed of the
    move stopped after. *)
Theorem PausePrint_after_first_pausable (mv : Move) (positions : list F) (cd j0 : nat) :
  let r := ring mv in
  let n := length (slots r) in
  let saved := ddaRingAddPointer r in
  let k := ((saved + n - ddaRingGetPointer r) mod n)%nat in
  let i := ((ddaRingGetPointer r + j0) mod n)%nat in
  let next := GetNext r i in
  let skipped := ring_span r next saved in
  currentDda r = Some cd ->
  CanPause (dda r cd) = false ->
  (ddaRingGetPointer r < n)%nat ->
  (saved < n)%nat ->
  (j0 < k)%nat ->
  (forall j, (j < j0)%nat -> CanPause (dda r ((ddaRingGetPointer r + j) mod n)) = false) ->
  CanPause (dda r i) = true ->
  PausePrint mv positions
  = if Nat.eqb next saved
    then
      let mv' := set_ring mv (set_addPointer r next) in
      let '(ps, ev) := GetCurrentUserPosition mv' positions 0 in
      Some (noFilePosition, ps, mv', ev)
    else
      Some (first_file_position (map (dda r) skipped),
            aset (fold_left (fun ps axis => aset ps axis (GetEndCoordinate (dda r i) axis false))
                            (seq 0 AXES) positions)
                 DRIVES (GetRequestedSpeed (dda r i)),
            set_ring mv (set_slots (set_addPointer r next) (release_all (slots r) skipped)),
            []).
Proof.
  intros r n saved k i next skipped Hcur Hcd Hget Hadd Hj0 Hnone Hcan.
  destruct (queued_count n (ddaRingGetPointer r) saved Hget Hadd) as (Hk & Hend & Hbefore).
  fold k in Hk, Hend, Hbefore.
  apply PausePrint_stops_after.
  - fold r. rewrite Hcur, Hcd. fold n.
    replace n with (j0 + S (n - S j0))%nat at 1 by lia.
    rewrite (pause_search_skips r j0 (S (n - S j0)) (ddaRingGetPointer r) Hget)
      by (intros j Hj; split; [apply Hbefore; lia | apply Hnone, Hj]).
    fold n i. cbn [pause_search].
    rewrite (proj2 (Nat.eqb_neq i (ddaRingAddPointer r)) (Hbefore j0 Hj0)), Hcan.
    reflexivity.
  - apply Nat.mod_upper_bound. unfold n, r in Hget. lia.
  - exact Hadd.
Qed.

(** X19: when no move is being executed but the queue is not empty (moves
    were added and none has been started), [Move::PausePrint] moves the add
    pointer back to the get pointer and then reads the end coordinates
    through the null pointer [dda]: the run is one that the C++ text leaves
    undefined. *)
Theorem PausePrint_before_first_move (mv : Move) (positions : list F) :
  currentDda (ring mv) = None ->
  ddaRingGetPointer (ring mv) <> ddaRingAddPointer (ring mv) ->
  PausePrint mv positions = None.
Proof.
  intros Hcur Hqueue. unfold PausePrint. rewrite Hcur.
  cbn [ddaRingAddPointer set_addPointer].
  rewrite (proj2 (Nat.eqb_neq _ _) Hqueue). reflexivity.
Qed.

End PauseSearch.

Lemma PausePrint_idle_witness :
  let mv := Sample.machine (MoveM.mkRing (replicate 6 Sample.idle_dda) 2 2 None false)
                           (Sample.kossel Sample.zeros3) 0 in
  let ps := replicate 9 (fzero : Sample.Fl) in
  option_map (fun x => (fst (fst (fst x)), snd (fst x))) (MoveM.PausePrint mv ps)
  = Some (MoveM.noFilePosition, mv).
Proof.
  intros mv ps.
  rewrite (PausePrint_idle mv ps); [|reflexivity|reflexivity].
  destruct (MoveM.GetCurrentUserPosition mv ps 0) as [ps' ev]. reflexivity.
Defined.

Lemma PausePrint_no_move_to_stop_after_witness :
  let r := MoveM.mkRing ([Sample.queued MoveM.executing fone false 100;
                          Sample.queued MoveM.frozen fone false 200;
                          Sample.queued MoveM.provisional fone false 300]
                         ++ replicate 3 Sample.idle_dda) 3 0 (Some 0%nat) false in
  let mv := Sample.machine r (Sample.kossel Sample.zeros3) 0 in
  let ps := replicate 9 (fzero : Sample.Fl) in
  option_map (fun x => (fst (fst (fst x)), snd (fst x))) (MoveM.PausePrint mv ps)
  = Some (MoveM.noFilePosition, mv).
Proof.
  intros r mv ps.
  rewrite (PausePrint_no_move_to_stop_after mv ps 0).
  - destruct (MoveM.GetCurrentUserPosition mv ps 0) as [ps' ev]. reflexivity.
  - reflexivity.
  - reflexivity.
  - cbn. lia.
  - cbn. lia.
  - intros [|[|[|j]]] Hj; try reflexivity. cbn in Hj. lia.
Defined.

Lemma PausePrint_after_first_pausable_witness :
  let mv := Sample.machine (Sample.busy_ring false 200 300) (Sample.kossel Sample.zeros3) 0 in
  let ps := replicate 9 (fzero : Sample.Fl) in
  option_map (fun x => fst (fst (fst x))) (MoveM.PausePrint mv ps) = Some 300%Z /\
  option_map (fun x => MoveM.ddaRingAddPointer (MoveM.ring (snd (fst x))))
             (MoveM.PausePrint mv ps) = Some 2%nat.
Proof.
  intros mv ps.
  rewrite (PausePrint_after_first_pausable mv ps 0 1).
  - split; reflexivity.
  - reflexivity.
  - reflexivity.
  - cbn. lia.
  - cbn. lia.
  - cbn. lia.
  - intros [|j] Hj; [reflexivity | lia].
  - reflexivity.
Defined.

Lemma PausePrint_before_first_move_witness :
  MoveM.PausePrint
    (Sample.machine (MoveM.mkRing ([Sample.queued MoveM.frozen fone true 100;
                                    Sample.queued MoveM.provisional fone true 200]
                                   ++ replicate 4 Sample.idle_dda) 2 0 None false)
                    (Sample.kossel Sample.zeros3) 0)
    (replicate 9 (fzero : Sample.Fl))
  = None.
Proof.
  apply PausePrint_before_first_move.
  - reflexivity.
  - cbn. lia.
Defined.

(** ** Leaving blocks, and [else] after [else] *)

Section BlockEnds.
Import Blocks.

(** X20: called at the nesting depth [L] with a command indented to
    [ci <= L], [StringParser::EndBlocks] leaves the blocks one at a time
    and stops at the innermost block from depth [ci] on (below [L]) that is
    a loop, where it sets the line number to the one the loop block
    remembers and returns [true]; when none of these blocks is a loop it
    stops at depth [ci] and returns [false], the line number unchanged.  No
    block is changed, and the loop always comes to an end: one more step
    than the depth is enough. *)
Theorem EndBlocks_stops_at_innermost_loop (ci : nat) (blocks : list BlockState) (line : Z)
    (k : nat) (L : nat) :
  (ci <= L)%nat ->
  (exists j, (ci <= j < L)%nat /\ is_loop blocks j /\
             (forall i, (j < i < L)%nat -> ~ is_loop blocks i) /\
             EndBlocks_loop (S L + k) ci (mkMachine L blocks line)
             = Some (true, mkMachine j blocks (blockLine (blocks !!! j))))
  \/
  ((forall i, (ci <= i < L)%nat -> ~ is_loop blocks i) /\
   EndBlocks_loop (S L + k) ci (mkMachine L blocks line)
   = Some (false, mkMachine ci blocks line)).
Proof.
  induction L as [|l IH]; intros HL.
  - right. split; [intros i Hi; lia|].
    assert (ci = 0%nat) as -> by lia. reflexivity.
  - change (S (S l) + k)%nat with (S (S l + k)).
    cbn [EndBlocks_loop indentLevel].
    destruct (Nat.ltb ci (S l)) eqn:Hlt.
    + apply Nat.ltb_lt in Hlt. assert (Hl : (ci <= l)%nat) by lia.
      cbn [EndBlock indentLevel]. unfold CurrentBlockState.
      cbn [indentLevel blockStates lineNumber].
      destruct (BlockType_eqb (GetType (blocks !!! l)) loop) eqn:Hloop.
      * left. exists l. apply BlockType_eqb_loop in Hloop.
        split; [lia|]. split; [exact Hloop|]. split; [intros i Hi; lia | reflexivity].
      * assert (Hnl : ~ is_loop blocks l).
        { unfold is_loop. intros E. apply BlockType_eqb_loop in E. congruence. }
        destruct (IH Hl) as [(j & Hj & Hjl & Hbetween & Hrun) | [Hnone Hrun]].
        -- left. exists j. split; [lia|]. split; [exact Hjl|]. split; [|exact Hrun].
           intros i Hi. destruct (Nat.eq_dec i l) as [->|Hne]; [exact Hnl|].
           apply Hbetween. lia.
        -- right. split; [|exact Hrun].
           intros i Hi. destruct (Nat.eq_dec i l) as [->|Hne]; [exact Hnl|].
           apply Hnone. lia.
    + apply Nat.ltb_ge in Hlt. assert (ci = S l) as -> by lia.
      right. split; [intros i Hi; lia | reflexivity].
Qed.

Lemma current_after_set (ms : GCodeMachineState) (f : BlockState -> BlockState) :
  (indentLevel ms < length (blockStates ms))%nat ->
  CurrentBlockState (set_current ms f) = f (CurrentBlockState ms).
Proof.
  intros Hl. unfold CurrentBlockState, set_current. cbn [indentLevel blockStates].
  apply list_lookup_total_insert_eq. exact Hl.
Qed.

(** X21: once [StringParser::ProcessElseCommand] has accepted an [else], the
    current block is a plain one, in the branch that executes the else part
    and in the branch that skips it; so with that block current and no
    block type handed over from a skipped block ([previousBlockType] is
    [plain]) a second [else] throws "'else' did not follow 'if'" and an
    [elif] throws "'elif' did not follow 'if", whatever its condition, and
    neither changes the state. *)
Theorem else_is_accepted_once (sp sp' : StringParser) (previousBlockType : BlockType) :
  (indentLevel (machineState sp) < length (blockStates (machineState sp)))%nat ->
  ProcessElseCommand sp previousBlockType = (Done, sp') ->
  GetType (CurrentBlockState (machineState sp')) = plain /\
  forall sp'' cond,
    machineState sp'' = machineState sp' ->
    ProcessElseCommand sp'' plain = (Throw "'else' did not follow 'if'", sp'') /\
    ProcessElifCommand sp'' plain cond = (Throw "'elif' did not follow 'if", sp'').
Proof.
  intros Hl Helse.
  assert (Hplain : GetType (CurrentBlockState (machineState sp')) = plain).
  { unfold ProcessElseCommand in Helse.
    destruct (BlockType_eqb previousBlockType ifFalseNoneTrue).
    - injection Helse as <-. cbn [on_machine machineState].
      rewrite current_after_set by exact Hl. reflexivity.
    - destruct (_ || _); [|discriminate Helse].
      injection Helse as <-. cbn [on_machine skip_to_current machineState].
      rewrite current_after_set by exact Hl. reflexivity. }
  split; [exact Hplain|].
  intros sp'' cond Hsame.
  unfold ProcessElseCommand, ProcessElifCommand. rewrite Hsame, Hplain. split; reflexivity.
Qed.

End BlockEnds.

Lemma EndBlocks_stops_at_innermost_loop_witness :
  let blocks := [Blocks.mkBlock Blocks.plain 0 0 0; Blocks.mkBlock Blocks.loop 2 40 7;
                 Blocks.mkBlock Blocks.ifTrue 0 0 0; Blocks.mkBlock Blocks.plain 0 0 0] in
  (exists j, (0 <= j < 3)%nat /\ is_loop blocks j /\
             (forall i, (j < i < 3)%nat -> ~ is_loop blocks i) /\
             Blocks.EndBlocks_loop (4 + 0) 0 (Blocks.mkMachine 3 blocks 12)
             = Some (true, Blocks.mkMachine j blocks (Blocks.blockLine (blocks !!! j))))
  \/
  ((forall i, (0 <= i < 3)%nat -> ~ is_loop blocks i) /\
   Blocks.EndBlocks_loop (4 + 0) 0 (Blocks.mkMachine 3 blocks 12)
   = Some (false, Blocks.mkMachine 0 blocks 12)).
Proof.
  intros blocks.
  apply (EndBlocks_stops_at_innermost_loop 0 blocks 12 0 3). lia.
Defined.

Lemma else_is_accepted_once_witness :
  let sp := Blocks.mkParser
              (Blocks.mkMachine 1 [Blocks.mkBlock Blocks.plain 0 0 0;
                                   Blocks.mkBlock Blocks.ifTrue 0 0 0] 5)
              1 None in
  let sp' := snd (Blocks.ProcessElseCommand sp Blocks.plain) in
  Blocks.GetType (Blocks.CurrentBlockState (Blocks.machineState sp')) = Blocks.plain /\
  forall sp'' cond,
    Blocks.machineState sp'' = Blocks.machineState sp' ->
    Blocks.ProcessElseCommand sp'' Blocks.plain
    = (Blocks.Throw "'else' did not follow 'if'", sp'') /\
    Blocks.ProcessElifCommand sp'' Blocks.plain cond
    = (Blocks.Throw "'elif' did not follow 'if", sp'').
Proof.
  intros sp sp'.
  apply (else_is_accepted_once sp sp' Blocks.plain).
  - cbn. lia.
  - reflexivity.
Defined.

(** ** Types of operands, white space, strings and arrays *)

Section Operands.
Import Expr.
Context {F : Type} `{FloatOps F} {lib : Library (F := F)}.
Variable env : Env (F := F).

(** X22: [ExpressionParser::BalanceNumericTypes] leaves the parser where it
    is, and when it returns, its two values are both floats or both 32-bit
    integers; when [evaluate] is set it returns only if both operands were
    numeric, and otherwise throws "expected numeric operand" or "expected
    numeric operands". *)
Theorem BalanceNumericTypes_result (v1 v2 : ExpressionValue) (evaluate : bool) (p : Parser) :
  match BalanceNumericTypes env v1 v2 evaluate p with
  | (Ok (w1, w2), p') =>
      p' = p /\
      ((is_float w1 = true /\ is_float w2 = true) \/
       (is_int32 w1 = true /\ is_int32 w2 = true)) /\
      (evaluate = true -> is_numeric v1 = true /\ is_numeric v2 = true)
  | (Exc e, p') =>
      p' = p /\ evaluate = true /\
      (is_numeric v1 = false \/ is_numeric v2 = false) /\
      (excMessage e = "expected numeric operand"%string \/
       excMessage e = "expected numeric operands"%string)
  | (Unfinished, _) => False
  end.
Proof.
  destruct v1, v2, evaluate; cbn; auto 10.
Qed.

(** X23: [ExpressionParser::BalanceTypes] leaves the parser where it is, and
    when it returns, its two values have the same type or are both
    strings; it throws only when [evaluate] is set, and then "expected
    numeric operand" or "cannot convert operands to same type". *)
Theorem BalanceTypes_result (v1 v2 : ExpressionValue) (evaluate : bool) (p : Parser) :
  match BalanceTypes env v1 v2 evaluate p with
  | (Ok (w1, w2), p') =>
      p' = p /\
      (GetType w1 = GetType w2 \/ (IsStringType w1 = true /\ IsStringType w2 = true))
  | (Exc e, p') =>
      p' = p /\ evaluate = true /\
      (excMessage e = "expected numeric operand"%string \/
       excMessage e = "cannot convert operands to same type"%string)
  | (Unfinished, _) => False
  end.
Proof.
  destruct v1 as [| | | | | | | | |[] ?], v2 as [| | | | | | | | |[] ?], evaluate;
    cbn; auto 10.
Qed.

Lemma get_drop_string (n : nat) : forall (s : string) (k : nat),
  String.get k (drop_string n s) = String.get (n + k) s.
Proof.
  induction n as [|n IH]; intros s k; [reflexivity|].
  destruct s as [|c s]; cbn [drop_string Nat.add String.get].
  - destruct k; reflexivity.
  - apply IH.
Qed.

Lemma count_white_spec (s : string) :
  (forall j, (j < count_white s)%nat ->
     exists c, String.get j s = Some c /\ is_white c = true) /\
  match String.get (count_white s) s with
  | Some c => is_white c = false
  | None => True
  end.
Proof.
  induction s as [|c s [IHa IHb]]; cbn [count_white].
  - split; [intros j Hj; lia | exact I].
  - fold (is_white c). destruct (is_white c) eqn:Hc.
    + split.
      * intros [|j] Hj; cbn [String.get]; [exists c; auto|]. apply IHa. lia.
      * cbn [String.get]. exact IHb.
    + split; [intros j Hj; lia|]. cbn [String.get]. exact Hc.
Qed.

(** X24: [ExpressionParser::SkipWhiteSpace] does not fail and changes only
    the pointer (the text, the column offset, the obsolete field noted and
    the names looked up stay as they are), which it moves forward over
    spaces and tabs only, to the first character that is neither (the end
    of the text counts as the character 0). *)
Theorem SkipWhiteSpace_stops_at_first_other (p : Parser) :
  let p' := snd (SkipWhiteSpace p) in
  fst (SkipWhiteSpace p) = Ok tt /\
  p' = move_to p (currentp p') /\
  (text p' = text p /\ column p' = column p /\
   obsoleteField p' = obsoleteField p /\ lookups p' = lookups p) /\
  (currentp p <= currentp p')%nat /\
  (forall j, (currentp p <= j < currentp p')%nat ->
     exists c, String.get j (text p) = Some c /\ is_white c = true) /\
  is_white (CurrentCharacter p') = false.
Proof.
  unfold SkipWhiteSpace. cbn [fst snd text currentp column obsoleteField lookups].
  destruct (count_white_spec (drop_string (currentp p) (text p))) as [Ha Hb].
  split; [reflexivity|]. split; [reflexivity|].
  split; [repeat split|]. split; [lia|]. split.
  - intros j Hj. specialize (Ha (j - currentp p)%nat ltac:(lia)).
    rewrite get_drop_string in Ha. replace (currentp p + (j - currentp p))%nat with j in Ha by lia.
    exact Ha.
  - unfold CurrentCharacter. cbn [text currentp].
    rewrite get_drop_string in Hb.
    destruct (String.get _ (text p)); [exact Hb | reflexivity].
Qed.

Lemma get_after_prefix (pre : string) (c : ascii) (rest : string) :
  String.get (String.length pre) (pre ++ String c rest) = Some c.
Proof.
  induction pre as [|d pre IH]; [reflexivity|]. exact IH.
Qed.

Lemma get_at_end (pre : string) : String.get (String.length pre) pre = None.
Proof. induction pre as [|d pre IH]; [reflexivity | exact IH]. Qed.

Lemma append_assoc_char (pre : string) (c : ascii) (rest : string) :
  (pre ++ String c rest = (pre ++ String c EmptyString) ++ rest)%string.
Proof.
  induction pre as [|d pre IH]; [reflexivity|]. cbn [append]. rewrite IH. reflexivity.
Qed.

Lemma length_append_char (pre : string) (c : ascii) :
  String.length (pre ++ String c EmptyString) = S (String.length pre).
Proof. induction pre as [|d pre IH]; [reflexivity|]. cbn [append String.length]. rewrite IH. reflexivity. Qed.

Lemma append_empty_r_string (a : string) : (a ++ EmptyString)%string = a.
Proof. induction a as [|d a IH]; [reflexivity|]. cbn [append]. rewrite IH. reflexivity. Qed.

Lemma length_append (a b : string) :
  String.length (a ++ b) = (String.length a + String.length b)%nat.
Proof. induction a as [|d a IH]; [reflexivity|]. cbn [append String.length Nat.add]. rewrite IH. reflexivity. Qed.

Lemma bind_current {B : Type} (k : ascii -> M B) (p : Parser) :
  bind current k p = k (CurrentCharacter p) p.
Proof. reflexivity. Qed.

Lemma bind_AdvancePointer {B : Type} (k : unit -> M B) (p : Parser) :
  bind AdvancePointer k p = k tt (move_to p (S (currentp p))).
Proof. reflexivity. Qed.

Lemma current_after_prefix (p : Parser) (pre : string) (c : ascii) (rest : string) :
  text p = (pre ++ String c rest)%string -> currentp p = String.length pre ->
  CurrentCharacter p = c.
Proof.
  intros Ht Hc. unfold CurrentCharacter. rewrite Ht, Hc, get_after_prefix. reflexivity.
Qed.

Lemma current_after_all (p : Parser) (pre rest : string) :
  text p = (pre ++ rest)%string -> currentp p = String.length pre ->
  CurrentCharacter p = match String.get 0 rest with Some c => c | None => NUL end.
Proof.
  intros Ht Hc. destruct rest as [|d rest].
  - unfold CurrentCharacter. rewrite Ht, Hc, append_empty_r_string, get_at_end. reflexivity.
  - apply (current_after_prefix p pre d rest Ht Hc).
Qed.

Lemma quoted_loop_plain (s : string) :
  forall (fuel : nat) (str pre rest : string) (p : Parser),
    text p = (pre ++ s ++ String DQUOTE rest)%string ->
    currentp p = String.length pre ->
    all_plain s = true ->
    (String.length str + String.length s <= MaxStringExpressionLength)%nat ->
    (String.length s < fuel)%nat ->
    String.get 0 rest <> Some DQUOTE ->
    quoted_loop env fuel str p
    = (Ok (EV_HeapString (str ++ s)), move_to p (String.length pre + String.length s + 1)).
Proof.
  induction s as [|c s IH]; intros fuel str pre rest p Htext Hcur Hplain Hroom Hfuel Hrest;
    (destruct fuel as [|fuel]; [cbn [String.length] in Hfuel; lia|]).
  - cbn [append] in Htext. cbn [quoted_loop].
    rewrite bind_current, (current_after_prefix p pre DQUOTE rest Htext Hcur).
    rewrite bind_AdvancePointer.
    change (nat_of_ascii DQUOTE <? 32)%nat with false. cbv iota.
    rewrite bind_current.
    rewrite (current_after_all (move_to p (S (currentp p))) (pre ++ String DQUOTE EmptyString) rest);
      [| cbn [move_to text]; rewrite Htext; apply append_assoc_char
       | cbn [move_to currentp]; rewrite Hcur, length_append_char; reflexivity].
    change (Ascii.eqb DQUOTE DQUOTE) with true. cbv iota.
    assert (Hd : Ascii.eqb match String.get 0 rest with Some c => c | None => NUL end DQUOTE
                 = false).
    { destruct (String.get 0 rest) as [d|]; [|reflexivity].
      apply Ascii.eqb_neq. intros ->. apply Hrest. reflexivity. }
    rewrite Hd. cbn [negb]. unfold ret.
    rewrite append_empty_r_string, Hcur. cbn [String.length].
    f_equal. f_equal. lia.
  - cbn [all_plain] in Hplain. apply andb_true_iff in Hplain. destruct Hplain as [Hc Hs].
    unfold plain_char in Hc. apply andb_true_iff in Hc. destruct Hc as [Hc Hq].
    apply andb_true_iff in Hc. destruct Hc as [Hc Hdq].
    apply andb_true_iff in Hc. destruct Hc as [Hctl _].
    apply negb_true_iff in Hctl, Hdq, Hq.
    cbn [append] in Htext. cbn [quoted_loop].
    rewrite bind_current, (current_after_prefix p pre c _ Htext Hcur).
    rewrite bind_AdvancePointer. rewrite Hctl. rewrite bind_current.
    rewrite Hdq, Hq.
    unfold string_cat.
    cbn [String.length] in Hroom, Hfuel.
    rewrite (proj2 (Nat.leb_gt MaxStringExpressionLength (String.length str))) by lia.
    rewrite (IH fuel (str ++ String c EmptyString)%string (pre ++ String c EmptyString)%string rest).
    + unfold move_to. cbn [text column obsoleteField lookups String.length].
      rewrite length_append_char. rewrite <- append_assoc_char.
      f_equal. f_equal. lia.
    + cbn [move_to text]. rewrite Htext. apply append_assoc_char.
    + cbn [move_to currentp]. rewrite Hcur, length_append_char. reflexivity.
    + exact Hs.
    + rewrite length_append_char. lia.
    + lia.
    + exact Hrest.
Qed.

(** X26: on a text that has, at the pointer, a double quote, then
    characters that are 7-bit, not control characters and not quotes, fewer
    than [MaxStringExpressionLength] of them, then a double quote that is
    not followed by another, [ExpressionParser::ParseQuotedString] returns
    exactly these characters as a string and leaves the pointer behind the
    closing quote. *)
Theorem ParseQuotedString_plain (p : Parser) (pre s rest : string) :
  text p = (pre ++ String DQUOTE (s ++ String DQUOTE rest))%string ->
  currentp p = String.length pre ->
  all_plain s = true ->
  (String.length s < MaxStringExpressionLength)%nat ->
  String.get 0 rest <> Some DQUOTE ->
  ParseQuotedString env p
  = (Ok (EV_HeapString s), move_to p (String.length pre + String.length s + 2)).
Proof.
  intros Htext Hcur Hplain Hroom Hrest.
  unfold ParseQuotedString. rewrite bind_AdvancePointer.
  rewrite (quoted_loop_plain s _ EmptyString (pre ++ String DQUOTE EmptyString) rest).
  - unfold move_to. cbn [text column obsoleteField lookups append].
    rewrite length_append_char. f_equal. f_equal. lia.
  - cbn [move_to text]. rewrite Htext. apply append_assoc_char.
  - cbn [move_to currentp]. rewrite Hcur, length_append_char. reflexivity.
  - exact Hplain.
  - cbn [String.length]. lia.
  - unfold remaining. cbn [move_to text currentp].
    rewrite Htext, Hcur, length_append. cbn [String.length].
    rewrite length_append. cbn [String.length]. lia.
  - exact Hrest.
Qed.

Section Arrays.
Context {A : Type}.
Variable sep : ascii.
Variable processElement : nat -> M A.

Lemma bind_Ok_inv {X Y : Type} (m : M X) (k : X -> M Y) (p p' : Parser) (y : Y) :
  bind m k p = (Ok y, p') -> exists x q, m p = (Ok x, q) /\ k x q = (Ok y, p').
Proof.
  unfold bind. destruct (m p) as [[x | e |] q]; intros E; try discriminate E.
  exists x, q. split; [reflexivity | exact E].
Qed.

Lemma array_loop_length (capacity k : nat) :
  forall (n : nat) (arr arr' : list A) (p p' : Parser),
    length arr = n -> (n + k = capacity)%nat ->
    array_loop env sep processElement capacity k n arr p = (Ok arr', p') ->
    (n <= length arr' <= capacity)%nat /\ ((0 < k)%nat -> (n < length arr')%nat).
Proof.
  induction k as [|k IH]; intros n arr arr' p p' Hlen Hroom Hrun.
  - cbn in Hrun. injection Hrun as <- <-. lia.
  - cbn [array_loop] in Hrun.
    apply bind_Ok_inv in Hrun. destruct Hrun as (x & q & _ & Hrun).
    apply bind_Ok_inv in Hrun. destruct Hrun as (c & q' & _ & Hrun).
    destruct (negb (Ascii.eqb c sep)).
    + injection Hrun as <- <-. rewrite length_app. cbn [length]. lia.
    + destruct (Nat.eqb (S n) capacity); [discriminate Hrun|].
      apply bind_Ok_inv in Hrun. destruct Hrun as (u & q'' & _ & Hrun).
      apply IH in Hrun; [lia | rewrite length_app; cbn [length]; lia | lia].
Qed.

(** X25: an array that [ExpressionParser::ParseArray] returns has at most as
    many elements as the caller's buffer holds ([length] on entry), and at
    least one if the buffer holds any, whatever the function that reads an
    element does. *)
Theorem ParseArray_fits (capacity : nat) (p p' : Parser) (arr : list A) :
  ParseArray env sep processElement capacity p = (Ok arr, p') ->
  (length arr <= capacity)%nat /\ ((0 < capacity)%nat -> (0 < length arr)%nat).
Proof.
  unfold ParseArray. intros Hrun.
  apply bind_Ok_inv in Hrun. destruct Hrun as (u & q & _ & Hrun).
  apply bind_Ok_inv in Hrun. destruct Hrun as (arr0 & q' & Hloop & Hrun).
  apply bind_Ok_inv in Hrun. destruct Hrun as (c & q'' & _ & Hrun).
  destruct (negb (Ascii.eqb c "}")); [discriminate Hrun|].
  apply bind_Ok_inv in Hrun. destruct Hrun as (u' & q3 & _ & Hrun).
  injection Hrun as <- <-.
  apply array_loop_length in Hloop; [lia | reflexivity | lia].
Qed.

End Arrays.
End Operands.

Lemma ParseQuotedString_plain_witness :
  let line := ("echo " ++ String Expr.DQUOTE ("a b" ++ String Expr.DQUOTE " "))%string in
  Expr.ParseQuotedString (H0 := Sample.library) Sample.environment
    (Expr.mkP line 5 0%Z EmptyString [])
  = (Expr.Ok (Expr.EV_HeapString "a b"), Expr.mkP line 10 0%Z EmptyString []).
Proof.
  intros line.
  apply (ParseQuotedString_plain (lib := Sample.library) Sample.environment
           (Expr.mkP line 5 0%Z EmptyString []) "echo " "a b" " ").
  - reflexivity.
  - reflexivity.
  - reflexivity.
  - cbn. lia.
  - discriminate.
Defined.

Lemma ParseArray_fits_witness :
  let run := Expr.ParseArray Sample.environment "," Sample.number_element 4
               (Sample.parser_at "{1,2}") in
  (length [Expr.EV_Int32 1; Expr.EV_Int32 2 : Expr.ExpressionValue (F := Sample.Fl)] <= 4)%nat /\
  ((0 < 4)%nat ->
   (0 < length [Expr.EV_Int32 1; Expr.EV_Int32 2 : Expr.ExpressionValue (F := Sample.Fl)])%nat).
Proof.
  intros run.
  apply (ParseArray_fits Sample.environment "," Sample.number_element 4
           (Sample.parser_at "{1,2}") (snd run)).
  vm_compute. reflexivity.
Defined.

(** ** The parser reads forward, and where its exceptions point *)

Section Forward.
Import Expr.
Context {F : Type} `{FloatOps F} {lib : Library (F := F)}.
Variable env : Env (F := F).

Local Abbreviation steady := (Expr.steady env).

Ltac steady_basic :=
  intros p; unfold Expr.steady_at, ret, unfinished, current, AdvancePointer, SkipWhiteSpace,
    log_lookup;
  cbn [fst snd text column currentp];
  split; [reflexivity|]; split; [reflexivity|]; split; [lia|];
  intros e He; discriminate He.

Lemma steady_ret {A : Type} (a : A) : steady (ret a).
Proof. steady_basic. Qed.

Lemma steady_unfinished {A : Type} : steady (unfinished (A := A)).
Proof. steady_basic. Qed.

Lemma steady_throw {A : Type} (msg : string) : steady (ThrowParseException env (A := A) msg).
Proof.
  intros p. unfold Expr.steady_at, ThrowParseException. cbn [fst snd].
  split; [reflexivity|]. split; [reflexivity|]. split; [lia|].
  intros e He. injection He as <-. split; reflexivity.
Qed.

Lemma steady_bind {A B : Type} (m : M A) (k : A -> M B) :
  steady m -> (forall a, steady (k a)) -> steady (bind m k).
Proof.
  intros Hm Hk p. unfold Expr.steady_at, bind.
  destruct (Hm p) as (Ht & Hc & Hp & He).
  destruct (m p) as [[a | e |] p'] eqn:Em; cbn [fst snd] in *.
  - destruct (Hk a p') as (Ht' & Hc' & Hp' & He').
    rewrite Ht', Hc'. split; [assumption|]. split; [assumption|]. split; [lia | assumption].
  - split; [assumption|]. split; [assumption|]. split; [assumption|].
    intros e0 He0. injection He0 as <-. apply He. reflexivity.
  - split; [assumption|]. split; [assumption|]. split; [assumption|].
    intros e0 He0. discriminate He0.
Qed.

Lemma steady_dep {A B : Type} (f : B -> M A) (g : Parser -> B) :
  (forall b, steady (f b)) -> steady (fun p => f (g p) p).
Proof. intros Hf p. exact (Hf (g p) p). Qed.

Lemma steady_current : steady current.
Proof. steady_basic. Qed.

Lemma steady_AdvancePointer : steady AdvancePointer.
Proof. steady_basic. Qed.

Lemma steady_SkipWhiteSpace : steady SkipWhiteSpace.
Proof. steady_basic. Qed.

Lemma steady_log_lookup (name : string) : steady (log_lookup name).
Proof. steady_basic. Qed.

Lemma steady_note_obsolete (name : string) : steady (note_obsolete name).
Proof.
  intros p. unfold Expr.steady_at, note_obsolete. cbn [fst snd].
  destruct (String.eqb _ _); cbn [text column currentp];
    (split; [reflexivity|]; split; [reflexivity|]; split; [lia|];
     intros e He; discriminate He).
Qed.

Lemma steady_ParseNumber : steady ParseNumber.
Proof.
  intros p. unfold Expr.steady_at, ParseNumber.
  destruct (NumericConverter _) as [v n]. cbn [fst snd text column currentp].
  split; [reflexivity|]. split; [reflexivity|]. split; [lia|].
  intros e He. discriminate He.
Qed.

Create HintDb steady.
#[local] Hint Resolve steady_ret steady_unfinished steady_throw steady_current
  steady_AdvancePointer steady_SkipWhiteSpace steady_log_lookup steady_note_obsolete
  steady_ParseNumber : steady.

Ltac steady_step :=
  lazymatch goal with
  | |- steady (bind _ _) => apply steady_bind; [| intros ?]
  | |- steady (if ?b then _ else _) => destruct b
  | |- steady (match ?x with _ => _ end) => destruct x
  | |- steady _ => solve [eauto with steady]
  end.

Ltac steady_auto := repeat steady_step.

Lemma steady_expect (c : ascii) (msg : string) : steady (expect env c msg).
Proof. unfold expect. steady_auto. Qed.

Lemma steady_ConvertToFloat (v : ExpressionValue) (ev : bool) : steady (ConvertToFloat env v ev).
Proof. unfold ConvertToFloat. steady_auto. Qed.

Lemma steady_ConvertToBool (v : ExpressionValue) (ev : bool) : steady (ConvertToBool env v ev).
Proof. unfold ConvertToBool. steady_auto. Qed.

#[local] Hint Resolve steady_expect steady_ConvertToFloat steady_ConvertToBool : steady.

Lemma steady_BalanceNumericTypes (v1 v2 : ExpressionValue) (ev : bool) :
  steady (BalanceNumericTypes env v1 v2 ev).
Proof. unfold BalanceNumericTypes. steady_auto. Qed.

Lemma steady_BalanceTypes (v1 v2 : ExpressionValue) (ev : bool) :
  steady (BalanceTypes env v1 v2 ev).
Proof. unfold BalanceTypes. steady_auto. Qed.

Lemma steady_GetVariableValue (vars : string -> option (ExpressionValue * Z))
    (name : string) (prm ex : bool) : steady (GetVariableValue env vars name prm ex).
Proof. unfold GetVariableValue. steady_auto. Qed.

#[local] Hint Resolve steady_BalanceNumericTypes steady_BalanceTypes
  steady_GetVariableValue : steady.

Lemma steady_quoted_loop (n : nat) : forall str, steady (quoted_loop env n str).
Proof.
  induction n as [|n IH]; intros str; cbn [quoted_loop]; steady_auto.
Qed.

Lemma steady_ParseQuotedString : steady (ParseQuotedString env).
Proof.
  unfold ParseQuotedString. apply steady_bind; [apply steady_AdvancePointer|]. intros _.
  apply (steady_dep (fun n => quoted_loop env n EmptyString) remaining).
  intros n. apply steady_quoted_loop.
Qed.

Lemma steady_constant_value (c : NamedConstant) : steady (constant_value env c).
Proof. unfold constant_value. steady_auto. Qed.

Lemma steady_float_fn (f : F -> F) (v : ExpressionValue) (ev : bool) :
  steady (float_fn env f v ev).
Proof. unfold float_fn. steady_auto. Qed.

#[local] Hint Resolve steady_ParseQuotedString steady_constant_value steady_float_fn : steady.

Section SteadyBodies.
Variable PI : bool -> Z -> M (ExpressionValue (F := F)).
Variable PIE : bool -> bool -> bool -> M (ExpressionValue (F := F)).
Hypothesis steady_PI : forall ev priority, steady (PI ev priority).
Hypothesis steady_PIE : forall ev len ex, steady (PIE ev len ex).

Lemma steady_next_operand (ev : bool) : steady (next_operand env PI ev).
Proof using steady_PI. unfold next_operand. steady_auto. Qed.

Lemma steady_minmax_loop (ev isMax : bool) (n : nat) :
  forall rslt, steady (minmax_loop env PI ev isMax n rslt).
Proof using steady_PI.
  induction n as [|n IH]; intros rslt; cbn [minmax_loop]; steady_auto.
Qed.

Lemma steady_minmax_rest (ev isMax : bool) (rslt : ExpressionValue) :
  steady (fun p => minmax_loop env PI ev isMax (remaining p) rslt p).
Proof using steady_PI.
  apply (steady_dep (fun n => minmax_loop env PI ev isMax n rslt) remaining).
  intros n. apply steady_minmax_loop.
Qed.

#[local] Hint Resolve steady_next_operand steady_minmax_loop steady_minmax_rest : steady.

Lemma steady_apply_function (func : Function) (rslt : ExpressionValue) (ev : bool) :
  steady (apply_function env PI func rslt ev).
Proof using steady_PI.
  destruct func; cbn [apply_function]; steady_auto.
Qed.

Lemma steady_identifier_loop (ev : bool) (n : nat) :
  forall id idx, steady (identifier_loop env PI ev n id idx).
Proof using steady_PI.
  induction n as [|n IH]; intros id idx; cbn [identifier_loop]; steady_auto.
Qed.

Lemma steady_identifier_rest (ev : bool) :
  steady (fun p => identifier_loop env PI ev (remaining p) EmptyString [] p).
Proof using steady_PI.
  apply (steady_dep (fun n => identifier_loop env PI ev n EmptyString []) remaining).
  intros n. apply steady_identifier_loop.
Qed.

#[local] Hint Resolve steady_apply_function steady_identifier_loop
  steady_identifier_rest : steady.

Lemma steady_ParseIdentifierExpression_body (ev len ex : bool) :
  steady (ParseIdentifierExpression_body env PI PIE ev len ex).
Proof using steady_PI steady_PIE.
  unfold ParseIdentifierExpression_body. steady_auto.
Qed.

Lemma steady_ParseExpectKet (ev : bool) (c : ascii) : steady (ParseExpectKet env PI ev c).
Proof using steady_PI. unfold ParseExpectKet. steady_auto. Qed.

#[local] Hint Resolve steady_ParseExpectKet : steady.

Lemma steady_parse_operand (ev : bool) : steady (parse_operand env PI PIE ev).
Proof using steady_PI steady_PIE. unfold parse_operand. steady_auto. Qed.

Lemma steady_apply_binop (opChar : ascii) (invert ev : bool) (val val2 : ExpressionValue) :
  steady (apply_binop env opChar invert ev val val2).
Proof. unfold apply_binop. steady_auto. Qed.

Lemma steady_operator_tail (opChar : ascii) : steady (operator_tail env opChar).
Proof. unfold operator_tail. steady_auto. Qed.

#[local] Hint Resolve steady_apply_binop steady_operator_tail : steady.

Lemma steady_binop_loop (ev : bool) (priority : Z) (n : nat) :
  forall val, steady (binop_loop env PI ev priority n val).
Proof using steady_PI.
  induction n as [|n IH]; intros val; cbn [binop_loop]; steady_auto.
Qed.

Lemma steady_ParseInternal_body (ev : bool) (priority : Z) :
  steady (ParseInternal_body env PI PIE ev priority).
Proof using steady_PI steady_PIE.
  unfold ParseInternal_body. apply steady_bind; [apply steady_parse_operand|].
  intros val. apply (steady_dep (fun n => binop_loop env PI ev priority n val) remaining).
  intros n. apply steady_binop_loop.
Qed.

End SteadyBodies.

Lemma steady_parsers (depth : nat) :
  (forall ev priority, steady (ParseInternal env depth ev priority)) /\
  (forall ev len ex, steady (ParseIdentifierExpression env depth ev len ex)).
Proof.
  induction depth as [|d [IHPI IHPIE]]; split; intros;
    cbn [ParseInternal ParseIdentifierExpression].
  - apply steady_throw.
  - apply steady_throw.
  - apply steady_ParseInternal_body; assumption.
  - apply steady_ParseIdentifierExpression_body; assumption.
Qed.

(** X27: [ExpressionParser::Parse], however deep its calls nest and whether
    it returns a value, throws or runs out of stack, leaves the text and
    the column offset of the buffer alone and never moves the pointer back:
    the pointer ends at or after the place where it started. *)
Theorem Parse_reads_forward (depth : nat) (evaluate : bool) (p : Parser) :
  let p' := snd (fst (Parse env depth evaluate p)) in
  text p' = text p /\ column p' = column p /\ (currentp p <= currentp p')%nat.
Proof.
  cbv zeta. unfold Parse.
  set (p0 := mkP (text p) (currentp p) (column p) EmptyString (lookups p)).
  destruct (proj1 (steady_parsers depth) evaluate 0%Z p0) as (Ht & Hc & Hp & _).
  destruct (ParseInternal env depth evaluate 0 p0) as [[v | e |] p']; cbn [fst snd] in *;
    (split; [exact Ht|]; split; [exact Hc | exact Hp]).
Qed.

(** X28: an exception that [ExpressionParser::Parse] throws carries the line
    number of the G-code buffer and the column that [GetColumn] gives for
    the place where the parser stopped.  The exceptions that the object
    model throws are its own and are left out: the statement is made for
    an object model that has a value for every name. *)
Theorem Parse_exception_position (depth : nat) (evaluate : bool) (p : Parser)
    (e : GCodeException) :
  (forall context id, exists v obsolete,
     GetObjectValueUsingTableNumber env context id = (inl v, obsolete)) ->
  fst (fst (Parse env depth evaluate p)) = Exc e ->
  excLine e = GetLineNumber env /\
  excColumn e = GetColumn (snd (fst (Parse env depth evaluate p))).
Proof.
  intros _. unfold Parse.
  set (p0 := mkP (text p) (currentp p) (column p) EmptyString (lookups p)).
  destruct (proj1 (steady_parsers depth) evaluate 0%Z p0) as (_ & _ & _ & He).
  destruct (ParseInternal env depth evaluate 0 p0) as [[v | e' |] p']; cbn [fst snd] in *;
    intros Hthrown; try discriminate Hthrown.
  apply He. exact Hthrown.
Qed.

End Forward.

Lemma Parse_exception_position_witness :
  let p := Sample.parser_at "2 * (1 + 3" in
  let e := Expr.mkExc 1 10 "expected '%c'" in
  fst (fst (Expr.Parse (H0 := Sample.library) Sample.null_model 50 true p)) = Expr.Exc e /\
  Expr.excLine e = Expr.GetLineNumber Sample.null_model /\
  Expr.excColumn e
  = Expr.GetColumn (snd (fst (Expr.Parse (H0 := Sample.library) Sample.null_model 50 true p))).
Proof.
  intros p e.
  assert (Hthrown : fst (fst (Expr.Parse (H0 := Sample.library) Sample.null_model 50 true p))
                    = Expr.Exc e) by (vm_compute; reflexivity).
  split; [exact Hthrown|].
  exact (Parse_exception_position (lib := Sample.library) Sample.null_model 50 true p e
           (fun context id => ex_intro _ Expr.EV_None (ex_intro _ false eq_refl)) Hthrown).
Defined.

(** ** Which numbers of probe points the bed equation takes *)

Section BedEquationCounts.
Import MoveM.
Context {F : Type} `{FloatOps F} {cfg : Config (F := F)}.

Lemma NumberOfProbePoints_same_flags (c1 c2 : Compensation) :
  probePointSet c1 = probePointSet c2 -> NumberOfProbePoints c1 = NumberOfProbePoints c2.
Proof.
  intros Hf. unfold NumberOfProbePoints. generalize 0%nat.
  induction MaxProbePoints as [|n IH]; intros i; [reflexivity|].
  cbn [NumberOfProbePoints_from]. unfold AllProbeCoordinatesSet. rewrite Hf, IH. reflexivity.
Qed.

(** X29: [Move::SetProbedBedEquation] never changes the probe points, their
    flags or the skew of the axes.  With 3, 4 or 5 points it reports
    nothing, switches the bed transform on and writes the reply, which
    lists the probe points up to [NumberOfProbePoints]; with any other
    number it reports "Bed calibration error: %d points provided but only
    3, 4 and 5 supported", changes nothing at all and writes no reply. *)
Theorem SetProbedBedEquation_outcome (c : Compensation) (numPoints : nat) :
  let c' := (SetProbedBedEquation c numPoints).1.1 in
  let ev := (SetProbedBedEquation c numPoints).1.2 in
  let reply := (SetProbedBedEquation c numPoints).2 in
  (xBedProbePoints c' = xBedProbePoints c /\ yBedProbePoints c' = yBedProbePoints c /\
   zBedProbePoints c' = zBedProbePoints c /\ probePointSet c' = probePointSet c /\
   tanXY c' = tanXY c /\ tanYZ c' = tanYZ c /\ tanXZ c' = tanXZ c) /\
  if Nat.leb 3 numPoints && Nat.leb numPoints 5
  then
    ev = [] /\ identityBedTransform c' = false /\
    reply = Some (map (fun i => ((xBedProbePoints c).[i], (yBedProbePoints c).[i],
                                 (zBedProbePoints c).[i]))
                      (seq 0 (NumberOfProbePoints c)))
  else
    c' = c /\
    ev = [EvMessage
            "Bed calibration error: %d points provided but only 3, 4 and 5 supported"] /\
    reply = None.
Proof.
  assert (Hcount : forall c1 : Compensation,
            probePointSet c1 = probePointSet c ->
            NumberOfProbePoints c1 = NumberOfProbePoints c).
  { intros c1 Hf. apply NumberOfProbePoints_same_flags. exact Hf. }
  cbv zeta. unfold SetProbedBedEquation. cbv zeta.
  destruct numPoints as [|[|[|[|[|[|n]]]]]]; cbn [Nat.leb andb fst snd];
    try (repeat split; reflexivity).
  - split; [repeat split|]. split; [reflexivity|]. split; [reflexivity|].
    rewrite Hcount by reflexivity. reflexivity.
  - split; [repeat split|]. split; [reflexivity|]. split; [reflexivity|].
    rewrite Hcount by reflexivity. reflexivity.
  - destruct (fold_left _ _ _) as [[bx by'] bz]. cbn [fst snd].
    split; [repeat split|]. split; [reflexivity|]. split; [reflexivity|].
    rewrite Hcount by reflexivity. reflexivity.
Qed.

End BedEquationCounts.
